(** * HTML-to-PDF converter PCF: a shallow embedding and its properties

    The development follows the two TypeScript units of the control:

    - [index.ts] (class [HtmlToPdfComponent]): parsing of the
      [actionCommand] input, the command dispatch of [updateView], the
      PDF output fields;
    - [PrintPreview.tsx] (function component [PrintPreview]): the
      [handleDownload] guards, the pagination pipeline (page markers,
      segment rasterisation, single-page and sliced placement) and the two
      effects that queue and execute commands.

    Conventions of the embedding:

    - a JavaScript string is a [string]; each [ascii] stands for one code
      unit in the range 0..255, so the whitespace set of [trim] and the
      case mapping of [toLowerCase] are the ones of that range;
    - a JavaScript number holding a length in points is a [Q] (exact
      arithmetic), pixel sizes and [Date.now()] timestamps are [Z];
    - a promise that rejects and a function that throws are both an
      [Err] result carrying the message of the [Error];
    - browser and library services ([JSON.parse], [html2canvas],
      [embedPng], [PDFDocument.save]) are parameters of the functions that
      call them. *)

From Stdlib Require Import List String Ascii Bool Arith ZArith QArith Qround Qminmax Lia Lqa.
From Equations Require Import Equations.
Import ListNotations.

Set Warnings "-register-all".
Local Open Scope string_scope.
Local Open Scope list_scope.

(* ===================================================================== *)
(** * Part I. Definitions                                                  *)
(* ===================================================================== *)

(** ** JavaScript strings *)

(** Code units that [String.prototype.trim] removes (WhiteSpace and
    LineTerminator of ECMAScript, restricted to 0..255): TAB, LF, VT, FF,
    CR, SPACE and NO-BREAK SPACE. *)
Definition isWhiteSpace (c : ascii) : bool :=
  let n := nat_of_ascii c in
  (n =? 9)%nat || (n =? 10)%nat || (n =? 11)%nat || (n =? 12)%nat
  || (n =? 13)%nat || (n =? 32)%nat || (n =? 160)%nat.

Fixpoint trimStart (s : string) : string :=
  match s with
  | EmptyString => EmptyString
  | String c s' => if isWhiteSpace c then trimStart s' else s
  end.

Fixpoint trimEnd (s : string) : string :=
  match s with
  | EmptyString => EmptyString
  | String c s' =>
      match trimEnd s' with
      | EmptyString => if isWhiteSpace c then EmptyString else String c EmptyString
      | t => String c t
      end
  end.

(** [s.trim()] *)
Definition trim (s : string) : string := trimEnd (trimStart s).

(** [!s] for a string [s]: the empty string is the only falsy string. *)
Definition isEmpty (s : string) : bool :=
  match s with EmptyString => true | _ => false end.

(** [!s.trim()] *)
Definition isBlank (s : string) : bool := isEmpty (trim s).

Definition lowerChar (c : ascii) : ascii :=
  let n := nat_of_ascii c in
  if ((65 <=? n) && (n <=? 90))%nat then ascii_of_nat (n + 32)
  else if ((192 <=? n) && (n <=? 222) && negb (n =? 215))%nat
       then ascii_of_nat (n + 32)
  else c.

(** [s.toLowerCase()] *)
Fixpoint toLowerCase (s : string) : string :=
  match s with
  | EmptyString => EmptyString
  | String c s' => String (lowerChar c) (toLowerCase s')
  end.

(** [s.startsWith(p)] *)
Definition startsWith (s p : string) : bool := String.prefix p s.

(** [s.endsWith(p)] *)
Definition endsWith (s p : string) : bool :=
  let ls := String.length s in
  let lp := String.length p in
  (lp <=? ls)%nat && String.eqb (String.substring (ls - lp) lp s) p.

(** [s.includes(p)] *)
Fixpoint includes (s p : string) : bool :=
  String.prefix p s ||
  match s with
  | EmptyString => false
  | String _ s' => includes s' p
  end.

(** [a ?? b] and [a || b] on optional strings. *)
Definition orElse {A : Type} (o : option A) (d : A) : A :=
  match o with Some a => a | None => d end.

Definition orIfEmpty (s d : string) : string :=
  if isEmpty s then d else s.

(** Functions that throw, promises that reject. *)
Inductive Result (A : Type) : Type :=
| Ok (a : A)
| Err (message : string).
Arguments Ok {A} a.
Arguments Err {A} message.

(** Sequencing: the first failure is propagated, as an exception or a
    rejected [await] is. *)
Definition bind {A B : Type} (r : Result A) (k : A -> Result B) : Result B :=
  match r with
  | Ok a => k a
  | Err e => Err e
  end.

Notation "x <- r ;; k" := (bind r (fun x => k))
  (at level 61, r at next level, right associativity).

(** ** Types shared by [PrintPreview.tsx] and [index.ts] *)

(** [type CommandAction = "print" | "download"] *)
Inductive CommandAction : Type := Print | Download.

Definition actionName (a : CommandAction) : string :=
  match a with Print => "print" | Download => "download" end.

(** [interface CommandRequest] *)
Record CommandRequest : Type := mkCommandRequest {
  cmd_id : string;
  cmd_action : CommandAction;
  cmd_raw : string
}.

Inductive CommandStatus : Type := Completed | Error.

(** [interface CommandResult] *)
Record CommandResult : Type := mkCommandResult {
  res_id : string;
  res_action : CommandAction;
  res_status : CommandStatus;
  res_message : option string
}.

(** The [status] of a [PdfOutputUpdate]. *)
Inductive PdfOutputStatus : Type :=
  StIdle | StGenerating | StReady | StError.

(** [interface PdfOutputUpdate] *)
Record PdfOutputUpdate : Type := mkPdfOutputUpdate {
  upd_status : PdfOutputStatus;
  upd_base64 : option string;
  upd_fileName : option string;
  upd_message : option string
}.

(** ** The PDF document under construction ([pdf-lib]) *)

(** An [HTMLCanvasElement] as far as the pipeline reads it: its pixel size. *)
Record Canvas : Type := mkCanvas {
  canvas_width : Z;
  canvas_height : Z
}.

(** The embedded image returned by [pdfDoc.embedPng]. *)
Record PngImage : Type := mkPngImage {
  png_width : Z;
  png_height : Z
}.

(** One [page.drawImage(png, { x, y, width, height })]. In [pdf-lib] the
    origin of a page is its lower left corner and [y] grows upwards;
    [(x, y)] is the lower left corner of the drawn image. *)
Record DrawImage : Type := mkDrawImage {
  img_png : PngImage;
  img_x : Q;
  img_y : Q;
  img_width : Q;
  img_height : Q
}.

(** A page made by [pdfDoc.addPage([w, h])] and what was drawn on it. *)
Record PdfPage : Type := mkPdfPage {
  page_width : Q;
  page_height : Q;
  page_images : list DrawImage
}.

Record PdfDocument : Type := mkPdfDocument {
  doc_title : string;
  doc_pages : list PdfPage
}.

(** [PDFDocument.create()] followed by [setTitle]. *)
Definition createDocument (title : string) : PdfDocument :=
  mkPdfDocument title [].

(** [pdfDoc.addPage(...)] then [page.drawImage(...)] on the new page. *)
Definition addPageWithImage (d : PdfDocument) (p : PdfPage) : PdfDocument :=
  mkPdfDocument (doc_title d) (doc_pages d ++ [p]).

(** A4 page size in points and the half inch margin. *)
Definition pageWidth : Q := 59528 # 100.
Definition pageHeight : Q := 84189 # 100.
Definition margin : Q := 36 # 1.
Definition availableWidth : Q := pageWidth - margin * (2 # 1).
Definition availableHeight : Q := pageHeight - margin * (2 # 1).

(** Lower and upper edge of a drawn image, and its left and right edge. *)
Definition imageBottom (i : DrawImage) : Q := img_y i.
Definition imageTop (i : DrawImage) : Q := img_y i + img_height i.
Definition imageLeft (i : DrawImage) : Q := img_x i.
Definition imageRight (i : DrawImage) : Q := img_x i + img_width i.

Section Placement.

(** [pdfDoc.embedPng(pngBytes)] of the PNG encoding of a canvas; it throws
    on bytes that are no PNG image. *)
Variable embedPng : Canvas -> Result PngImage.

(** The page drawn by [addCanvasAsSinglePage] for an embedded image. A
    division by zero, which is infinite in JavaScript, is zero in [Q]: the
    properties below are stated for images of positive width (and, here,
    height), where the two agree. *)
Definition singlePage (png : PngImage) : PdfPage :=
  let scale := Qmin (availableWidth / inject_Z (png_width png))
                    (availableHeight / inject_Z (png_height png)) in
  let scaledWidth := inject_Z (png_width png) * scale in
  let scaledHeight := inject_Z (png_height png) * scale in
  let x := margin + (availableWidth - scaledWidth) / (2 # 1) in
  let y := pageHeight - margin - scaledHeight in
  mkPdfPage pageWidth pageHeight [mkDrawImage png x y scaledWidth scaledHeight].

(** [addCanvasAsSinglePage] *)
Definition addCanvasAsSinglePage (canvas : Canvas) (pdfDoc : PdfDocument)
  : Result PdfDocument :=
  png <- embedPng canvas ;;
  Ok (addPageWithImage pdfDoc (singlePage png)).

(** The page drawn by one turn of the loop of [addCanvasAsSlicedPages]. *)
Definition slicePage (png : PngImage) (scaledWidth scaledHeight offsetY : Q)
  : PdfPage :=
  let y := pageHeight - margin - scaledHeight + offsetY in
  mkPdfPage pageWidth pageHeight
    [mkDrawImage png margin y scaledWidth scaledHeight].

(** Number of turns left in the loop [while (offsetY < scaledHeight)]. *)
Definition turnsLeft (scaledHeight offsetY : Q) : nat :=
  Z.to_nat (Qceiling ((scaledHeight - offsetY) / availableHeight)).

(** The [while] loop of [addCanvasAsSlicedPages]. *)
Equations? sliceLoop (png : PngImage) (scaledWidth scaledHeight : Q)
  (offsetY : Q) (pdfDoc : PdfDocument) : PdfDocument
  by wf (turnsLeft scaledHeight offsetY) lt :=
sliceLoop png scaledWidth scaledHeight offsetY pdfDoc
  with Qlt_le_dec offsetY scaledHeight := {
  | left _ =>
      sliceLoop png scaledWidth scaledHeight (offsetY + availableHeight)
        (addPageWithImage pdfDoc
           (slicePage png scaledWidth scaledHeight offsetY))
  | right _ => pdfDoc
  }.
Proof.
  unfold turnsLeft.
  assert (HA : 0 < availableHeight) by reflexivity.
  set (r := (scaledHeight - offsetY) / availableHeight).
  assert (E : (scaledHeight - (offsetY + availableHeight)) / availableHeight
              == r - 1).
  { unfold r. field. intro H0. rewrite H0 in HA. discriminate. }
  rewrite E.
  assert (Hr : 0 < r).
  { unfold r. apply Qlt_shift_div_l; [exact HA|]. rewrite Qmult_0_l.
    unfold Qminus. rewrite <- (Qplus_opp_r offsetY).
    apply Qplus_lt_l. exact q. }
  pose proof (Qle_ceiling r) as Hc.
  pose proof (Qceiling_lt (r - 1)) as Hc'.
  assert (Hlt : (Qceiling (r - 1) < Qceiling r)%Z).
  { rewrite Zlt_Qlt.
    apply Qplus_lt_l with (z := - (1)).
    eapply Qlt_le_trans; [|apply Qplus_le_l; exact Hc].
    eapply Qle_lt_trans; [|exact Hc'].
    unfold Z.sub. rewrite inject_Z_plus, inject_Z_opp. apply Qle_refl. }
  assert (Hpos : (0 < Qceiling r)%Z).
  { rewrite Zlt_Qlt. eapply Qlt_le_trans; [exact Hr | exact Hc]. }
  lia.
Defined.

(** [addCanvasAsSlicedPages] *)
Definition addCanvasAsSlicedPages (canvas : Canvas) (pdfDoc : PdfDocument)
  : Result PdfDocument :=
  png <- embedPng canvas ;;
  let scale := availableWidth / inject_Z (png_width png) in
  let scaledWidth := availableWidth in
  let scaledHeight := inject_Z (png_height png) * scale in
  Ok (sliceLoop png scaledWidth scaledHeight 0 pdfDoc).

End Placement.

(** ** The rendered document *)

(** A DOM node of the preview document: text, comment or element. Of the
    attributes of an element only [id] is read by the pipeline. *)
Inductive Node : Type :=
| TextNode (data : string)
| CommentNode (data : string)
| ElementNode (tag : string) (id : option string) (children : list Node).

(** [node.nodeType] *)
Definition nodeType (n : Node) : Z :=
  match n with
  | ElementNode _ _ _ => 1
  | TextNode _ => 3
  | CommentNode _ => 8
  end.

(** Concatenated data of the text nodes below a node. *)
Fixpoint descendantText (n : Node) : string :=
  match n with
  | TextNode d => d
  | CommentNode _ => EmptyString
  | ElementNode _ _ cs =>
      fold_right (fun c acc => (descendantText c ++ acc)%string) EmptyString cs
  end.

(** [node.textContent] *)
Definition textContent (n : Node) : string :=
  match n with
  | CommentNode d => d
  | _ => descendantText n
  end.

(** The document in document order: one token per start tag, end tag,
    text node and comment. A boundary point of a range is a position in
    this sequence, and an element is identified by the position of its
    start tag. *)
Inductive Token : Type :=
| TOpen (tag : string) (id : option string)
| TClose (tag : string) (id : option string)
| TText (data : string)
| TComment (data : string).

Fixpoint flattenNode (n : Node) : list Token :=
  match n with
  | TextNode d => [TText d]
  | CommentNode d => [TComment d]
  | ElementNode t i cs => TOpen t i :: flat_map flattenNode cs ++ [TClose t i]
  end.

Definition flatten (ns : list Node) : list Token := flat_map flattenNode ns.

(** Induction on nodes with the hypothesis for all children. *)
Fixpoint Node_forall_ind (P : Node -> Prop)
  (Htext : forall d, P (TextNode d))
  (Hcomment : forall d, P (CommentNode d))
  (Helem : forall t i cs, Forall P cs -> P (ElementNode t i cs))
  (n : Node) : P n :=
  match n with
  | TextNode d => Htext d
  | CommentNode d => Hcomment d
  | ElementNode t i cs =>
      Helem t i cs
        ((fix all (l : list Node) : Forall P l :=
            match l with
            | [] => Forall_nil P
            | c :: l' =>
                Forall_cons c (Node_forall_ind P Htext Hcomment Helem c) (all l')
            end) cs)
  end.

(** The selector [div[id='page'], div[id^='page-']]. *)
Definition matchesPageMarker (tag : string) (id : option string) : bool :=
  (tag =? "div") &&
  match id with
  | Some i => (i =? "page") || startsWith i "page-"
  | None => false
  end.

Fixpoint markerPositions (ts : list Token) (pos : nat) : list nat :=
  match ts with
  | [] => []
  | TOpen t i :: rest =>
      if matchesPageMarker t i then pos :: markerPositions rest (S pos)
      else markerPositions rest (S pos)
  | _ :: rest => markerPositions rest (S pos)
  end.

(** [Array.from(doc.querySelectorAll("div[id='page'], div[id^='page-']"))]
    for a document whose body holds [body]: the matching elements in
    document order. The head written by [buildSrcDoc] holds no [div]. *)
Definition pageMarkerDivs (body : list Node) : list nat :=
  markerPositions (flatten body) 0.

(** A DOM [Range] over the body: its two boundary points. *)
Record Range : Type := mkRange {
  range_start : nat;
  range_end : nat
}.

(** [doc.createRange()]: collapsed at the start of the document, which
    precedes every boundary point inside the body. *)
Definition createRange : Range := mkRange 0 0.

(** Setting the start of a range after its end moves the end along, and
    setting the end before the start moves the start along. *)
Definition setStart (r : Range) (p : nat) : Range :=
  if (range_end r <? p)%nat then mkRange p p else mkRange p (range_end r).

Definition setEnd (r : Range) (p : nat) : Range :=
  if (p <? range_start r)%nat then mkRange p p else mkRange (range_start r) p.

(** [range.setStartBefore(el)] and [range.setEndBefore(el)]. *)
Definition setStartBefore (r : Range) (el : nat) : Range := setStart r el.
Definition setEndBefore (r : Range) (el : nat) : Range := setEnd r el.

(** The tokens between the boundary points of a range. *)
Definition rangeTokens (ts : list Token) (r : Range) : list Token :=
  firstn (range_end r - range_start r) (skipn (range_start r) ts).

(** Rebuilding nodes from a run of tokens. An end tag without its start
    tag belongs to an element that the range contains partially at its
    start: its clone wraps what was collected so far. A start tag without
    its end tag belongs to an element contained partially at the end of the
    range: its clone is closed when the tokens run out. *)
Definition Frame : Type := (string * option string * list Node)%type.

Fixpoint closeFrames (stack : list Frame) (acc : list Node) : list Node :=
  match stack with
  | [] => acc
  | (t, i, outer) :: rest => closeFrames rest (outer ++ [ElementNode t i acc])
  end.

Fixpoint rebuild (ts : list Token) (stack : list Frame) (acc : list Node)
  : list Node :=
  match ts with
  | [] => closeFrames stack acc
  | TText d :: rest => rebuild rest stack (acc ++ [TextNode d])
  | TComment d :: rest => rebuild rest stack (acc ++ [CommentNode d])
  | TOpen t i :: rest => rebuild rest ((t, i, acc) :: stack) []
  | TClose t i :: rest =>
      match stack with
      | (t', i', outer) :: stack' =>
          rebuild rest stack' (outer ++ [ElementNode t' i' acc])
      | [] => rebuild rest [] [ElementNode t i acc]
      end
  end.

(** [Array.from(range.cloneContents().childNodes)] *)
Definition cloneContents (body : list Node) (r : Range) : list Node :=
  rebuild (rangeTokens (flatten body) r) [] [].

(** Whether a node is an element, and whether a list holds one. *)
Definition isElement (n : Node) : bool :=
  match n with ElementNode _ _ _ => true | _ => false end.

Definition hasElement (ns : list Node) : bool := existsb isElement ns.

Definition isOpen (tok : Token) : bool :=
  match tok with TOpen _ _ => true | _ => false end.

(** [isIgnorableNode] *)
Definition isIgnorableNode (node : Node) : bool :=
  (nodeType node =? 3)%Z && isEmpty (trim (orIfEmpty (textContent node) "")).

(** A text node of white space only, in the words of the description of
    the segments that are skipped. *)
Definition isWhitespaceOnlyText (node : Node) : bool :=
  match node with
  | TextNode data => isBlank data
  | _ => false
  end.

(** The off-screen [div] that receives the clones of a segment. *)
Definition segmentHost (nodes : list Node) : Node :=
  ElementNode "div" None nodes.

(** [doc.documentElement] *)
Definition documentElement (body : list Node) : Node :=
  ElementNode "html" None [ElementNode "head" None []; ElementNode "body" None body].

(** ** The pagination pipeline of [handleDownload] *)

Section Pipeline.

(** [html2canvas(element, options)]: the capture of an element; the
    promise rejects when the capture fails. *)
Variable html2canvas : Node -> Result Canvas.

Variable embedPng : Canvas -> Result PngImage.

(** [pdfDoc.save()], the copy into a [Blob] and [blobToDataUrl]: the data
    URL of the finished document; any of the three may fail. *)
Variable saveAsDataUrl : PdfDocument -> Result string.

(** [renderNodeSegmentAsCanvas]; [None] is the [null] result. The host is
    appended to the body before the capture and removed in the [finally]
    block, so the body is the same before and after the call. *)
Definition renderNodeSegmentAsCanvas (nodes : list Node)
  : Result (option Canvas) :=
  let significant := filter (fun node => negb (isIgnorableNode node)) nodes in
  if (List.length significant =? 0)%nat then Ok None
  else
    canvas <- html2canvas (segmentHost nodes) ;;
    Ok (Some canvas).

(** [renderRangeSegmentAsCanvas] *)
Definition renderRangeSegmentAsCanvas (body : list Node) (range : Range)
  : Result (option Canvas) :=
  let nodes := cloneContents body range in
  renderNodeSegmentAsCanvas nodes.

(** The range built by the loop over the page markers at [index]:
    [pageMarkerDivs[index]] is [nth index markers 0], the end of the body
    is the boundary point [(doc.body, doc.body.childNodes.length)]. *)
Definition segmentRange (markers : list nat) (bodyEnd : nat) (index : nat)
  : Range :=
  let range := createRange in
  let range :=
    if (index =? 0)%nat then setStart range 0
    else setStartBefore range (nth index markers 0%nat) in
  if (index + 1 <? List.length markers)%nat
  then setEndBefore range (nth (index + 1) markers 0%nat)
  else setEnd range bodyEnd.

(** What the loop does with the nodes of one segment: [continue] on a
    [null] canvas, one page otherwise. *)
Definition addSegment (nodes : list Node) (pdfDoc : PdfDocument)
  : Result PdfDocument :=
  canvas <- renderNodeSegmentAsCanvas nodes ;;
  match canvas with
  | None => Ok pdfDoc
  | Some c => addCanvasAsSinglePage embedPng c pdfDoc
  end.

(** The [for] loop over the page markers, from the given indices on. *)
Fixpoint markerLoop (body : list Node) (markers : list nat)
  (indices : list nat) (pdfDoc : PdfDocument) : Result PdfDocument :=
  match indices with
  | [] => Ok pdfDoc
  | index :: rest =>
      let range := segmentRange markers (List.length (flatten body)) index in
      pdfDoc' <- addSegment (cloneContents body range) pdfDoc ;;
      markerLoop body markers rest pdfDoc'
  end.

(** The ranges of all turns of the loop. *)
Definition segmentRanges (body : list Node) : list Range :=
  let markers := pageMarkerDivs body in
  map (segmentRange markers (List.length (flatten body)))
      (seq 0 (List.length markers)).

(** The branch on [hasPageMarkers]. *)
Definition paginate (body : list Node) (pdfDoc : PdfDocument)
  : Result PdfDocument :=
  let markers := pageMarkerDivs body in
  let hasPageMarkers := (0 <? List.length markers)%nat in
  if hasPageMarkers then
    markerLoop body markers (seq 0 (List.length markers)) pdfDoc
  else
    canvas <- html2canvas (documentElement body) ;;
    addCanvasAsSlicedPages embedPng canvas pdfDoc.

(** The name given to the saved file. *)
Definition downloadName (downloadFileName : string) : string :=
  let name := trim (orIfEmpty downloadFileName "document.pdf") in
  if endsWith (toLowerCase name) ".pdf" then name else (name ++ ".pdf")%string.

(** The body of the [try] block of [handleDownload]: the data URL and the
    file name handed to [onPdfOutput] and to the save link. *)
Definition generatePdf (title downloadFileName : string) (body : list Node)
  : Result (string * string) :=
  let pdfDoc := createDocument (orIfEmpty title "Document") in
  pdfDoc <- paginate body pdfDoc ;;
  pdfBase64 <- saveAsDataUrl pdfDoc ;;
  Ok (pdfBase64, downloadName downloadFileName).

End Pipeline.

(** ** [handlePrint] and [handleDownload] *)

(** The messages of the errors the handlers throw. *)
Definition errNoHtml : string := "No HTML content is available.".
Definition errBusy : string := "A download is already in progress.".
Definition errNotReady : string := "Preview is not ready yet.".
Definition errNoIframe : string := "Preview iframe is not available.".

(** What the handlers do to the outside, in order. *)
Inductive UiEvent : Type :=
| OnBeforePrint
| WindowPrint
| OnBeforeDownload
| OnPdfOutput (update : PdfOutputUpdate)
| SetDownloading (b : bool)
| SaveFile (fileName : string)
| ScheduleRevoke (ms : Z).

(** The two refs of the download guard. *)
Record DownloadRefs : Type := mkDownloadRefs {
  downloadInFlightRef : bool;
  lastDownloadStartedAtRef : Z
}.

(** [handlePrint]; [windowAvailable] is [iframeRef.current?.contentWindow]. *)
Definition handlePrint (ready windowAvailable : bool)
  : list UiEvent * Result unit :=
  if negb ready then ([], Err errNotReady)
  else if negb windowAvailable then ([], Err errNoIframe)
  else ([OnBeforePrint; WindowPrint], Ok tt).

(** How [handleDownload] leaves its synchronous part: by a [throw], by the
    plain [return] of the debounce, or by entering the [try] block. *)
Inductive DownloadEntry : Type :=
| EntryThrow (message : string)
| EntryReturn
| EntryProceed.

(** [handleDownload] up to the [try] block. [ready] and [downloading] are
    the state values the callback closed over, [now] is [Date.now()],
    [iframeAvailable] tells whether the document and the window of the
    iframe are there. *)
Definition handleDownload_enter (ready downloading : bool)
  (refs : DownloadRefs) (now : Z) (iframeAvailable : bool)
  : DownloadRefs * list UiEvent * DownloadEntry :=
  if negb ready then (refs, [], EntryThrow errNotReady)
  else if downloading || downloadInFlightRef refs
  then (refs, [], EntryThrow errBusy)
  else if (now - lastDownloadStartedAtRef refs <? 1500)%Z
  then (refs, [], EntryReturn)
  else
    let refs := mkDownloadRefs true now in
    if negb iframeAvailable
    then (mkDownloadRefs false (lastDownloadStartedAtRef refs), [],
          EntryThrow errNoIframe)
    else (refs,
          [OnBeforeDownload;
           OnPdfOutput (mkPdfOutputUpdate StGenerating None None None);
           SetDownloading true],
          EntryProceed).

(** The end of the [try] block with its [catch] and [finally]. *)
Definition handleDownload_leave (refs : DownloadRefs)
  (generated : Result (string * string))
  : DownloadRefs * list UiEvent * Result unit :=
  let refs' := mkDownloadRefs false (lastDownloadStartedAtRef refs) in
  match generated with
  | Ok (pdfBase64, name) =>
      (refs',
       [OnPdfOutput (mkPdfOutputUpdate StReady (Some pdfBase64) (Some name) None);
        SaveFile name; ScheduleRevoke 10000; SetDownloading false],
       Ok tt)
  | Err message =>
      (refs',
       [OnPdfOutput (mkPdfOutputUpdate StError None None (Some message));
        SetDownloading false],
       Err message)
  end.

(** One whole call of [handleDownload], from the invocation to the
    settlement of its promise. *)
Definition handleDownload (ready downloading : bool) (refs : DownloadRefs)
  (now : Z) (iframeAvailable : bool) (generated : Result (string * string))
  : DownloadRefs * list UiEvent * Result unit :=
  match handleDownload_enter ready downloading refs now iframeAvailable with
  | (refs1, events1, EntryThrow message) => (refs1, events1, Err message)
  | (refs1, events1, EntryReturn) => (refs1, events1, Ok tt)
  | (refs1, events1, EntryProceed) =>
      let '(refs2, events2, outcome) := handleDownload_leave refs1 generated in
      (refs2, events1 ++ events2, outcome)
  end.

(** [handleDownload] with the [try] block it runs. *)
Definition download (html2canvas : Node -> Result Canvas)
  (embedPng : Canvas -> Result PngImage)
  (saveAsDataUrl : PdfDocument -> Result string)
  (title downloadFileName : string) (body : list Node)
  (ready downloading : bool) (refs : DownloadRefs) (now : Z)
  : DownloadRefs * list UiEvent * Result unit :=
  handleDownload ready downloading refs now true
    (generatePdf html2canvas embedPng saveAsDataUrl title downloadFileName body).

(** The invocations after which the [try] block runs: the export attempts. *)
Definition proceeds (e : DownloadEntry) : bool :=
  match e with EntryProceed => true | _ => false end.

Definition entryOf (x : DownloadRefs * list UiEvent * DownloadEntry)
  : DownloadEntry := snd x.

Definition eventsOf {A : Type} (x : DownloadRefs * list UiEvent * A)
  : list UiEvent := snd (fst x).

Definition refsOf {A : Type} (x : DownloadRefs * list UiEvent * A)
  : DownloadRefs := fst (fst x).

(** ** The command effects of [PrintPreview] *)

(** The state of the component: the [html] prop, the three [useState]
    values, the refs, the [try] block of [handleDownload] that is
    suspended at an [await], if any, with the command whose [execute]
    awaits it ([None] for a click on the button), and the calls of
    [execute] whose [await handleDownload()] has settled and whose rest has
    not run yet, oldest first, each with the outcome it was resumed
    with. *)
Record PreviewState : Type := mkPreviewState {
  html : string;
  ready : bool;
  downloading : bool;
  pendingCommand : option CommandRequest;
  lastQueuedCommandRawRef : string;
  executingCommandRawRef : string;
  completedCommandRawRef : string;
  downloadRefs : DownloadRefs;
  suspended : option (option CommandRequest);
  resuming : list (CommandRequest * Result unit)
}.

Definition initialPreview (html : string) : PreviewState :=
  mkPreviewState html false false None EmptyString EmptyString EmptyString
    (mkDownloadRefs false 0) None [].

(** What the component does to the outside: results handed to
    [onCommandResult], calls of a handler made by [execute] for a command,
    and what the handlers themselves do. *)
Inductive PreviewOutput : Type :=
| CommandResultOut (command : CommandRequest) (result : CommandResult)
| Executed (command : CommandRequest)
| Ui (e : UiEvent).

Definition commandError (c : CommandRequest) (message : string)
  : CommandResult :=
  mkCommandResult (cmd_id c) (cmd_action c) Error (Some message).

Definition commandCompleted (c : CommandRequest) : CommandResult :=
  mkCommandResult (cmd_id c) (cmd_action c) Completed None.

(** The result [execute] reports for the outcome of the handler. *)
Definition commandOutcome (c : CommandRequest) (r : Result unit)
  : CommandResult :=
  match r with
  | Ok _ => commandCompleted c
  | Err message => commandError c message
  end.

Definition setReady (st : PreviewState) (b : bool) : PreviewState :=
  mkPreviewState (html st) b (downloading st) (pendingCommand st)
    (lastQueuedCommandRawRef st) (executingCommandRawRef st)
    (completedCommandRawRef st) (downloadRefs st) (suspended st)
    (resuming st).

Definition setPendingCommand (st : PreviewState) (c : option CommandRequest)
  : PreviewState :=
  mkPreviewState (html st) (ready st) (downloading st) c
    (lastQueuedCommandRawRef st) (executingCommandRawRef st)
    (completedCommandRawRef st) (downloadRefs st) (suspended st)
    (resuming st).

(** The effect on [props.commandRequest]. *)
Definition queueCommand (st : PreviewState) (command : option CommandRequest)
  : PreviewState :=
  match command with
  | None => st
  | Some c =>
      if isBlank (cmd_raw c) then st
      else if cmd_raw c =? lastQueuedCommandRawRef st then st
      else
        mkPreviewState (html st) (ready st) (downloading st) (Some c)
          (cmd_raw c) (executingCommandRawRef st)
          (completedCommandRawRef st) (downloadRefs st) (suspended st)
          (resuming st)
  end.

(** The [finally] block of [execute]. *)
Definition finishCommand (st : PreviewState) (c : CommandRequest)
  : PreviewState :=
  mkPreviewState (html st) (ready st) (downloading st) None
    (lastQueuedCommandRawRef st) (cmd_raw c) (cmd_raw c)
    (downloadRefs st) (suspended st) (resuming st).

(** [execute] for a pending command, after
    [executingCommandRawRef.current = pendingCommand.raw]. A download that
    enters its [try] block stays suspended; every other call settles at
    once. *)
Definition execute (st : PreviewState) (c : CommandRequest)
  (iframeAvailable : bool) (now : Z) : PreviewState * list PreviewOutput :=
  match cmd_action c with
  | Print =>
      let '(events, outcome) := handlePrint (ready st) iframeAvailable in
      (finishCommand st c,
       Executed c :: map Ui events ++ [CommandResultOut c (commandOutcome c outcome)])
  | Download =>
      match handleDownload_enter (ready st) (downloading st)
              (downloadRefs st) now iframeAvailable with
      | (refs, events, EntryProceed) =>
          (mkPreviewState (html st) (ready st) true (pendingCommand st)
             (lastQueuedCommandRawRef st) (executingCommandRawRef st)
             (completedCommandRawRef st) refs (Some (Some c)) (resuming st),
           Executed c :: map Ui events)
      | (refs, events, EntryReturn) =>
          (finishCommand
             (mkPreviewState (html st) (ready st) (downloading st)
                (pendingCommand st) (lastQueuedCommandRawRef st)
                (executingCommandRawRef st) (completedCommandRawRef st)
                refs (suspended st) (resuming st)) c,
           Executed c :: map Ui events ++ [CommandResultOut c (commandCompleted c)])
      | (refs, events, EntryThrow message) =>
          (finishCommand
             (mkPreviewState (html st) (ready st) (downloading st)
                (pendingCommand st) (lastQueuedCommandRawRef st)
                (executingCommandRawRef st) (completedCommandRawRef st)
                refs (suspended st) (resuming st)) c,
           Executed c :: map Ui events ++ [CommandResultOut c (commandError c message)])
      end
  end.

(** The effect on [pendingCommand], [ready], [downloading] and the
    handlers. *)
Definition executeEffect (st : PreviewState) (iframeAvailable : bool)
  (now : Z) : PreviewState * list PreviewOutput :=
  match pendingCommand st with
  | None => (st, [])
  | Some c =>
      if executingCommandRawRef st =? cmd_raw c then (st, [])
      else if completedCommandRawRef st =? cmd_raw c
      then (setPendingCommand st None, [])
      else if isBlank (html st)
      then (setPendingCommand st None,
            [CommandResultOut c (commandError c errNoHtml)])
      else if negb (ready st) || downloading st then (st, [])
      else
        let st' :=
          mkPreviewState (html st) (ready st) (downloading st)
            (pendingCommand st) (lastQueuedCommandRawRef st) (cmd_raw c)
            (completedCommandRawRef st) (downloadRefs st) (suspended st)
            (resuming st) in
        execute st' c iframeAvailable now
  end.

(** The settlement of the suspended [try] block: the end of the block or
    its [catch], and the [finally] of [handleDownload]. The promise of
    [handleDownload] is settled by this; the call of [execute] that awaits
    it, if the export was started for a command, is resumed later, in a
    continuation of its own, and waits for that in [resuming]. *)
Definition settleDownload (st : PreviewState)
  (generated : Result (string * string)) : PreviewState * list PreviewOutput :=
  match suspended st with
  | None => (st, [])
  | Some owner =>
      let '(refs, events, outcome) :=
        handleDownload_leave (downloadRefs st) generated in
      (mkPreviewState (html st) (ready st) false (pendingCommand st)
         (lastQueuedCommandRawRef st) (executingCommandRawRef st)
         (completedCommandRawRef st) refs None
         (resuming st
          ++ match owner with
             | Some c => [(c, outcome)]
             | None => []
             end),
       map Ui events)
  end.

(** The rest of [execute] after [await handleDownload()], for the call
    that has waited longest: the result for [onCommandResult], then the
    [finally] block. *)
Definition resumeExecute (st : PreviewState)
  : PreviewState * list PreviewOutput :=
  match resuming st with
  | [] => (st, [])
  | (c, outcome) :: rest =>
      (finishCommand
         (mkPreviewState (html st) (ready st) (downloading st)
            (pendingCommand st) (lastQueuedCommandRawRef st)
            (executingCommandRawRef st) (completedCommandRawRef st)
            (downloadRefs st) (suspended st) rest) c,
       [CommandResultOut c (commandOutcome c outcome)])
  end.

(** [disabled] of the two buttons. *)
Definition buttonsDisabled (st : PreviewState) : bool :=
  isBlank (html st) || negb (ready st) || downloading st.

(** [onClick] of the print button. *)
Definition clickPrint (st : PreviewState) (windowAvailable : bool)
  : PreviewState * list PreviewOutput :=
  if buttonsDisabled st then (st, [])
  else (st, map Ui (fst (handlePrint (ready st) windowAvailable))).

(** [onClick] of the download button. *)
Definition clickDownload (st : PreviewState) (iframeAvailable : bool)
  (now : Z) : PreviewState * list PreviewOutput :=
  if buttonsDisabled st then (st, [])
  else
    match handleDownload_enter (ready st) (downloading st)
            (downloadRefs st) now iframeAvailable with
    | (refs, events, EntryProceed) =>
        (mkPreviewState (html st) (ready st) true (pendingCommand st)
           (lastQueuedCommandRawRef st) (executingCommandRawRef st)
           (completedCommandRawRef st) refs (Some None) (resuming st),
         map Ui events)
    | (refs, events, _) =>
        (mkPreviewState (html st) (ready st) (downloading st)
           (pendingCommand st) (lastQueuedCommandRawRef st)
           (executingCommandRawRef st) (completedCommandRawRef st)
           refs (suspended st) (resuming st),
         map Ui events)
    end.

(** What happens to the component. A new [html] prop is one event, the
    [setReady(false)] of the effect on [srcDoc] another: the effect runs
    after the commit, so the render in which [html] changed, its handlers
    and its effects still hold the old [ready]. The settlement of
    [handleDownload] and the rest of the [execute] that awaited it are two
    events as well: they are two continuations, and an effect may run
    between them. [PendingClearLands] is a [setPendingCommand(null)] that
    lands late: the state updates of the effects of one commit are applied
    in the order of the calls, so when the queueing effect and the
    executing effect run in the same commit, the update of the second
    replaces the command queued by the first. *)
Inductive PreviewEvent : Type :=
| HtmlChanged (h : string)
| SrcDocChanged
| IframeLoaded
| CommandRequestChanged (command : option CommandRequest)
| ExecuteEffectRuns (iframeAvailable : bool) (now : Z)
| DownloadSettles (generated : Result (string * string))
| PrintClicked (windowAvailable : bool)
| DownloadClicked (iframeAvailable : bool) (now : Z)
| PendingClearLands
| ExecuteResumes.

(** A new [html] prop. *)
Definition changeHtml (st : PreviewState) (h : string) : PreviewState :=
  mkPreviewState h (ready st) (downloading st) (pendingCommand st)
    (lastQueuedCommandRawRef st) (executingCommandRawRef st)
    (completedCommandRawRef st) (downloadRefs st) (suspended st)
    (resuming st).

Definition previewStep (st : PreviewState) (ev : PreviewEvent)
  : PreviewState * list PreviewOutput :=
  match ev with
  | HtmlChanged h => (changeHtml st h, [])
  | SrcDocChanged => (setReady st false, [])
  | IframeLoaded => (setReady st true, [])
  | CommandRequestChanged command => (queueCommand st command, [])
  | ExecuteEffectRuns iframeAvailable now => executeEffect st iframeAvailable now
  | DownloadSettles generated => settleDownload st generated
  | PrintClicked windowAvailable => clickPrint st windowAvailable
  | DownloadClicked iframeAvailable now => clickDownload st iframeAvailable now
  | PendingClearLands => (setPendingCommand st None, [])
  | ExecuteResumes => resumeExecute st
  end.

Fixpoint previewRun (st : PreviewState) (evs : list PreviewEvent)
  : PreviewState * list PreviewOutput :=
  match evs with
  | [] => (st, [])
  | ev :: rest =>
      let '(st1, out1) := previewStep st ev in
      let '(st2, out2) := previewRun st1 rest in
      (st2, out1 ++ out2)
  end.

(** Results and executions of the commands with a given [raw]. *)
Definition isResultOf (raw : string) (o : PreviewOutput) : bool :=
  match o with
  | CommandResultOut c _ => cmd_raw c =? raw
  | _ => false
  end.

Definition isExecutionOf (raw : string) (o : PreviewOutput) : bool :=
  match o with
  | Executed c => cmd_raw c =? raw
  | _ => false
  end.

Definition acknowledgments (raw : string) (out : list PreviewOutput) : nat :=
  List.length (filter (isResultOf raw) out).

Definition executions (raw : string) (out : list PreviewOutput) : nat :=
  List.length (filter (isExecutionOf raw) out).

(** ** [index.ts]: the action command *)

(** The values [JSON.parse] returns. The members of an object are kept in
    the order of the text; a later member replaces an earlier one of the
    same name. A number is kept as its lexeme. *)
Inductive JsonValue : Type :=
| JNull
| JBool (b : bool)
| JNumber (lexeme : string)
| JString (s : string)
| JArray (items : list JsonValue)
| JObject (members : list (string * JsonValue)).

(** [typeof v] *)
Definition typeOf (v : JsonValue) : string :=
  match v with
  | JBool _ => "boolean"
  | JNumber _ => "number"
  | JString _ => "string"
  | JNull | JArray _ | JObject _ => "object"
  end.

(** [Array.isArray(v)] *)
Definition isArray (v : JsonValue) : bool :=
  match v with JArray _ => true | _ => false end.

(** [!v] for a value whose [typeof] is ["object"]: only [null] is falsy.
    The falsy numbers, strings and booleans fail the [typeof] test that
    follows in the same condition. *)
Definition isNull (v : JsonValue) : bool :=
  match v with JNull => true | _ => false end.

(** [candidate.name] for an object made by [JSON.parse]; [None] is
    [undefined]. *)
Fixpoint getMember (name : string) (members : list (string * JsonValue))
  : option JsonValue :=
  match members with
  | [] => None
  | (k, v) :: rest =>
      match getMember name rest with
      | Some v' => Some v'
      | None => if k =? name then Some v else None
      end
  end.

(** [interface ParseCommandResult] *)
Record ParseCommandResult : Type := mkParseCommandResult {
  command : option CommandRequest;
  error : option string
}.

Definition dquote : string := String (ascii_of_nat 34) EmptyString.

Definition errInvalidJson : string := "Invalid actionCommand JSON.".
Definition errNotObject : string := "actionCommand must be a JSON object.".
Definition errIdRequired : string := "actionCommand.id is required.".
Definition errAction : string :=
  ("actionCommand.action must be " ++ dquote ++ "print" ++ dquote ++ " or "
   ++ dquote ++ "download" ++ dquote ++ ".")%string.

Section ActionCommand.

(** [JSON.parse(raw)]; [None] when it throws. *)
Variable JSON_parse : string -> option JsonValue.

(** [typeof v === "string" ? v.trim() : ""] *)
Definition trimmedString (v : option JsonValue) : string :=
  match v with
  | Some (JString s) => trim s
  | _ => EmptyString
  end.

(** [parseActionCommand] *)
Definition parseActionCommand (raw : string) : ParseCommandResult :=
  match JSON_parse raw with
  | None => mkParseCommandResult None (Some errInvalidJson)
  | Some parsed =>
      if isNull parsed || negb (typeOf parsed =? "object") || isArray parsed
      then mkParseCommandResult None (Some errNotObject)
      else
        let candidate :=
          match parsed with JObject members => members | _ => [] end in
        let id := trimmedString (getMember "id" candidate) in
        let actionRaw :=
          toLowerCase (trimmedString (getMember "action" candidate)) in
        if isEmpty id then mkParseCommandResult None (Some errIdRequired)
        else if actionRaw =? "print"
        then mkParseCommandResult (Some (mkCommandRequest id Print raw)) None
        else if actionRaw =? "download"
        then mkParseCommandResult (Some (mkCommandRequest id Download raw)) None
        else mkParseCommandResult None (Some errAction)
  end.

End ActionCommand.

Section PayloadDescription.

Variable JSON_parse : string -> option JsonValue.


(** What is wrong with a payload, with the message reported for it: no
    JSON text; no object (null, a boolean, a number, a string, an array);
    an [id] that is missing, no string, or empty once trimmed; an [action]
    that is missing, no string, or, trimmed and in lower case, neither
    ["print"] nor ["download"]. *)
Inductive PayloadDefect (raw : string) : string -> Prop :=
| DefectJson :
    JSON_parse raw = None ->
    PayloadDefect raw errInvalidJson
| DefectObject v :
    JSON_parse raw = Some v ->
    (forall members, v <> JObject members) ->
    PayloadDefect raw errNotObject
| DefectId members :
    JSON_parse raw = Some (JObject members) ->
    (forall s, getMember "id" members = Some (JString s) -> trim s = EmptyString) ->
    PayloadDefect raw errIdRequired
| DefectAction members id :
    JSON_parse raw = Some (JObject members) ->
    getMember "id" members = Some (JString id) ->
    trim id <> EmptyString ->
    (forall a, getMember "action" members = Some (JString a) ->
               toLowerCase (trim a) <> "print"
               /\ toLowerCase (trim a) <> "download") ->
    PayloadDefect raw errAction.

End PayloadDescription.

(** *** A JSON reader

    A reader for JSON texts over code units 0..255, used to run
    [parseActionCommand] on concrete payloads. Escapes [\uXXXX] above
    [\u00FF] have no code unit in this range and are refused. The
    properties of [parseActionCommand] below hold for every reader. *)

Definition isJsonSpace (c : ascii) : bool :=
  let n := nat_of_ascii c in
  (n =? 32)%nat || (n =? 9)%nat || (n =? 10)%nat || (n =? 13)%nat.

Fixpoint skipSpace (s : string) : string :=
  match s with
  | String c s' => if isJsonSpace c then skipSpace s' else s
  | EmptyString => EmptyString
  end.

Definition isDigit (c : ascii) : bool :=
  let n := nat_of_ascii c in ((48 <=? n) && (n <=? 57))%nat.

Definition hexValue (c : ascii) : option nat :=
  let n := nat_of_ascii c in
  if ((48 <=? n) && (n <=? 57))%nat then Some (n - 48)%nat
  else if ((65 <=? n) && (n <=? 70))%nat then Some (n - 55)%nat
  else if ((97 <=? n) && (n <=? 102))%nat then Some (n - 87)%nat
  else None.

Definition hex4 (a b c d : ascii) : option nat :=
  match hexValue a, hexValue b, hexValue c, hexValue d with
  | Some x, Some y, Some z, Some w => Some (((x * 16 + y) * 16 + z) * 16 + w)%nat
  | _, _, _, _ => None
  end.

Definition consTo (c : ascii) (r : option (string * string))
  : option (string * string) :=
  match r with
  | Some (t, rest) => Some (String c t, rest)
  | None => None
  end.

(** The characters of a string literal after its opening quote, and the
    text after its closing quote. *)
Fixpoint readStringBody (s : string) : option (string * string) :=
  match s with
  | EmptyString => None
  | String c r =>
      if (nat_of_ascii c =? 34)%nat then Some (EmptyString, r)
      else if (nat_of_ascii c =? 92)%nat then
        match r with
        | String e r1 =>
            match nat_of_ascii e with
            | 34%nat => consTo e (readStringBody r1)
            | 92%nat => consTo e (readStringBody r1)
            | 47%nat => consTo e (readStringBody r1)
            | 98%nat => consTo (ascii_of_nat 8) (readStringBody r1)
            | 102%nat => consTo (ascii_of_nat 12) (readStringBody r1)
            | 110%nat => consTo (ascii_of_nat 10) (readStringBody r1)
            | 114%nat => consTo (ascii_of_nat 13) (readStringBody r1)
            | 116%nat => consTo (ascii_of_nat 9) (readStringBody r1)
            | 117%nat =>
                match r1 with
                | String h1 (String h2 (String h3 (String h4 r2))) =>
                    match hex4 h1 h2 h3 h4 with
                    | Some n =>
                        if (n <? 256)%nat
                        then consTo (ascii_of_nat n) (readStringBody r2)
                        else None
                    | None => None
                    end
                | _ => None
                end
            | _ => None
            end
        | EmptyString => None
        end
      else if (nat_of_ascii c <? 32)%nat then None
      else consTo c (readStringBody r)
  end.

Fixpoint takeDigits (s : string) : string * string :=
  match s with
  | String c r =>
      if isDigit c then let '(ds, rest) := takeDigits r in (String c ds, rest)
      else (EmptyString, s)
  | EmptyString => (EmptyString, EmptyString)
  end.

(** The lexeme of a number at the head of a text, and the text after it. *)
Definition readNumber (s : string) : option (string * string) :=
  let '(sign, s1) :=
    match s with
    | String "-" r => ("-", r)
    | _ => (EmptyString, s)
    end in
  let '(int, s2) := takeDigits s1 in
  if isEmpty int || ((1 <? String.length int)%nat && startsWith int "0")
  then None
  else
    let frac :=
      match s2 with
      | String "." r =>
          let '(ds, rest) := takeDigits r in
          if isEmpty ds then None else Some (("." ++ ds)%string, rest)
      | _ => Some (EmptyString, s2)
      end in
    match frac with
    | None => None
    | Some (fr, s3) =>
        let expo :=
          match s3 with
          | String e r =>
              if (nat_of_ascii e =? 101)%nat || (nat_of_ascii e =? 69)%nat then
                let '(sg, r1) :=
                  match r with
                  | String "+" r' => ("+", r')
                  | String "-" r' => ("-", r')
                  | _ => (EmptyString, r)
                  end in
                let '(ds, rest) := takeDigits r1 in
                if isEmpty ds then None
                else Some ((String e sg ++ ds)%string, rest)
              else Some (EmptyString, s3)
          | EmptyString => Some (EmptyString, s3)
          end in
        match expo with
        | None => None
        | Some (ex, s4) => Some ((sign ++ int ++ fr ++ ex)%string, s4)
        end
    end.

Definition dropPrefix (p s : string) : option string :=
  if String.prefix p s
  then Some (String.substring (String.length p)
               (String.length s - String.length p) s)
  else None.

(** A value at the head of a text (after white space), the items of an
    array after its bracket, and the members of an object after its brace.
    Every call spends one unit of [fuel]. *)
Fixpoint readValue (fuel : nat) (s : string) : option (JsonValue * string) :=
  match fuel with
  | O => None
  | S fuel' =>
      match skipSpace s with
      | EmptyString => None
      | String c r as t =>
          match nat_of_ascii c with
          | 34%nat =>
              match readStringBody r with
              | Some (str, rest) => Some (JString str, rest)
              | None => None
              end
          | 91%nat =>
              match skipSpace r with
              | String "]" rest => Some (JArray [], rest)
              | _ =>
                  match readItems fuel' r with
                  | Some (items, rest) => Some (JArray items, rest)
                  | None => None
                  end
              end
          | 123%nat =>
              match skipSpace r with
              | String "}" rest => Some (JObject [], rest)
              | _ =>
                  match readMembers fuel' r with
                  | Some (members, rest) => Some (JObject members, rest)
                  | None => None
                  end
              end
          | 116%nat =>
              match dropPrefix "true" t with
              | Some rest => Some (JBool true, rest)
              | None => None
              end
          | 102%nat =>
              match dropPrefix "false" t with
              | Some rest => Some (JBool false, rest)
              | None => None
              end
          | 110%nat =>
              match dropPrefix "null" t with
              | Some rest => Some (JNull, rest)
              | None => None
              end
          | _ =>
              match readNumber t with
              | Some (lexeme, rest) => Some (JNumber lexeme, rest)
              | None => None
              end
          end
      end
  end
with readItems (fuel : nat) (s : string)
  : option (list JsonValue * string) :=
  match fuel with
  | O => None
  | S fuel' =>
      match readValue fuel' s with
      | None => None
      | Some (v, rest) =>
          match skipSpace rest with
          | String "]" rest' => Some ([v], rest')
          | String "," rest' =>
              match readItems fuel' rest' with
              | Some (vs, rest'') => Some (v :: vs, rest'')
              | None => None
              end
          | _ => None
          end
      end
  end
with readMembers (fuel : nat) (s : string)
  : option (list (string * JsonValue) * string) :=
  match fuel with
  | O => None
  | S fuel' =>
      match skipSpace s with
      | String c r =>
          if (nat_of_ascii c =? 34)%nat then
            match readStringBody r with
            | None => None
            | Some (key, rest) =>
                match skipSpace rest with
                | String ":" rest1 =>
                    match readValue fuel' rest1 with
                    | None => None
                    | Some (v, rest2) =>
                        match skipSpace rest2 with
                        | String "}" rest3 => Some ([(key, v)], rest3)
                        | String "," rest3 =>
                            match readMembers fuel' rest3 with
                            | Some (ms, rest4) => Some ((key, v) :: ms, rest4)
                            | None => None
                            end
                        | _ => None
                        end
                    end
                | _ => None
                end
            end
          else None
      | EmptyString => None
      end
  end.

(** A whole JSON text: one value with white space around it. *)
Definition readJson (raw : string) : option JsonValue :=
  match readValue (2 * String.length raw + 2) raw with
  | Some (v, rest) => if isEmpty (skipSpace rest) then Some v else None
  | None => None
  end.

(** ** [index.ts]: the component *)

(** [interface CommandAck]; [lastCommandAck] holds its JSON text. *)
Record CommandAck : Type := mkCommandAck {
  ack_id : string;
  ack_action : string;
  ack_status : CommandStatus;
  ack_message : option string;
  ack_timestamp : string
}.

(** The fields of [HtmlToPdfComponent]. [lastCommandAck] is [None] while
    the field holds its initial empty string. *)
Record Component : Type := mkComponent {
  lastCommandAck : option CommandAck;
  htmlText : string;
  htmlTextRaw : string;
  pdfBase64 : string;
  pdfFileName : string;
  pdfStatus : string;
  lastActionCommandRaw : string;
  pendingInlineCommand : option CommandRequest
}.

Definition initialComponent : Component :=
  mkComponent None EmptyString EmptyString EmptyString EmptyString "idle"
    EmptyString None.

(** What the component does to its host, in order. *)
Inductive HostEvent : Type :=
| NotifyOutputChanged
| CommandAckWritten (ack : CommandAck)
| WarnOnUnsupportedAssets (html : string)
| OpenPrintPopup (html : string).

(** [new Date().toISOString()] and whether [window.open] gives a window. *)
Record HostEnv : Type := mkHostEnv {
  env_timestamp : string;
  env_popupOpens : bool
}.

(** [updateCommandAck] *)
Definition updateCommandAck (c : Component) (env : HostEnv)
  (id action : string) (status : CommandStatus) (message : option string)
  : Component * list HostEvent :=
  let ack := mkCommandAck id action status message (env_timestamp env) in
  (mkComponent (Some ack) (htmlText c) (htmlTextRaw c) (pdfBase64 c)
     (pdfFileName c) (pdfStatus c) (lastActionCommandRaw c)
     (pendingInlineCommand c),
   [CommandAckWritten ack; NotifyOutputChanged]).

Definition setPdfOutput (c : Component) (status base64 fileName : string)
  : Component :=
  mkComponent (lastCommandAck c) (htmlText c) (htmlTextRaw c) base64 fileName
    status (lastActionCommandRaw c) (pendingInlineCommand c).

(** [handlePdfOutput] *)
Definition handlePdfOutput (c : Component) (update : PdfOutputUpdate)
  : Component * list HostEvent :=
  let c' :=
    match upd_status update with
    | StGenerating => setPdfOutput c "generating" EmptyString EmptyString
    | StReady =>
        setPdfOutput c "ready" (orElse (upd_base64 update) EmptyString)
          (orElse (upd_fileName update) EmptyString)
    | StError => setPdfOutput c "error" EmptyString EmptyString
    | StIdle => setPdfOutput c "idle" EmptyString EmptyString
    end in
  (c', [NotifyOutputChanged]).

(** [interface IOutputs] *)
Record Outputs : Type := mkOutputs {
  out_lastCommandAck : option CommandAck;
  out_htmlText : string;
  out_htmlTextRaw : string;
  out_pdfBase64 : string;
  out_pdfFileName : string;
  out_pdfStatus : string
}.

(** [getOutputs] *)
Definition getOutputs (c : Component) : Outputs :=
  mkOutputs (lastCommandAck c) (htmlText c) (htmlTextRaw c) (pdfBase64 c)
    (pdfFileName c) (pdfStatus c).

(** The PDF fields of a component are empty unless its status is ready. *)
Definition pdfOutputsGuarded (c : Component) : Prop :=
  pdfStatus c = "ready" \/ (pdfBase64 c = EmptyString /\ pdfFileName c = EmptyString).

Definition errPopupBlocked : string :=
  "Popup blocked. Please allow popups for this site and try again.".
Definition errDownloadInline : string :=
  ("Download command is only supported in " ++ dquote ++ "inline" ++ dquote
   ++ " renderMode.")%string.

(** [handlePopupCommand] *)
Definition handlePopupCommand (c : Component) (env : HostEnv)
  (command : CommandRequest) (html : string) : Component * list HostEvent :=
  if isBlank html then
    updateCommandAck c env (cmd_id command) (actionName (cmd_action command))
      Error (Some errNoHtml)
  else
    match cmd_action command with
    | Download =>
        updateCommandAck c env (cmd_id command)
          (actionName (cmd_action command)) Error (Some errDownloadInline)
    | Print =>
        let opened := env_popupOpens env in
        let '(c', events) :=
          updateCommandAck c env (cmd_id command)
            (actionName (cmd_action command))
            (if opened then Completed else Error)
            (if opened then None else Some errPopupBlocked) in
        (c', WarnOnUnsupportedAssets html :: OpenPrintPopup html :: events)
    end.

(** [handleInlineCommandResult] *)
Definition handleInlineCommandResult (c : Component) (env : HostEnv)
  (result : CommandResult) : Component * list HostEvent :=
  let c' :=
    mkComponent (lastCommandAck c) (htmlText c) (htmlTextRaw c) (pdfBase64 c)
      (pdfFileName c) (pdfStatus c) (lastActionCommandRaw c) None in
  updateCommandAck c' env (res_id result) (actionName (res_action result))
    (res_status result) (res_message result).

Definition DEFAULT_LINE_BREAK_TOKEN : string := "<!-- linebreak -->".

(** [normalizeLineBreakToken] *)
Definition normalizeLineBreakToken (value : option string) : string :=
  let trimmed := trim (orElse value EmptyString) in
  orIfEmpty trimmed DEFAULT_LINE_BREAK_TOKEN.

(** [html.split(token).join("<br />")] for a non-empty token: the
    occurrences are taken from left to right and do not overlap; [skip]
    counts the characters of an occurrence still to pass over. *)
Fixpoint replaceToken (skip : nat) (token : string) (s : string) : string :=
  match s with
  | EmptyString => EmptyString
  | String ch r =>
      match skip with
      | S k => replaceToken k token r
      | O =>
          if String.prefix token s
          then ("<br />" ++ replaceToken (String.length token - 1) token r)%string
          else String ch (replaceToken O token r)
      end
  end.

(** [applyLineBreakToken] *)
Definition applyLineBreakToken (html token : string) : string :=
  if isEmpty html || isEmpty token then html
  else if negb (includes html token) then html
  else replaceToken 0 token html.

Inductive RenderMode : Type := Inline | Popup.

(** [asRenderMode] *)
Definition asRenderMode (value : option string) : RenderMode :=
  let v := toLowerCase (trim (orElse value EmptyString)) in
  if v =? "popup" then Popup else Inline.

(** The parameters of the context that the command dispatch reads. *)
Record Inputs : Type := mkInputs {
  in_html : option string;
  in_lineBreakToken : option string;
  in_renderMode : option string;
  in_showPrintButton : option bool;
  in_actionCommand : option string
}.

(** The element [updateView] returns, with the props that matter here. *)
Inductive Rendered : Type :=
| EmptyDiv
| PopupPrintButton (disabled : bool)
| PrintPreviewElement (html : string) (commandRequest : option CommandRequest).

Section UpdateView.

Variable JSON_parse : string -> option JsonValue.

(** The block of [updateView] that handles a changed [actionCommand]. *)
Definition dispatchActionCommand (c : Component) (env : HostEnv)
  (renderMode : RenderMode) (htmlWithLineBreaks actionCommandRaw : string)
  : Component * list HostEvent :=
  if negb (actionCommandRaw =? lastActionCommandRaw c) then
    let c :=
      mkComponent (lastCommandAck c) (htmlText c) (htmlTextRaw c)
        (pdfBase64 c) (pdfFileName c) (pdfStatus c) actionCommandRaw
        (pendingInlineCommand c) in
    if negb (isEmpty actionCommandRaw) then
      let parsedCommand := parseActionCommand JSON_parse actionCommandRaw in
      match command parsedCommand with
      | None =>
          updateCommandAck c env EmptyString "unknown" Error
            (Some (orElse (error parsedCommand) "Invalid command."))
      | Some cmd =>
          match renderMode with
          | Popup => handlePopupCommand c env cmd htmlWithLineBreaks
          | Inline =>
              (mkComponent (lastCommandAck c) (htmlText c) (htmlTextRaw c)
                 (pdfBase64 c) (pdfFileName c) (pdfStatus c)
                 (lastActionCommandRaw c) (Some cmd), [])
          end
      end
    else (c, [])
  else (c, []).

(** [updateView] *)
Definition updateView (c : Component) (env : HostEnv) (inputs : Inputs)
  : Component * list HostEvent * Rendered :=
  let html := orElse (in_html inputs) EmptyString in
  let disabled := isBlank html in
  let lineBreakToken := normalizeLineBreakToken (in_lineBreakToken inputs) in
  let renderMode := asRenderMode (in_renderMode inputs) in
  let showPrintButton := orElse (in_showPrintButton inputs) true in
  let actionCommandRaw := trim (orElse (in_actionCommand inputs) EmptyString) in
  let htmlWithLineBreaks := applyLineBreakToken html lineBreakToken in
  let htmlOutputChanged :=
    negb (htmlText c =? htmlWithLineBreaks) || negb (htmlTextRaw c =? html) in
  let c1 :=
    mkComponent (lastCommandAck c) htmlWithLineBreaks html (pdfBase64 c)
      (pdfFileName c) (pdfStatus c) (lastActionCommandRaw c)
      (pendingInlineCommand c) in
  let events1 := if htmlOutputChanged then [NotifyOutputChanged] else [] in
  let '(c2, events2) :=
    dispatchActionCommand c1 env renderMode htmlWithLineBreaks
      actionCommandRaw in
  let rendered :=
    match renderMode with
    | Popup => if showPrintButton then PopupPrintButton disabled else EmptyDiv
    | Inline => PrintPreviewElement htmlWithLineBreaks (pendingInlineCommand c2)
    end in
  (c2, events1 ++ events2, rendered).

End UpdateView.

(** The acknowledgments among the events of the host. *)
Definition isAck (e : HostEvent) : bool :=
  match e with CommandAckWritten _ => true | _ => false end.

Definition acksOf (events : list HostEvent) : list CommandAck :=
  flat_map (fun e => match e with CommandAckWritten a => [a] | _ => [] end)
    events.

Definition isPopup (e : HostEvent) : bool :=
  match e with OpenPrintPopup _ => true | _ => false end.

(** The calls the host and the preview make on the component. *)
Inductive ComponentCall : Type :=
| CallUpdateView (env : HostEnv) (inputs : Inputs)
| CallHandlePdfOutput (update : PdfOutputUpdate)
| CallHandleInlineCommandResult (env : HostEnv) (result : CommandResult).

Definition componentStep (JSON_parse : string -> option JsonValue)
  (c : Component) (call : ComponentCall) : Component * list HostEvent :=
  match call with
  | CallUpdateView env inputs => fst (updateView JSON_parse c env inputs)
  | CallHandlePdfOutput update => handlePdfOutput c update
  | CallHandleInlineCommandResult env result =>
      handleInlineCommandResult c env result
  end.

Fixpoint componentRun (JSON_parse : string -> option JsonValue)
  (c : Component) (calls : list ComponentCall) : Component :=
  match calls with
  | [] => c
  | call :: rest =>
      componentRun JSON_parse (fst (componentStep JSON_parse c call)) rest
  end.

(** Payloads and inputs used in the examples below. *)
Definition quoted (s : string) : string := (dquote ++ s ++ dquote)%string.

(** The text [{"action":"print"}]. *)
Definition payloadMissingId : string :=
  ("{" ++ quoted "action" ++ ":" ++ quoted "print" ++ "}")%string.

(** The text [{"id":"1","action":"PRINT"}]. *)
Definition payloadUpperCase : string :=
  ("{" ++ quoted "id" ++ ":" ++ quoted "1" ++ "," ++ quoted "action" ++ ":"
   ++ quoted "PRINT" ++ "}")%string.

Definition inputsWithCommand (payload : string) : Inputs :=
  mkInputs (Some "<p>Hello</p>") None None None (Some payload).

Definition exampleEnv : HostEnv := mkHostEnv "2024-01-01T00:00:00.000Z" true.

(** The offsets the loop of [addCanvasAsSlicedPages] takes in [n] turns
    from [offsetY] on. *)
Fixpoint offsets (offsetY : Q) (n : nat) : list Q :=
  match n with
  | O => []
  | S n' => offsetY :: offsets (offsetY + availableHeight) n'
  end.

(** The boundary points between the segments of the marker loop: the
    start of the body, the markers after the first one, the end of the
    body. Segment [i] runs from [cutPoint i] to [cutPoint (i + 1)]. *)
Definition cutPoint (markers : list nat) (bodyEnd : nat) (i : nat) : nat :=
  if (i =? 0)%nat then 0%nat
  else if (i <? List.length markers)%nat then nth i markers 0%nat
  else bodyEnd.

(** The elements below a node, itself included, that the selector of the
    page markers matches, at any depth. *)
Fixpoint markerElements (n : Node) : nat :=
  match n with
  | ElementNode t i cs =>
      ((if matchesPageMarker t i then 1 else 0)
       + fold_right (fun c acc => markerElements c + acc) 0 cs)%nat
  | _ => 0%nat
  end.

Definition markerElementsOf (ns : list Node) : nat :=
  fold_right (fun c acc => (markerElements c + acc)%nat) 0%nat ns.

(** A page marker in the words of the description: an element, whatever
    its tag, whose id is [page] or starts with [page-]. *)
Definition describedAsMarker (id : option string) : bool :=
  match id with
  | Some i => (i =? "page") || startsWith i "page-"
  | None => false
  end.

Fixpoint describedMarkers (n : Node) : nat :=
  match n with
  | ElementNode t i cs =>
      ((if describedAsMarker i then 1 else 0)
       + fold_right (fun c acc => describedMarkers c + acc) 0 cs)%nat
  | _ => 0%nat
  end.

Definition describedMarkersOf (ns : list Node) : nat :=
  fold_right (fun c acc => (describedMarkers c + acc)%nat) 0%nat ns.

(** A body with two markers nested in a wrapper, and a body whose only
    marked element is no [div]. *)
Definition exampleBody : list Node :=
  [TextNode "A";
   ElementNode "div" (Some "wrap")
     [ElementNode "div" (Some "page") [TextNode "B"];
      TextNode " ";
      ElementNode "div" (Some "page-2") [TextNode "C"]];
   TextNode "D"].

Definition sectionBody : list Node :=
  [ElementNode "section" (Some "page") [TextNode "A"]].

(** Events that hand the component no command with another payload than
    [raw]. *)
Definition onlyDelivers (raw : string) (ev : PreviewEvent) : Prop :=
  match ev with
  | CommandRequestChanged (Some c) => cmd_raw c = raw
  | _ => True
  end.

(** Two print commands with different payloads. *)
Definition commandA : CommandRequest := mkCommandRequest "a" Print "A".
Definition commandB : CommandRequest := mkCommandRequest "b" Print "B".

(** The first command, the second, then the first again, each run by the
    effect before the next arrives. *)
Definition interleavedDelivery : list PreviewEvent :=
  [IframeLoaded;
   CommandRequestChanged (Some commandA); ExecuteEffectRuns true 1000;
   CommandRequestChanged (Some commandB); ExecuteEffectRuns true 2000;
   CommandRequestChanged (Some commandA); ExecuteEffectRuns true 3000].









(** What one step does to the command queue, as far as executions and
    acknowledgments go. A step other than the arrival of a command is quiet,
    or it clears the pending command, drops it (with an error
    acknowledgment when there is no HTML, in silence when the command was
    completed before), runs it to the end at once, starts its download,
    settles the suspended download, or resumes a call of [execute]. *)
Inductive StepKind (st st' : PreviewState) (out : list PreviewOutput)
  : Prop :=
| KQuiet :
    pendingCommand st' = pendingCommand st ->
    lastQueuedCommandRawRef st' = lastQueuedCommandRawRef st ->
    executingCommandRawRef st' = executingCommandRawRef st ->
    suspended st' = suspended st \/ suspended st' = Some None ->
    resuming st' = resuming st ->
    (forall raw, executions raw out = 0%nat /\ acknowledgments raw out = 0%nat) ->
    StepKind st st' out
| KClear :
    pendingCommand st' = None ->
    lastQueuedCommandRawRef st' = lastQueuedCommandRawRef st ->
    executingCommandRawRef st' = executingCommandRawRef st ->
    suspended st' = suspended st ->
    resuming st' = resuming st ->
    (forall raw, executions raw out = 0%nat /\ acknowledgments raw out = 0%nat) ->
    StepKind st st' out
| KDrop (c : CommandRequest) (acknowledged : bool) :
    pendingCommand st = Some c ->
    executingCommandRawRef st <> cmd_raw c ->
    pendingCommand st' = None ->
    lastQueuedCommandRawRef st' = lastQueuedCommandRawRef st ->
    executingCommandRawRef st' = executingCommandRawRef st ->
    suspended st' = suspended st ->
    resuming st' = resuming st ->
    (forall raw,
        executions raw out = 0%nat
        /\ acknowledgments raw out
           = if acknowledged && (cmd_raw c =? raw) then 1%nat else 0%nat) ->
    StepKind st st' out
| KRunNow (c : CommandRequest) :
    pendingCommand st = Some c ->
    executingCommandRawRef st <> cmd_raw c ->
    pendingCommand st' = None ->
    lastQueuedCommandRawRef st' = lastQueuedCommandRawRef st ->
    executingCommandRawRef st' = cmd_raw c ->
    suspended st' = suspended st ->
    resuming st' = resuming st ->
    (forall raw,
        executions raw out = (if cmd_raw c =? raw then 1%nat else 0%nat)
        /\ acknowledgments raw out
           = (if cmd_raw c =? raw then 1%nat else 0%nat)) ->
    StepKind st st' out
| KStart (c : CommandRequest) :
    pendingCommand st = Some c ->
    executingCommandRawRef st <> cmd_raw c ->
    pendingCommand st' = Some c ->
    lastQueuedCommandRawRef st' = lastQueuedCommandRawRef st ->
    executingCommandRawRef st' = cmd_raw c ->
    suspended st' = Some (Some c) ->
    resuming st' = resuming st ->
    (forall raw,
        executions raw out = (if cmd_raw c =? raw then 1%nat else 0%nat)
        /\ acknowledgments raw out = 0%nat) ->
    StepKind st st' out
| KSettle (owner : option CommandRequest) (outcome : Result unit) :
    suspended st = Some owner ->
    suspended st' = None ->
    pendingCommand st' = pendingCommand st ->
    lastQueuedCommandRawRef st' = lastQueuedCommandRawRef st ->
    executingCommandRawRef st' = executingCommandRawRef st ->
    resuming st'
    = resuming st ++ match owner with
                     | Some c => [(c, outcome)]
                     | None => []
                     end ->
    (forall raw, executions raw out = 0%nat /\ acknowledgments raw out = 0%nat) ->
    StepKind st st' out
| KResume (c : CommandRequest) (outcome : Result unit)
    (rest : list (CommandRequest * Result unit)) :
    resuming st = (c, outcome) :: rest ->
    resuming st' = rest ->
    suspended st' = suspended st ->
    pendingCommand st' = None ->
    lastQueuedCommandRawRef st' = lastQueuedCommandRawRef st ->
    executingCommandRawRef st' = cmd_raw c ->
    (forall raw,
        executions raw out = 0%nat
        /\ acknowledgments raw out
           = (if cmd_raw c =? raw then 1%nat else 0%nat)) ->
    StepKind st st' out.

(** A download command handed over and run to its end, then the first
    command three times; and the first command followed by the second. *)
Definition commandC : CommandRequest := mkCommandRequest "c" Download "C".

Definition deliveryBefore : list PreviewEvent :=
  [IframeLoaded;
   CommandRequestChanged (Some commandC); ExecuteEffectRuns true 2000;
   DownloadSettles (Ok ("data:,", "document.pdf")); ExecuteResumes].

Definition repeatedDelivery : list PreviewEvent :=
  [CommandRequestChanged (Some commandA); ExecuteEffectRuns true 5000;
   CommandRequestChanged (Some commandA); ExecuteEffectRuns true 6000;
   CommandRequestChanged None; IframeLoaded;
   CommandRequestChanged (Some commandA); ExecuteEffectRuns true 7000].

Definition otherPayloadAfter : list PreviewEvent :=
  [CommandRequestChanged (Some commandB); ExecuteEffectRuns true 8000;
   CommandRequestChanged (Some commandB); ExecuteEffectRuns true 9000].

(** ** Further functions of [index.ts] and [PrintPreview.tsx] *)

(** The replacement [escapeHtml] makes for one character of its class:
    ampersand, less-than, greater-than, double quote, single quote. *)
Definition escapeChar (c : ascii) : string :=
  if Ascii.eqb c "&" then "&amp;"
  else if Ascii.eqb c "<" then "&lt;"
  else if Ascii.eqb c ">" then "&gt;"
  else if Ascii.eqb c (ascii_of_nat 34) then "&quot;"
  else if Ascii.eqb c "'" then "&#039;"
  else String c EmptyString.

(** [escapeHtml] (the same function in both files) *)
Fixpoint escapeHtml (text : string) : string :=
  match text with
  | EmptyString => EmptyString
  | String c rest => (escapeChar c ++ escapeHtml rest)%string
  end.

(** The characters that open or close a tag or an attribute value. *)
Definition isMarkupChar (c : ascii) : bool :=
  Ascii.eqb c "<" || Ascii.eqb c ">" || Ascii.eqb c (ascii_of_nat 34)
  || Ascii.eqb c "'".

Fixpoint allChars (p : ascii -> bool) (s : string) : bool :=
  match s with
  | EmptyString => true
  | String c rest => p c && allChars p rest
  end.

(** Reading one escaped character back from the head of a text. *)
Definition unescapeHead (s : string) : option (ascii * string) :=
  match s with
  | EmptyString => None
  | String c r =>
      if Ascii.eqb c "&" then
        match r with
        | String "a" (String "m" (String "p" (String ";" t))) => Some (c, t)
        | String "l" (String "t" (String ";" t)) => Some ("<"%char, t)
        | String "g" (String "t" (String ";" t)) => Some (">"%char, t)
        | String "q" (String "u" (String "o" (String "t" (String ";" t)))) =>
            Some (ascii_of_nat 34, t)
        | String "#" (String "0" (String "3" (String "9" (String ";" t)))) =>
            Some ("'"%char, t)
        | _ => None
        end
      else Some (c, r)
  end.

(** [asAppearance] *)
Definition asAppearance (value : option string) : string :=
  let v := toLowerCase (trim (orElse value EmptyString)) in
  if (v =? "primary") || (v =? "secondary") || (v =? "outline")
     || (v =? "subtle") || (v =? "transparent")
  then v else "primary".

(** [asSize] *)
Definition asSize (value : option string) : string :=
  let v := toLowerCase (trim (orElse value EmptyString)) in
  if (v =? "small") || (v =? "medium") || (v =? "large") then v else "medium".

Definition appearances : list string :=
  ["primary"; "secondary"; "outline"; "subtle"; "transparent"].

Definition sizes : list string := ["small"; "medium"; "large"].

Definition renderModeName (m : RenderMode) : string :=
  match m with Inline => "inline" | Popup => "popup" end.

(** The size and the place of the popup in [openPrintPopup], for one axis:
    [Math.max(200, Math.floor(requested || fallback))] and
    [Math.max(0, Math.floor((screen - extent) / 2))]. *)
Definition popupExtent (requested fallback : Q) : Z :=
  Z.max 200 (Qfloor (if Qeq_bool requested 0 then fallback else requested)).

Definition popupOffset (screen extent : Z) : Z :=
  Z.max 0 (Qfloor ((inject_Z screen - inject_Z extent) / (2 # 1))).

(** The export statuses among the events of a handler. *)
Definition statusesOf (events : list UiEvent) : list PdfOutputStatus :=
  flat_map (fun e => match e with
                     | OnPdfOutput u => [upd_status u]
                     | _ => []
                     end) events.

(** A status channel that alternates: [generating] only while no export
    runs, [ready] or [error] only while one does; [busy] tells whether one
    runs at the start. *)
Fixpoint alternates (busy : bool) (l : list PdfOutputStatus) : bool :=
  match l with
  | [] => true
  | StGenerating :: rest => negb busy && alternates true rest
  | StReady :: rest => busy && alternates false rest
  | StError :: rest => busy && alternates false rest
  | StIdle :: rest => false
  end.

(** The commands the events hand to the component. *)
Definition deliveredBy (evs : list PreviewEvent) : list CommandRequest :=
  flat_map (fun ev => match ev with
                      | CommandRequestChanged (Some c) => [c]
                      | _ => []
                      end) evs.

(** The command an output is about, if any. *)
Definition commandOf (o : PreviewOutput) : option CommandRequest :=
  match o with
  | CommandResultOut c _ => Some c
  | Executed c => Some c
  | Ui _ => None
  end.

(** A result that reports on its command: same [id], same [action]. *)
Definition reportsOn (o : PreviewOutput) : bool :=
  match o with
  | CommandResultOut c r =>
      (res_id r =? cmd_id c)
      && match res_action r, cmd_action c with
         | Print, Print | Download, Download => true
         | _, _ => false
         end
  | _ => true
  end.

(** A queue that holds no command and whose last payload was [raw], with
    no download of a command in flight and no call of [execute] waiting to
    be resumed. *)
Definition settledQueue (raw : string) (st : PreviewState) : Prop :=
  pendingCommand st = None
  /\ lastQueuedCommandRawRef st = raw
  /\ (suspended st = None \/ suspended st = Some None)
  /\ resuming st = [].

(** A download command, and the state of a loaded preview in which its
    export is in flight when the command [commandB] arrives. *)
Definition downloadA : CommandRequest := mkCommandRequest "a" Download "A".

Definition duringDownload : PreviewState :=
  fst (previewRun (initialPreview "<p>Hi</p>")
         [IframeLoaded;
          CommandRequestChanged (Some downloadA); ExecuteEffectRuns true 5000;
          CommandRequestChanged (Some commandB); ExecuteEffectRuns true 5100]).

(** A loaded preview with [downloadA] pending, one second after an export
    started. *)
Definition shortlyAfterExport : PreviewState :=
  mkPreviewState "<p>Hi</p>" true false (Some downloadA) "A" EmptyString
    EmptyString (mkDownloadRefs false 4000) None [].

(** A loaded preview right after a click has started an export: the
    in-flight ref is set, the render that shows [downloading] has not
    happened yet, and [downloadA] is pending. *)
Definition exportJustStarted : PreviewState :=
  mkPreviewState "<p>Hi</p>" true false (Some downloadA) "A" EmptyString
    EmptyString (mkDownloadRefs true 5000) (Some None) [].

(** The calls of [handleDownload] as the refs see them: an invocation,
    with the [ready] and [downloading] that the closure of its caller holds,
    whatever they are, and the settlement of a [try] block that is
    suspended. *)
Inductive ExportCall : Type :=
| Invoke (ready downloading : bool) (now : Z) (iframeAvailable : bool)
| Settle (generated : Result (string * string)).

(** The two refs and the number of [try] blocks that are suspended. *)
Record ExportState : Type := mkExportState {
  exp_refs : DownloadRefs;
  exp_running : nat
}.

Definition exportStep (s : ExportState) (call : ExportCall)
  : ExportState * list UiEvent :=
  match call with
  | Invoke ready downloading now iframeAvailable =>
      match handleDownload_enter ready downloading (exp_refs s) now
              iframeAvailable with
      | (refs, events, EntryProceed) =>
          (mkExportState refs (S (exp_running s)), events)
      | (refs, events, _) => (mkExportState refs (exp_running s), events)
      end
  | Settle generated =>
      match exp_running s with
      | O => (s, [])
      | S n =>
          let '(refs, events, _) := handleDownload_leave (exp_refs s) generated in
          (mkExportState refs n, events)
      end
  end.

Fixpoint exportRun (s : ExportState) (calls : list ExportCall)
  : ExportState * list UiEvent :=
  match calls with
  | [] => (s, [])
  | call :: rest =>
      let '(s1, events1) := exportStep s call in
      let '(s2, events2) := exportRun s1 rest in
      (s2, events1 ++ events2)
  end.

(** A command the component still works on: the pending one, the one
    whose export is suspended, or one whose [execute] waits to be
    resumed. *)
Definition inProgress (st : PreviewState) (c : CommandRequest) : Prop :=
  pendingCommand st = Some c
  \/ suspended st = Some (Some c)
  \/ In c (map fst (resuming st)).

(** An output that is about no command, or reports on a command in
    progress, under its [id] and [action]. *)
Definition fromQueue (st : PreviewState) (o : PreviewOutput) : Prop :=
  reportsOn o = true
  /\ forall c, commandOf o = Some c -> inProgress st c.

(** The [onPdfOutput] prop that [updateView] gives the preview is
    [handlePdfOutput]: the component after the updates among the events of a
    handler, in their order. *)
Definition publish (c : Component) (events : list UiEvent) : Component :=
  fold_left (fun c e => match e with
                        | OnPdfOutput update => fst (handlePdfOutput c update)
                        | _ => c
                        end) events c.

Definition isSaveFile (e : UiEvent) : bool :=
  match e with SaveFile _ => true | _ => false end.

(** The outputs that show a handler at work on the document: the call
    made for a command, and what [handlePrint] and [handleDownload] do once
    they are past their guards. *)
Definition startsHandler (o : PreviewOutput) : bool :=
  match o with
  | Executed _ => true
  | Ui OnBeforePrint | Ui WindowPrint | Ui OnBeforeDownload => true
  | Ui (OnPdfOutput update) =>
      match upd_status update with StGenerating => true | _ => false end
  | _ => false
  end.

Definition isIframeLoaded (ev : PreviewEvent) : bool :=
  match ev with IframeLoaded => true | _ => false end.

(* ===================================================================== *)
(** * Part II. Properties                                                  *)
(* ===================================================================== *)

(** ** The PDF outputs of the component *)

Lemma updateCommandAck_pdf (c : Component) env id action status message :
  let c' := fst (updateCommandAck c env id action status message) in
  pdfStatus c' = pdfStatus c /\ pdfBase64 c' = pdfBase64 c
  /\ pdfFileName c' = pdfFileName c.
Proof. simpl. auto. Qed.

Lemma handlePopupCommand_pdf (c : Component) env cmd h :
  let c' := fst (handlePopupCommand c env cmd h) in
  pdfStatus c' = pdfStatus c /\ pdfBase64 c' = pdfBase64 c
  /\ pdfFileName c' = pdfFileName c.
Proof.
  unfold handlePopupCommand.
  destruct (isBlank h); [apply updateCommandAck_pdf|].
  destruct (cmd_action cmd); simpl; auto.
Qed.

Lemma dispatchActionCommand_pdf JSON_parse (c : Component) env mode h raw :
  let c' := fst (dispatchActionCommand JSON_parse c env mode h raw) in
  pdfStatus c' = pdfStatus c /\ pdfBase64 c' = pdfBase64 c
  /\ pdfFileName c' = pdfFileName c.
Proof.
  unfold dispatchActionCommand.
  destruct (negb (raw =? lastActionCommandRaw c)); simpl; auto.
  destruct (negb (isEmpty raw)); simpl; auto.
  destruct (command (parseActionCommand JSON_parse raw)) as [cmd|];
    simpl; auto.
  destruct mode; simpl; auto.
  apply (handlePopupCommand_pdf
           (mkComponent (lastCommandAck c) (htmlText c) (htmlTextRaw c)
              (pdfBase64 c) (pdfFileName c) (pdfStatus c) raw
              (pendingInlineCommand c)) env cmd h).
Qed.

Lemma updateView_pdf JSON_parse (c : Component) env inputs :
  let c' := fst (fst (updateView JSON_parse c env inputs)) in
  pdfStatus c' = pdfStatus c /\ pdfBase64 c' = pdfBase64 c
  /\ pdfFileName c' = pdfFileName c.
Proof.
  unfold updateView.
  match goal with
  | |- context [dispatchActionCommand JSON_parse ?c1 env ?m ?h ?r] =>
      pose proof (dispatchActionCommand_pdf JSON_parse c1 env m h r) as H;
      destruct (dispatchActionCommand JSON_parse c1 env m h r) as [c2 ev2]
  end.
  simpl in *. exact H.
Qed.

Lemma componentStep_guarded JSON_parse (c : Component) call :
  pdfOutputsGuarded c ->
  pdfOutputsGuarded (fst (componentStep JSON_parse c call)).
Proof.
  intros G. destruct call as [env inputs | update | env result]; simpl.
  - destruct (updateView_pdf JSON_parse c env inputs) as (Hs & Hb & Hf).
    unfold pdfOutputsGuarded in *. rewrite Hs, Hb, Hf. exact G.
  - unfold pdfOutputsGuarded.
    destruct (upd_status update); simpl; auto.
  - exact G.
Qed.

Lemma componentRun_guarded JSON_parse calls : forall c,
  pdfOutputsGuarded c -> pdfOutputsGuarded (componentRun JSON_parse c calls).
Proof.
  induction calls as [|call rest IH]; intros c G; simpl; [exact G|].
  apply IH. apply componentStep_guarded. exact G.
Qed.

(** C10. After any sequence of calls on a fresh component, the outputs
    [pdfBase64] and [pdfFileName] are non-empty only if [pdfStatus] is
    ["ready"]; an update whose status is not [ready] (generating, error or
    any other) leaves both outputs empty and the status different from
    ["ready"]; an update whose status is [ready] stores its payload. *)
Theorem pdf_outputs_only_when_ready :
  forall (JSON_parse : string -> option JsonValue) (calls : list ComponentCall),
    let o := getOutputs (componentRun JSON_parse initialComponent calls) in
    ((out_pdfBase64 o <> EmptyString \/ out_pdfFileName o <> EmptyString) ->
     out_pdfStatus o = "ready")
    /\ (forall c update,
          upd_status update <> StReady ->
          let o' := getOutputs (fst (handlePdfOutput c update)) in
          out_pdfBase64 o' = EmptyString /\ out_pdfFileName o' = EmptyString
          /\ out_pdfStatus o' <> "ready")
    /\ (forall c update,
          upd_status update = StReady ->
          let o' := getOutputs (fst (handlePdfOutput c update)) in
          out_pdfStatus o' = "ready"
          /\ out_pdfBase64 o' = orElse (upd_base64 update) EmptyString
          /\ out_pdfFileName o' = orElse (upd_fileName update) EmptyString).
Proof.
  intros JSON_parse calls o. split; [|split].
  - assert (G : pdfOutputsGuarded (componentRun JSON_parse initialComponent calls)).
    { apply componentRun_guarded. right. split; reflexivity. }
    unfold o. simpl. destruct G as [G | [Gb Gf]]; [intros _; exact G|].
    intros [H | H]; contradiction.
  - intros c update Hs. destruct update as [st b f m]. simpl in *.
    destruct st; simpl; try (repeat split; (reflexivity || discriminate)).
    contradiction.
  - intros c update Hs. destruct update as [st b f m]. simpl in *.
    subst st. simpl. repeat split; reflexivity.
Qed.

Lemma pdf_outputs_only_when_ready_witness :
  out_pdfStatus
    (getOutputs
       (componentRun readJson initialComponent
          [CallHandlePdfOutput (mkPdfOutputUpdate StGenerating None None None);
           CallHandlePdfOutput
             (mkPdfOutputUpdate StReady (Some "data:application/pdf;base64,JVBERi0=")
                (Some "document.pdf") None)]))
  = "ready"
  /\ out_pdfBase64
       (getOutputs
          (fst (handlePdfOutput initialComponent
                  (mkPdfOutputUpdate StError None None (Some "Failed")))))
     = EmptyString.
Proof.
  split.
  - apply (proj1 (pdf_outputs_only_when_ready readJson
       [CallHandlePdfOutput (mkPdfOutputUpdate StGenerating None None None);
        CallHandlePdfOutput
          (mkPdfOutputUpdate StReady (Some "data:application/pdf;base64,JVBERi0=")
             (Some "document.pdf") None)])).
    left. simpl. discriminate.
  - refine (proj1 (proj1 (proj2 (pdf_outputs_only_when_ready readJson []))
                      initialComponent
                      (mkPdfOutputUpdate StError None None (Some "Failed")) _)).
    simpl. discriminate.
Defined.

(** ** The guards of [handleDownload] *)

(** C5. An invocation that finds the preview ready and no download in
    flight, less than 1500 ms after the start of the last accepted
    invocation, returns without an error, leaves the refs as they are (the
    in-flight flag stays clear) and emits nothing. Hence, of two invocations
    less than 1500 ms apart the first of which starts an export, the second
    starts none, whatever happened in between: the first may have settled
    or not, [ready] and [downloading] may have any value. *)
Theorem debounce_swallows_second_invocation :
  (forall refs now iframeAvailable generated,
      downloadInFlightRef refs = false ->
      (now - lastDownloadStartedAtRef refs < 1500)%Z ->
      handleDownload_enter true false refs now iframeAvailable
        = (refs, [], EntryReturn)
      /\ handleDownload true false refs now iframeAvailable generated
        = (refs, [], Ok tt))
  /\ (forall refs0 t1 t2 settled ready2 downloading2 iframe2,
        let first := handleDownload_enter true false refs0 t1 true in
        entryOf first = EntryProceed ->
        (t2 - t1 < 1500)%Z ->
        let between :=
          match settled with
          | Some generated => refsOf (handleDownload_leave (refsOf first) generated)
          | None => refsOf first
          end in
        let second :=
          handleDownload_enter ready2 downloading2 between t2 iframe2 in
        proceeds (entryOf second) = false
        /\ eventsOf second = []
        /\ refsOf second = between
        /\ List.length (filter proceeds [entryOf first; entryOf second]) = 1%nat).
Proof.
  split.
  - intros refs now iframeAvailable generated Hf Hd.
    unfold handleDownload, handleDownload_enter. simpl. rewrite Hf. simpl.
    apply Z.ltb_lt in Hd. rewrite Hd. split; reflexivity.
  - intros refs0 t1 t2 settled ready2 downloading2 iframe2 first Hfirst Hd
      between second.
    assert (Hlast : lastDownloadStartedAtRef between = t1).
    { unfold between, first, handleDownload_enter in *. simpl in *.
      destruct (downloadInFlightRef refs0); simpl in *; [discriminate|].
      destruct (t1 - lastDownloadStartedAtRef refs0 <? 1500)%Z; simpl in *;
        [discriminate|].
      destruct settled as [[[b n]|m]|]; reflexivity. }
    assert (Hsecond : proceeds (entryOf second) = false
                      /\ eventsOf second = [] /\ refsOf second = between).
    { unfold second, handleDownload_enter.
      destruct ready2; simpl; [|auto].
      destruct (downloading2 || downloadInFlightRef between); simpl; [auto|].
      rewrite Hlast. apply Z.ltb_lt in Hd. rewrite Hd. simpl. auto. }
    destruct Hsecond as (H1 & H2 & H3). repeat split; try assumption.
    simpl. rewrite Hfirst, H1. reflexivity.
Qed.

Lemma debounce_swallows_second_invocation_witness :
  handleDownload_enter true false (mkDownloadRefs false 1000) 2000 true
    = (mkDownloadRefs false 1000, [], EntryReturn)
  /\ proceeds
       (entryOf
          (handleDownload_enter true false
             (refsOf
                (handleDownload_leave
                   (refsOf (handleDownload_enter true false
                              (mkDownloadRefs false 0) 5000 true))
                   (Ok ("data:,", "document.pdf"))))
             6000 true)) = false.
Proof.
  split.
  - apply (proj1 debounce_swallows_second_invocation
             (mkDownloadRefs false 1000) 2000%Z true (Err "unused"));
      [reflexivity | reflexivity].
  - apply (proj2 debounce_swallows_second_invocation
             (mkDownloadRefs false 0) 5000%Z 6000%Z
             (Some (Ok ("data:,", "document.pdf"))) true false true);
      reflexivity.
Defined.

(** C6. A download invocation that arrives while another download is in
    flight (the [downloading] state of its closure or the in-flight ref is
    set) throws the Busy error in its synchronous part: the refs are
    untouched, nothing is emitted, and the [try] block is not entered,
    whatever the pipeline would have produced. The invocation is taken with
    [ready] as both callers have it: the executing effect returns before
    the call when [ready] is false, and the button is disabled then. So, in
    every state whose in-flight ref is set, also one whose [downloading]
    has not caught up with the ref, a click on the download button does
    nothing at all, and a download command that the effect runs is
    answered with the Busy error while the export in flight and the refs
    stay as they are. *)
Theorem busy_guard_when_ready :
  (forall downloading refs now iframeAvailable generated,
      downloading = true \/ downloadInFlightRef refs = true ->
      handleDownload_enter true downloading refs now iframeAvailable
        = (refs, [], EntryThrow errBusy)
      /\ handleDownload true downloading refs now iframeAvailable generated
        = (refs, [], Err errBusy))
  /\ (forall st iframeAvailable now,
        downloadInFlightRef (downloadRefs st) = true ->
        previewStep st (DownloadClicked iframeAvailable now) = (st, [])
        /\ forall c,
             cmd_action c = Download ->
             let r := previewStep st (ExecuteEffectRuns iframeAvailable now) in
             In (Executed c) (snd r) ->
             snd r = [Executed c; CommandResultOut c (commandError c errBusy)]
             /\ suspended (fst r) = suspended st
             /\ resuming (fst r) = resuming st
             /\ downloadRefs (fst r) = downloadRefs st).
Proof.
  split.
  - intros downloading refs now iframeAvailable generated H.
    assert (E : downloading || downloadInFlightRef refs = true).
    { destruct H as [H | H]; rewrite H; [reflexivity | apply orb_true_r]. }
    unfold handleDownload, handleDownload_enter. simpl. rewrite E.
    split; reflexivity.
  - intros st ifr now Hflag. split.
    + simpl. unfold clickDownload, buttonsDisabled.
      destruct (isBlank (html st)); simpl; [reflexivity|].
      destruct (ready st) eqn:Hr; simpl; [|reflexivity].
      destruct (downloading st) eqn:Hd; simpl; [reflexivity|].
      unfold handleDownload_enter. simpl. rewrite Hflag. simpl.
      destruct st; simpl in *. subst. reflexivity.
    + intros c Hact. simpl. unfold executeEffect.
      destruct (pendingCommand st) as [p|] eqn:Hp; [|intros []].
      destruct (executingCommandRawRef st =? cmd_raw p)%string; [intros []|].
      destruct (completedCommandRawRef st =? cmd_raw p)%string; [intros []|].
      destruct (isBlank (html st)).
      { simpl. intros [H|[]]. discriminate H. }
      destruct (ready st) eqn:Hr; [|intros []].
      destruct (downloading st) eqn:Hd; [intros []|].
      simpl. unfold execute. simpl.
      destruct (cmd_action p) eqn:Hpa.
      * destruct (handlePrint true ifr) as [events outcome]. simpl.
        intros [H|H]; [injection H as ->; congruence|].
        exfalso. apply in_app_or in H. destruct H as [H|[H|[]]].
        -- apply in_map_iff in H. destruct H as [x [H _]]. discriminate H.
        -- discriminate H.
      * unfold handleDownload_enter. simpl. rewrite Hflag. simpl.
        intros [H|[H|[]]]; [|discriminate H].
        injection H as ->. auto.
Qed.

Lemma busy_guard_when_ready_witness :
  handleDownload true false (mkDownloadRefs true 5000) 5200 true
    (Ok ("data:,", "document.pdf"))
  = (mkDownloadRefs true 5000, [], Err errBusy)
  /\ previewStep exportJustStarted (DownloadClicked true 5200)
     = (exportJustStarted, [])
  /\ snd (previewStep exportJustStarted (ExecuteEffectRuns true 5200))
     = [Executed downloadA;
        CommandResultOut downloadA (commandError downloadA errBusy)].
Proof.
  split; [|split].
  - apply (proj1 busy_guard_when_ready false (mkDownloadRefs true 5000)
             5200%Z true (Ok ("data:,", "document.pdf"))).
    right. reflexivity.
  - apply (proj2 busy_guard_when_ready exportJustStarted true 5200%Z).
    reflexivity.
  - refine (proj1 (proj2 (proj2 busy_guard_when_ready exportJustStarted true
                            5200%Z _) downloadA _ _)).
    + reflexivity.
    + reflexivity.
    + left. reflexivity.
Defined.

(** C7. An invocation that gets past the three guards sets the in-flight
    flag, and the flag is clear again when the call is over, on each way
    out: the pipeline succeeds, the iframe is not available, the pipeline
    fails. The flag is held while the [try] block is suspended. An
    invocation that the debounce stops never sets the flag and leaves it
    clear. *)
Theorem in_flight_flag_cleared_on_every_exit :
  forall refs now,
    downloadInFlightRef refs = false ->
    (* the try block is entered with the flag held *)
    ((1500 <= now - lastDownloadStartedAtRef refs)%Z ->
     downloadInFlightRef
       (refsOf (handleDownload_enter true false refs now true)) = true
     /\ entryOf (handleDownload_enter true false refs now true) = EntryProceed)
    (* success *)
    /\ (forall pdfBase64 name,
          (1500 <= now - lastDownloadStartedAtRef refs)%Z ->
          let r := handleDownload true false refs now true (Ok (pdfBase64, name)) in
          downloadInFlightRef (refsOf r) = false /\ snd r = Ok tt)
    (* the rendering surface is not available *)
    /\ (forall generated,
          (1500 <= now - lastDownloadStartedAtRef refs)%Z ->
          let r := handleDownload true false refs now false generated in
          downloadInFlightRef (refsOf r) = false /\ snd r = Err errNoIframe)
    (* failure during generation *)
    /\ (forall message,
          (1500 <= now - lastDownloadStartedAtRef refs)%Z ->
          let r := handleDownload true false refs now true (Err message) in
          downloadInFlightRef (refsOf r) = false /\ snd r = Err message)
    (* the debounce *)
    /\ (forall iframeAvailable generated,
          (now - lastDownloadStartedAtRef refs < 1500)%Z ->
          let r := handleDownload true false refs now iframeAvailable generated in
          refsOf r = refs /\ downloadInFlightRef (refsOf r) = false
          /\ snd r = Ok tt).
Proof.
  intros refs now Hf.
  assert (Hge : (1500 <= now - lastDownloadStartedAtRef refs)%Z ->
                (now - lastDownloadStartedAtRef refs <? 1500)%Z = false).
  { intros H. apply Z.ltb_ge. exact H. }
  unfold handleDownload, handleDownload_enter, refsOf, entryOf.
  simpl. rewrite Hf. simpl.
  repeat split; intros;
    try (rewrite Hge by assumption; simpl; reflexivity).
  all: match goal with
       | H : (_ < 1500)%Z |- _ => apply Z.ltb_lt in H; rewrite H; simpl
       end.
  - reflexivity.
  - exact Hf.
  - reflexivity.
Qed.

Lemma in_flight_flag_cleared_on_every_exit_witness :
  downloadInFlightRef
    (refsOf (handleDownload true false (mkDownloadRefs false 0) 5000 true
               (Err "Failed to read PDF blob."))) = false
  /\ downloadInFlightRef
       (refsOf (handleDownload true false (mkDownloadRefs false 0) 5000 false
                  (Ok ("data:,", "document.pdf")))) = false
  /\ refsOf (handleDownload true false (mkDownloadRefs false 4000) 5000 true
               (Ok ("data:,", "document.pdf"))) = mkDownloadRefs false 4000.
Proof.
  assert (H0 : downloadInFlightRef (mkDownloadRefs false 0) = false)
    by reflexivity.
  assert (H1 : downloadInFlightRef (mkDownloadRefs false 4000) = false)
    by reflexivity.
  pose proof (in_flight_flag_cleared_on_every_exit (mkDownloadRefs false 0)
                5000%Z H0) as (_ & _ & Hiframe & Hfail & _).
  pose proof (in_flight_flag_cleared_on_every_exit (mkDownloadRefs false 4000)
                5000%Z H1) as (_ & _ & _ & _ & Hdebounce).
  split; [|split].
  - refine (proj1 (Hfail "Failed to read PDF blob." _)). simpl. lia.
  - refine (proj1 (Hiframe (Ok ("data:,", "document.pdf")) _)). simpl. lia.
  - refine (proj1 (Hdebounce true (Ok ("data:,", "document.pdf")) _)).
    simpl. lia.
Defined.

(** ** The action command *)

Section InvalidPayloads.

Variable JSON_parse : string -> option JsonValue.

Lemma isEmpty_true (s : string) : isEmpty s = true <-> s = EmptyString.
Proof. destruct s; simpl; split; intros H; congruence. Qed.

Lemma isEmpty_false (s : string) : isEmpty s = false <-> s <> EmptyString.
Proof. destruct s; simpl; split; intros H; congruence. Qed.


(** Every payload that [parseActionCommand] turns down has one of the
    four defects, and the message is the one of the defect. *)
Lemma rejected_has_defect (raw : string) :
  command (parseActionCommand JSON_parse raw) = None ->
  exists message,
    PayloadDefect JSON_parse raw message
    /\ error (parseActionCommand JSON_parse raw) = Some message.
Proof.
  unfold parseActionCommand.
  destruct (JSON_parse raw) as [v|] eqn:E.
  2:{ intros _. exists errInvalidJson. split; [apply DefectJson; exact E|reflexivity]. }
  destruct v as [|b|n|str|items|members]; simpl;
    try (intros _; exists errNotObject; split;
         [eapply DefectObject; [exact E | intros ms; discriminate] | reflexivity]).
  destruct (isEmpty (trimmedString (getMember "id" members))) eqn:Eid.
  - intros _. exists errIdRequired. split; [|reflexivity].
    eapply DefectId; [exact E|]. intros s Hs. rewrite Hs in Eid. simpl in Eid.
    apply isEmpty_true. exact Eid.
  - destruct (toLowerCase (trimmedString (getMember "action" members)) =? "print")
      eqn:Ep; [discriminate|].
    destruct (toLowerCase (trimmedString (getMember "action" members)) =? "download")
      eqn:Ed; [discriminate|].
    intros _. exists errAction. split; [|reflexivity].
    destruct (getMember "id" members) as [[| | |id| |]|] eqn:Hid;
      simpl in Eid; try discriminate.
    eapply DefectAction; [exact E | exact Hid | apply isEmpty_false; exact Eid |].
    intros a Ha. rewrite Ha in Ep, Ed. simpl in Ep, Ed.
    split; apply String.eqb_neq; assumption.
Qed.


End InvalidPayloads.



(** ** Cloning the contents of a range *)

Lemma rebuild_flattenNode (n : Node) : forall rest stack acc,
  rebuild (flattenNode n ++ rest) stack acc = rebuild rest stack (acc ++ [n]).
Proof.
  induction n as [d|d|t i cs IH] using Node_forall_ind; intros rest stack acc;
    try reflexivity.
  assert (Hcs : forall rest' stack' acc',
             rebuild (flat_map flattenNode cs ++ rest') stack' acc'
             = rebuild rest' stack' (acc' ++ cs)).
  { induction IH as [|c cs Hc _ IHcs]; intros rest' stack' acc'.
    - simpl. rewrite app_nil_r. reflexivity.
    - simpl. rewrite <- app_assoc, Hc, IHcs, <- app_assoc. reflexivity. }
  simpl. rewrite <- app_assoc, Hcs. reflexivity.
Qed.

Lemma rebuild_flatten (ns : list Node) : forall rest stack acc,
  rebuild (flatten ns ++ rest) stack acc = rebuild rest stack (acc ++ ns).
Proof.
  unfold flatten.
  induction ns as [|n ns IH]; intros rest stack acc; simpl.
  - rewrite app_nil_r. reflexivity.
  - rewrite <- app_assoc, rebuild_flattenNode, IH, <- app_assoc. reflexivity.
Qed.

(** The clone of a range over the whole body is the body. *)
Lemma cloneContents_whole (body : list Node) :
  cloneContents body (mkRange 0 (List.length (flatten body))) = body.
Proof.
  unfold cloneContents, rangeTokens. simpl.
  rewrite Nat.sub_0_r, firstn_all.
  rewrite <- (app_nil_r (flatten body)), rebuild_flatten. reflexivity.
Qed.

Lemma closeFrames_hasElement (stack : list Frame) : forall acc,
  stack <> [] \/ hasElement acc = true ->
  hasElement (closeFrames stack acc) = true.
Proof.
  induction stack as [|[[t i] outer] stack IH]; intros acc H; simpl.
  - destruct H as [H | H]; [contradiction | exact H].
  - apply IH. right. unfold hasElement. rewrite existsb_app. simpl.
    apply orb_true_r.
Qed.

Lemma rebuild_hasElement (ts : list Token) : forall stack acc,
  stack <> [] \/ hasElement acc = true ->
  hasElement (rebuild ts stack acc) = true.
Proof.
  induction ts as [|tok ts IH]; intros stack acc H; simpl.
  - apply closeFrames_hasElement. exact H.
  - destruct tok as [t i|t i|d|d].
    + apply IH. left. discriminate.
    + destruct stack as [|[[t' i'] outer] stack'].
      * apply IH. right. reflexivity.
      * apply IH. right. unfold hasElement. rewrite existsb_app. simpl.
        apply orb_true_r.
    + apply IH. destruct H as [H | H]; [left; exact H | right].
      unfold hasElement in *. rewrite existsb_app, H. reflexivity.
    + apply IH. destruct H as [H | H]; [left; exact H | right].
      unfold hasElement in *. rewrite existsb_app, H. reflexivity.
Qed.

(** Tokens with a start tag among them rebuild to nodes with an element
    among them. *)
Lemma rebuild_open (ts : list Token) : forall stack acc,
  existsb isOpen ts = true ->
  hasElement (rebuild ts stack acc) = true.
Proof.
  induction ts as [|tok ts IH]; intros stack acc H; simpl in *; [discriminate|].
  destruct tok as [t i|t i|d|d]; simpl in H.
  - apply rebuild_hasElement. left. discriminate.
  - destruct stack as [|[[t' i'] outer] stack']; apply IH; exact H.
  - apply IH. exact H.
  - apply IH. exact H.
Qed.

Lemma hasElement_significant (nodes : list Node) :
  hasElement nodes = true ->
  filter (fun node => negb (isIgnorableNode node)) nodes <> [].
Proof.
  induction nodes as [|n nodes IH]; simpl; [discriminate|].
  destruct n as [d|d|t i cs]; simpl; intros H.
  - destruct (negb (isIgnorableNode (TextNode d))); [discriminate | apply IH; exact H].
  - discriminate.
  - discriminate.
Qed.

(** ** Segments without content *)

Lemma isIgnorableNode_spec (node : Node) :
  isIgnorableNode node = true <->
  exists data, node = TextNode data /\ trim data = EmptyString.
Proof.
  unfold isIgnorableNode. split.
  - destruct node as [d | d | t i cs]; simpl; try discriminate.
    intros H. exists d. split; [reflexivity|].
    unfold orIfEmpty in H. destruct d; simpl in *; [reflexivity|].
    apply isEmpty_true. exact H.
  - intros (d & -> & Ht). simpl. unfold orIfEmpty.
    destruct d; simpl; [reflexivity|]. simpl in Ht. rewrite Ht. reflexivity.
Qed.

(** ** Placement of the images *)

Lemma availableWidth_pos : 0 < availableWidth.
Proof. reflexivity. Qed.

Lemma availableHeight_pos : 0 < availableHeight.
Proof. reflexivity. Qed.

Lemma inject_Z_pos (z : Z) : (0 < z)%Z -> 0 < inject_Z z.
Proof. intros H. rewrite Zlt_Qlt in H. exact H. Qed.

Lemma Qmult_div_cancel (a b : Q) : 0 < b -> b * (a / b) == a.
Proof. intros H. apply Qmult_div_r. intros E. rewrite E in H. discriminate H. Qed.

(** C4, as the code has it. For an embedded image of positive width and
    height [addCanvasAsSinglePage] adds exactly one page, of 595.28 by
    841.89 points, with one image on it. Width and height of the image are
    scaled by the same positive factor, the smaller of
    [availableWidth / width] and [availableHeight / height], where the
    available lengths leave a margin of 36 points on each side. The image
    is centred between the left and the right margin, its upper edge lies
    on the upper margin, and it stays inside the margins. *)
Theorem single_page_placement :
  forall (embedPng : Canvas -> Result PngImage) (canvas : Canvas)
         (png : PngImage) (pdfDoc : PdfDocument),
    embedPng canvas = Ok png ->
    (0 < png_width png)%Z ->
    (0 < png_height png)%Z ->
    let w := inject_Z (png_width png) in
    let h := inject_Z (png_height png) in
    let scale := Qmin (availableWidth / w) (availableHeight / h) in
    exists image,
      addCanvasAsSinglePage embedPng canvas pdfDoc
        = Ok (mkPdfDocument (doc_title pdfDoc)
                (doc_pages pdfDoc ++ [mkPdfPage pageWidth pageHeight [image]]))
      /\ pageWidth == 59528 # 100 /\ pageHeight == 84189 # 100
      /\ margin == 36 # 1
      /\ availableWidth == pageWidth - (2 # 1) * margin
      /\ availableHeight == pageHeight - (2 # 1) * margin
      /\ img_png image = png
      /\ 0 < scale
      /\ img_width image == w * scale
      /\ img_height image == h * scale
      /\ imageLeft image - margin == (pageWidth - margin) - imageRight image
      /\ imageTop image == pageHeight - margin
      /\ margin <= imageLeft image
      /\ imageRight image <= pageWidth - margin
      /\ margin <= imageBottom image.
Proof.
  intros embedPng canvas png pdfDoc He Hw Hh w h scale.
  apply inject_Z_pos in Hw. apply inject_Z_pos in Hh. fold w in Hw. fold h in Hh.
  pose proof availableWidth_pos as HaW. pose proof availableHeight_pos as HaH.
  assert (Hs : 0 < scale).
  { unfold scale. apply Q.min_glb_lt; apply Qlt_shift_div_l;
      try assumption; rewrite Qmult_0_l; assumption. }
  assert (Hsw : w * scale <= availableWidth).
  { apply Qle_trans with (w * (availableWidth / w)).
    - apply Qmult_le_l; [exact Hw | apply Q.le_min_l].
    - rewrite (Qmult_div_cancel availableWidth w Hw). apply Qle_refl. }
  assert (Hsh : h * scale <= availableHeight).
  { apply Qle_trans with (h * (availableHeight / h)).
    - apply Qmult_le_l; [exact Hh | apply Q.le_min_r].
    - rewrite (Qmult_div_cancel availableHeight h Hh). apply Qle_refl. }
  eexists. split.
  { unfold addCanvasAsSinglePage. rewrite He. simpl. reflexivity. }
  unfold imageLeft, imageRight, imageTop, imageBottom. simpl.
  fold w h scale.
  assert (EW : availableWidth == pageWidth - (2 # 1) * margin) by reflexivity.
  assert (EH : availableHeight == pageHeight - (2 # 1) * margin) by reflexivity.
  set (sw := w * scale) in *. set (sh := h * scale) in *.
  unfold Qdiv. change (/ (2 # 1)) with (1 # 2).
  repeat split; try reflexivity; try assumption; try lra.
Qed.

Lemma single_page_placement_witness :
  exists image,
    addCanvasAsSinglePage (fun c => Ok (mkPngImage (canvas_width c) (canvas_height c)))
      (mkCanvas 1600 1200) (createDocument "Document")
    = Ok (mkPdfDocument "Document" [mkPdfPage pageWidth pageHeight [image]])
    /\ imageTop image == pageHeight - margin.
Proof.
  destruct (single_page_placement
              (fun c => Ok (mkPngImage (canvas_width c) (canvas_height c)))
              (mkCanvas 1600 1200) (mkPngImage 1600 1200)
              (createDocument "Document") eq_refl eq_refl eq_refl)
    as (image & Hadd & _ & _ & _ & _ & _ & _ & _ & _ & _ & _ & Htop & _).
  exists image. split; [exact Hadd | exact Htop].
Defined.

(** C4 as stated fails: the image is not aligned with the lower margin. A
    square image of 100 by 100 pixels is scaled to the available width,
    523.28 points, and its lower edge lies at 282.61 points, not at 36. *)
Lemma single_page_bottom_aligned_counterexample :
  ~ (forall png : PngImage,
        (0 < png_width png)%Z -> (0 < png_height png)%Z ->
        forall image, In image (page_images (singlePage png)) ->
                      imageBottom image == margin).
Proof.
  intros H.
  specialize (H (mkPngImage 100 100) eq_refl eq_refl _ (or_introl eq_refl)).
  vm_compute in H. discriminate H.
Qed.

(** ** Slicing *)

Lemma Qceiling_unique (c : Z) (x : Q) :
  inject_Z c - 1 < x -> x <= inject_Z c -> Qceiling x = c.
Proof.
  intros H1 H2.
  pose proof (Qceiling_lt x) as H3. pose proof (Qle_ceiling x) as H4.
  assert (A : (c - 1 < Qceiling x)%Z).
  { rewrite Zlt_Qlt. unfold Z.sub. rewrite inject_Z_plus, inject_Z_opp.
    change (inject_Z 1) with 1. lra. }
  assert (B : (Qceiling x - 1 < c)%Z).
  { rewrite Zlt_Qlt. unfold Z.sub in *. rewrite inject_Z_plus, inject_Z_opp in *.
    change (inject_Z 1) with 1 in *. lra. }
  lia.
Qed.

Lemma Qceiling_minus_1 (x : Q) : Qceiling (x - 1) = (Qceiling x - 1)%Z.
Proof.
  pose proof (Qceiling_lt x) as H3. pose proof (Qle_ceiling x) as H4.
  apply Qceiling_unique.
  - unfold Z.sub in *. rewrite inject_Z_plus, inject_Z_opp in *.
    change (inject_Z 1) with 1 in *. lra.
  - unfold Z.sub in *. rewrite inject_Z_plus, inject_Z_opp in *.
    change (inject_Z 1) with 1 in *. lra.
Qed.

Lemma Qceiling_pos (x : Q) : 0 < x -> (0 < Qceiling x)%Z.
Proof.
  intros H. pose proof (Qle_ceiling x) as H4.
  rewrite Zlt_Qlt. change (inject_Z 0) with 0. lra.
Qed.

Lemma Qceiling_nonpos (x : Q) : x <= 0 -> (Qceiling x <= 0)%Z.
Proof.
  intros H. pose proof (Qceiling_lt x) as H3.
  assert (A : (Qceiling x - 1 < 0)%Z).
  { rewrite Zlt_Qlt. change (inject_Z 0) with 0. lra. }
  lia.
Qed.

Lemma remaining_pos (scaledHeight offsetY : Q) :
  offsetY < scaledHeight ->
  0 < (scaledHeight - offsetY) / availableHeight.
Proof.
  intros H. apply Qlt_shift_div_l; [apply availableHeight_pos|]. lra.
Qed.

Lemma turnsLeft_step (scaledHeight offsetY : Q) :
  offsetY < scaledHeight ->
  turnsLeft scaledHeight offsetY
  = S (turnsLeft scaledHeight (offsetY + availableHeight)).
Proof.
  intros H. unfold turnsLeft.
  assert (E : (scaledHeight - (offsetY + availableHeight)) / availableHeight
              == (scaledHeight - offsetY) / availableHeight - 1).
  { field. intros E. pose proof availableHeight_pos as P. rewrite E in P.
    discriminate P. }
  rewrite E, Qceiling_minus_1.
  pose proof (Qceiling_pos _ (remaining_pos _ _ H)). lia.
Qed.

Lemma turnsLeft_done (scaledHeight offsetY : Q) :
  scaledHeight <= offsetY -> turnsLeft scaledHeight offsetY = O.
Proof.
  intros H. unfold turnsLeft.
  assert (N : (scaledHeight - offsetY) / availableHeight <= 0).
  { unfold Qdiv. rewrite <- (Qmult_0_l (/ availableHeight)).
    apply Qmult_le_compat_r; [lra|].
    apply Qlt_le_weak, Qinv_lt_0_compat, availableHeight_pos. }
  pose proof (Qceiling_nonpos _ N). lia.
Qed.

(** The loop adds one page per offset, in order, and keeps the title. *)
Lemma sliceLoop_pages (png : PngImage) (scaledWidth scaledHeight : Q) :
  forall (n : nat) (offsetY : Q) (pdfDoc : PdfDocument),
    turnsLeft scaledHeight offsetY = n ->
    sliceLoop png scaledWidth scaledHeight offsetY pdfDoc
    = mkPdfDocument (doc_title pdfDoc)
        (doc_pages pdfDoc
           ++ map (slicePage png scaledWidth scaledHeight) (offsets offsetY n)).
Proof.
  induction n as [|n IH]; intros offsetY pdfDoc Hn.
  - rewrite sliceLoop_equation_1.
    destruct (Qlt_le_dec offsetY scaledHeight) as [Hlt | Hge]; simpl.
    + rewrite (turnsLeft_step _ _ Hlt) in Hn. discriminate Hn.
    + rewrite app_nil_r. destruct pdfDoc; reflexivity.
  - rewrite sliceLoop_equation_1.
    destruct (Qlt_le_dec offsetY scaledHeight) as [Hlt | Hge]; simpl.
    + rewrite (turnsLeft_step _ _ Hlt) in Hn. injection Hn as Hn.
      rewrite (IH _ _ Hn). simpl. rewrite <- app_assoc. reflexivity.
    + rewrite (turnsLeft_done _ _ Hge) in Hn. discriminate Hn.
Qed.

Lemma offsets_length (n : nat) : forall offsetY,
  List.length (offsets offsetY n) = n.
Proof. induction n as [|n IH]; intros offsetY; simpl; [|rewrite IH]; reflexivity. Qed.

Lemma offsets_nth (n : nat) : forall (offsetY : Q) (k : nat),
  (k < n)%nat ->
  exists o, nth_error (offsets offsetY n) k = Some o
            /\ o == offsetY + inject_Z (Z.of_nat k) * availableHeight.
Proof.
  induction n as [|n IH]; intros offsetY k Hk; [lia|].
  destruct k as [|k]; simpl.
  - exists offsetY. split; [reflexivity|].
    change (inject_Z 0) with 0. lra.
  - destruct (IH (offsetY + availableHeight) k) as (o & Ho & Eo); [lia|].
    exists o. split; [exact Ho|]. rewrite Eo.
    replace (Z.pos (Pos.of_succ_nat k)) with (Z.of_nat k + 1)%Z by lia.
    rewrite inject_Z_plus. change (inject_Z 1) with 1. lra.
Qed.

(** C2. In the path without markers, for an embedded image of width
    [imgW > 0] and height [imgH >= 0], let [H = imgH * (availableWidth /
    imgW)] be the scaled height and [A = 841.89 - 2 * 36] the available
    height. [addCanvasAsSlicedPages] adds exactly [ceil(H / A)] pages. The
    page of turn [k] shows the image, scaled to the available width, moved
    up by the offset [k * A]; every offset used is below [H], and the next
    one, at which the loop stops, is not. *)
Theorem sliced_pages_count :
  forall (embedPng : Canvas -> Result PngImage) (canvas : Canvas)
         (png : PngImage) (pdfDoc : PdfDocument),
    embedPng canvas = Ok png ->
    (0 < png_width png)%Z ->
    (0 <= png_height png)%Z ->
    let H := inject_Z (png_height png)
             * (availableWidth / inject_Z (png_width png)) in
    exists added,
      addCanvasAsSlicedPages embedPng canvas pdfDoc
        = Ok (mkPdfDocument (doc_title pdfDoc) (doc_pages pdfDoc ++ added))
      /\ availableHeight == (84189 # 100) - (2 # 1) * (36 # 1)
      /\ Z.of_nat (List.length added) = Qceiling (H / availableHeight)
      /\ H <= inject_Z (Z.of_nat (List.length added)) * availableHeight
      /\ forall k, (k < List.length added)%nat ->
           exists image offsetY,
             nth_error added k = Some (mkPdfPage pageWidth pageHeight [image])
             /\ offsetY == inject_Z (Z.of_nat k) * availableHeight
             /\ offsetY < H
             /\ img_png image = png
             /\ img_x image == margin
             /\ img_y image == pageHeight - margin - H + offsetY
             /\ img_width image == availableWidth
             /\ img_height image == H.
Proof.
  intros embedPng canvas png pdfDoc He Hw Hh H.
  pose proof availableHeight_pos as HA.
  assert (HA0 : ~ availableHeight == 0) by (intros E; rewrite E in HA; discriminate HA).
  set (n := turnsLeft H 0).
  exists (map (slicePage png availableWidth H) (offsets 0 n)).
  assert (H0 : 0 <= H).
  { unfold H. apply Qmult_le_0_compat.
    - rewrite Zle_Qle in Hh. exact Hh.
    - apply Qlt_le_weak, Qlt_shift_div_l; [apply inject_Z_pos; exact Hw|].
      rewrite Qmult_0_l. apply availableWidth_pos. }
  assert (Hr : 0 <= H / availableHeight).
  { apply Qle_shift_div_l; [exact HA | lra]. }
  assert (Hn : Z.of_nat n = Qceiling (H / availableHeight)).
  { unfold n, turnsLeft.
    assert (E : (H - 0) / availableHeight == H / availableHeight) by (field; exact HA0).
    rewrite E. pose proof (Qle_ceiling (H / availableHeight)) as Hc.
    assert ((0 <= Qceiling (H / availableHeight))%Z).
    { rewrite Zle_Qle. change (inject_Z 0) with 0. lra. }
    lia. }
  assert (Hup : H <= inject_Z (Z.of_nat n) * availableHeight).
  { rewrite Hn. pose proof (Qle_ceiling (H / availableHeight)) as Hc.
    apply Qle_trans with ((H / availableHeight) * availableHeight).
    - assert (E : H / availableHeight * availableHeight == H) by (field; exact HA0).
      rewrite E. apply Qle_refl.
    - apply Qmult_le_compat_r; [exact Hc | lra]. }
  rewrite length_map, offsets_length.
  split; [|split; [|split; [|split]]].
  - unfold addCanvasAsSlicedPages. rewrite He. simpl. fold H.
    rewrite (sliceLoop_pages png availableWidth H n 0 pdfDoc eq_refl).
    reflexivity.
  - reflexivity.
  - exact Hn.
  - exact Hup.
  - intros k Hk.
    destruct (offsets_nth n 0 k Hk) as (o & Ho & Eo).
    eexists. exists o. split.
    { rewrite nth_error_map, Ho. simpl. unfold slicePage. reflexivity. }
    simpl.
    assert (Eo' : o == inject_Z (Z.of_nat k) * availableHeight) by (rewrite Eo; lra).
    assert (Hlt : o < H).
    { rewrite Eo'.
      pose proof (Qceiling_lt (H / availableHeight)) as Hc. rewrite <- Hn in Hc.
      assert (Hk' : inject_Z (Z.of_nat k) <= inject_Z (Z.of_nat n - 1)).
      { rewrite <- Zle_Qle. lia. }
      apply Qle_lt_trans with (inject_Z (Z.of_nat n - 1) * availableHeight).
      - apply Qmult_le_compat_r; [exact Hk' | lra].
      - apply Qlt_le_trans with ((H / availableHeight) * availableHeight).
        + apply Qmult_lt_compat_r; [exact HA | exact Hc].
        + assert (E : H / availableHeight * availableHeight == H) by (field; exact HA0).
          rewrite E. apply Qle_refl. }
    repeat split; try reflexivity; try assumption.
Qed.

Lemma sliced_pages_count_witness :
  exists added,
    addCanvasAsSlicedPages
      (fun c => Ok (mkPngImage (canvas_width c) (canvas_height c)))
      (mkCanvas 1600 9000) (createDocument "Document")
    = Ok (mkPdfDocument "Document" added)
    /\ List.length added = 4%nat.
Proof.
  destruct (sliced_pages_count
              (fun c => Ok (mkPngImage (canvas_width c) (canvas_height c)))
              (mkCanvas 1600 9000) (mkPngImage 1600 9000)
              (createDocument "Document") eq_refl eq_refl)
    as (added & Hadd & _ & Hlen & _).
  - simpl. lia.
  - exists added. split; [exact Hadd|].
    apply Nat2Z.inj. rewrite Hlen. vm_compute. reflexivity.
Defined.

(** ** Segments between page markers *)

Lemma markerPositions_bounds (ts : list Token) : forall pos m,
  In m (markerPositions ts pos) ->
  (pos <= m < pos + List.length ts)%nat.
Proof.
  induction ts as [|tok ts IH]; intros pos m Hin; simpl in *; [contradiction|].
  destruct tok as [t i|t i|d|d]; try (apply IH in Hin; lia).
  destruct (matchesPageMarker t i).
  - destruct Hin as [<- | Hin]; [lia | apply IH in Hin; lia].
  - apply IH in Hin. lia.
Qed.

(** The markers come in document order. *)
Lemma markerPositions_increasing (ts : list Token) : forall pos i j,
  (i < j)%nat -> (j < List.length (markerPositions ts pos))%nat ->
  (nth i (markerPositions ts pos) 0 < nth j (markerPositions ts pos) 0)%nat.
Proof.
  induction ts as [|tok ts IH]; intros pos i j Hij Hj; simpl in *; [lia|].
  destruct tok as [t id|t id|d|d]; try (apply IH; assumption).
  destruct (matchesPageMarker t id); [|apply IH; assumption].
  simpl in Hj. destruct j as [|j]; [lia|]. destruct i as [|i]; simpl.
  - assert (Hin : In (nth j (markerPositions ts (S pos)) 0%nat)
                     (markerPositions ts (S pos))) by (apply nth_In; lia).
    apply markerPositions_bounds in Hin. lia.
  - apply IH; lia.
Qed.

(** A position is among the markers exactly if it holds the start tag of
    an element that the selector matches. *)
Lemma markerPositions_spec (ts : list Token) : forall pos m,
  In m (markerPositions ts pos) <->
  (pos <= m)%nat /\
  exists t id, nth_error ts (m - pos) = Some (TOpen t id)
               /\ matchesPageMarker t id = true.
Proof.
  induction ts as [|tok ts IH]; intros pos m; simpl.
  - split; [contradiction|]. intros (_ & t & id & H & _).
    destruct (m - pos)%nat; discriminate H.
  - assert (Step : forall rest, In m (markerPositions ts (S pos)) <->
              (S pos <= m)%nat /\
              exists t id, nth_error (rest :: ts) (m - pos) = Some (TOpen t id)
                           /\ matchesPageMarker t id = true).
    { intros rest. rewrite IH. split.
      - intros (Hle & t & id & Hn & Hm). split; [exact Hle|].
        exists t, id. split; [|exact Hm].
        replace (m - pos)%nat with (S (m - S pos)) by lia. exact Hn.
      - intros (Hle & t & id & Hn & Hm). split; [exact Hle|].
        exists t, id. split; [|exact Hm].
        replace (m - pos)%nat with (S (m - S pos)) in Hn by lia. exact Hn. }
    assert (Here : forall tok', (forall t id, tok' = TOpen t id ->
                                      matchesPageMarker t id = false) ->
              ((pos <= m)%nat /\
               exists t id, nth_error (tok' :: ts) (m - pos) = Some (TOpen t id)
                            /\ matchesPageMarker t id = true) ->
              (S pos <= m)%nat).
    { intros tok' Hno (Hle & t & id & Hn & Hm).
      destruct (Nat.eq_dec m pos) as [->|]; [|lia].
      rewrite Nat.sub_diag in Hn. simpl in Hn. injection Hn as ->.
      rewrite (Hno t id eq_refl) in Hm. discriminate Hm. }
    destruct tok as [t id|t id|d|d].
    1: destruct (matchesPageMarker t id) eqn:Em.
    + simpl. split.
      * intros [<- | Hin].
        -- split; [lia|]. exists t, id. rewrite Nat.sub_diag. simpl. auto.
        -- apply (Step (TOpen t id)) in Hin. destruct Hin as [Hle Hex].
           split; [lia | exact Hex].
      * intros (Hle & Hex). destruct (Nat.eq_dec m pos) as [->|Hne];
          [left; reflexivity | right].
        apply (Step (TOpen t id)). split; [lia | exact Hex].
    + rewrite (Step (TOpen t id)). split.
      * intros (Hle & Hex). split; [lia | exact Hex].
      * intros Hx. split; [|exact (proj2 Hx)].
        apply (Here (TOpen t id)); [|exact Hx].
        intros t' id' E. injection E as <- <-. exact Em.
    + rewrite (Step (TClose t id)). split.
      * intros (Hle & Hex). split; [lia | exact Hex].
      * intros Hx. split; [|exact (proj2 Hx)].
        apply (Here (TClose t id)); [|exact Hx]. intros t' id' E. discriminate E.
    + rewrite (Step (TText d)). split.
      * intros (Hle & Hex). split; [lia | exact Hex].
      * intros Hx. split; [|exact (proj2 Hx)].
        apply (Here (TText d)); [|exact Hx]. intros t' id' E. discriminate E.
    + rewrite (Step (TComment d)). split.
      * intros (Hle & Hex). split; [lia | exact Hex].
      * intros Hx. split; [|exact (proj2 Hx)].
        apply (Here (TComment d)); [|exact Hx]. intros t' id' E. discriminate E.
Qed.

Lemma markerPositions_app (a b : list Token) : forall pos,
  markerPositions (a ++ b) pos
  = markerPositions a pos ++ markerPositions b (pos + List.length a).
Proof.
  induction a as [|tok a IH]; intros pos; simpl.
  - rewrite Nat.add_0_r. reflexivity.
  - replace (pos + S (List.length a))%nat with (S pos + List.length a)%nat by lia.
    destruct tok as [t i|t i|d|d]; try apply IH.
    destruct (matchesPageMarker t i); simpl; rewrite IH; reflexivity.
Qed.

(** The markers found are the matching elements of the tree, at any
    depth. *)
Lemma markerPositions_flattenNode (n : Node) : forall pos,
  List.length (markerPositions (flattenNode n) pos) = markerElements n.
Proof.
  induction n as [d|d|t i cs IH] using Node_forall_ind; intros pos;
    try reflexivity.
  simpl flattenNode.
  assert (Hcs : forall p, List.length (markerPositions (flat_map flattenNode cs) p)
                          = fold_right (fun c acc => (markerElements c + acc)%nat) 0%nat cs).
  { induction IH as [|c cs Hc _ IHcs]; intros p; [reflexivity|].
    simpl. rewrite markerPositions_app, length_app, Hc, IHcs. reflexivity. }
  simpl markerPositions. simpl markerElements.
  destruct (matchesPageMarker t i); simpl;
    rewrite markerPositions_app, length_app, Hcs; simpl; lia.
Qed.

Lemma pageMarkerDivs_count (body : list Node) :
  List.length (pageMarkerDivs body) = markerElementsOf body.
Proof.
  unfold pageMarkerDivs, flatten.
  assert (G : forall pos,
             List.length (markerPositions (flat_map flattenNode body) pos)
             = markerElementsOf body).
  { induction body as [|n body IH]; intros pos; [reflexivity|].
    simpl. rewrite markerPositions_app, length_app, markerPositions_flattenNode, IH.
    reflexivity. }
  apply G.
Qed.

Lemma firstn_add {A : Type} (m k : nat) : forall (u : list A),
  firstn (m + k) u = firstn m u ++ firstn k (skipn m u).
Proof.
  induction m as [|m IH]; intros u; [reflexivity|].
  destruct u as [|x u]; simpl.
  - rewrite firstn_nil. reflexivity.
  - rewrite IH. reflexivity.
Qed.

Lemma skipn_add {A : Type} (m k : nat) : forall (u : list A),
  skipn (m + k) u = skipn k (skipn m u).
Proof.
  induction m as [|m IH]; intros u; [reflexivity|].
  destruct u as [|x u]; simpl; [rewrite skipn_nil; reflexivity | apply IH].
Qed.

(** Consecutive ranges between non-decreasing cut points tile the tokens
    from the first cut point to the last. *)
Lemma consecutive_ranges_tile (ts : list Token) (f : nat -> nat) (n : nat) :
  (forall i, (i < n)%nat -> (f i <= f (S i))%nat) ->
  List.concat (map (fun i => rangeTokens ts (mkRange (f i) (f (S i)))) (seq 0 n))
  = firstn (f n - f 0%nat) (skipn (f 0%nat) ts).
Proof.
  induction n as [|n IH]; intros Hmono.
  - simpl. rewrite Nat.sub_diag. reflexivity.
  - rewrite seq_S, map_app, concat_app, IH by (intros i Hi; apply Hmono; lia).
    simpl. rewrite app_nil_r. unfold rangeTokens. simpl.
    assert (H0n : (f 0%nat <= f n)%nat).
    { clear IH. induction n as [|n IHn]; [lia|].
      etransitivity; [apply IHn; intros i Hi; apply Hmono; lia|].
      apply Hmono. lia. }
    pose proof (Hmono n (Nat.lt_succ_diag_r n)) as Hn.
    replace (f (S n) - f 0%nat)%nat with ((f n - f 0%nat) + (f (S n) - f n))%nat by lia.
    rewrite firstn_add. f_equal. f_equal.
    rewrite <- skipn_add. f_equal. lia.
Qed.

Lemma nth_map_seq {A : Type} (f : nat -> A) (n i : nat) (d : A) :
  (i < n)%nat -> nth i (map f (seq 0 n)) d = f i.
Proof.
  intros Hi.
  transitivity (nth i (map f (seq 0 n)) (f 0%nat)).
  - apply nth_indep. rewrite length_map, length_seq. exact Hi.
  - rewrite map_nth, seq_nth by exact Hi. reflexivity.
Qed.

Lemma setStart_setEnd (p e : nat) :
  (p <= e)%nat -> setEnd (setStart createRange p) e = mkRange p e.
Proof.
  intros H. unfold setStart, setEnd, createRange. simpl.
  destruct (0 <? p)%nat eqn:E0; simpl.
  - replace (e <? p)%nat with false by (symmetry; apply Nat.ltb_ge; exact H).
    reflexivity.
  - replace (e <? p)%nat with false by (symmetry; apply Nat.ltb_ge; exact H).
    reflexivity.
Qed.

Section MarkerSegments.

Variable body : list Node.

Let tokens := flatten body.
Let markers := pageMarkerDivs body.
Let n := List.length markers.
Let cut := cutPoint markers (List.length tokens).

Lemma marker_in_body (i : nat) :
  (i < n)%nat -> (nth i markers 0 < List.length tokens)%nat.
Proof.
  intros Hi.
  assert (Hin : In (nth i markers 0%nat) markers) by (apply nth_In; exact Hi).
  apply markerPositions_bounds in Hin. simpl in Hin. exact (proj2 Hin).
Qed.

Lemma cut_increasing (i : nat) : (i < n)%nat -> (cut i < cut (S i))%nat.
Proof.
  intros Hi. unfold cut, cutPoint. fold n.
  destruct i as [|i]; simpl.
  - destruct (1 <? n)%nat eqn:E.
    + apply Nat.ltb_lt in E.
      pose proof (markerPositions_increasing (flatten body) 0 0 1) as M.
      change (markerPositions (flatten body) 0) with markers in M.
      change (List.length markers) with n in M.
      specialize (M ltac:(lia) E). lia.
    + pose proof (marker_in_body 0 Hi). lia.
  - assert (E : (S i <? n)%nat = true) by (apply Nat.ltb_lt; exact Hi).
    rewrite E.
    destruct (S (S i) <? n)%nat eqn:E2.
    + apply Nat.ltb_lt in E2.
      pose proof (markerPositions_increasing (flatten body) 0 (S i) (S (S i))) as M.
      change (markerPositions (flatten body) 0) with markers in M.
      change (List.length markers) with n in M.
      apply M; [lia | exact E2].
    + apply marker_in_body. exact Hi.
Qed.

(** The range of a turn of the loop runs from one cut point to the
    next. *)
Lemma segmentRange_cut (i : nat) :
  (i < n)%nat ->
  segmentRange markers (List.length tokens) i = mkRange (cut i) (cut (S i)).
Proof.
  intros Hi. pose proof (cut_increasing i Hi) as Hlt.
  assert (E : segmentRange markers (List.length tokens) i
              = setEnd (setStart createRange (cut i)) (cut (S i))).
  { unfold segmentRange, setStartBefore, setEndBefore, cut, cutPoint.
    fold n. replace (i + 1)%nat with (S i) by lia.
    replace (i <? n)%nat with true by (symmetry; apply Nat.ltb_lt; exact Hi).
    simpl (S i =? 0)%nat. cbv iota.
    destruct (i =? 0)%nat; destruct (S i <? n)%nat; reflexivity. }
  rewrite E. apply setStart_setEnd. lia.
Qed.

Lemma segmentRanges_cut :
  segmentRanges body
  = map (fun i => mkRange (cut i) (cut (S i))) (seq 0 n).
Proof.
  unfold segmentRanges. fold markers tokens n.
  apply map_ext_in. intros i Hi. apply in_seq in Hi.
  apply segmentRange_cut. lia.
Qed.

(** C3, as the code has it. Let the page markers be the [div] elements
    whose id is [page] or starts with [page-], at any depth of the body,
    [n >= 1] in number. The loop builds exactly [n] ranges, in document
    order. The first starts at the start of the body, range [i >= 1] starts
    before marker [i]; each ends before the next marker, the last at the
    end of the body. No range is empty, each starts where the one before it
    ends, and their contents, one after the other, are the whole body. *)
Theorem marker_segments_partition :
  (1 <= List.length (pageMarkerDivs body))%nat ->
  let ranges := segmentRanges body in
  List.length (pageMarkerDivs body) = markerElementsOf body
  /\ (forall p, In p (pageMarkerDivs body) <->
                exists t id, nth_error (flatten body) p = Some (TOpen t id)
                             /\ matchesPageMarker t id = true)
  /\ (forall i j, (i < j)%nat -> (j < List.length (pageMarkerDivs body))%nat ->
                  (nth i (pageMarkerDivs body) 0 < nth j (pageMarkerDivs body) 0)%nat)
  /\ List.length ranges = List.length (pageMarkerDivs body)
  /\ (forall i, (i < List.length (pageMarkerDivs body))%nat ->
        let r := nth i ranges createRange in
        range_start r
          = (if (i =? 0)%nat then 0%nat else nth i (pageMarkerDivs body) 0%nat)
        /\ range_end r
          = (if (S i <? List.length (pageMarkerDivs body))%nat
             then nth (S i) (pageMarkerDivs body) 0%nat
             else List.length (flatten body))
        /\ (range_start r < range_end r)%nat
        /\ ((S i < List.length (pageMarkerDivs body))%nat ->
            range_start (nth (S i) ranges createRange) = range_end r))
  /\ List.concat (map (rangeTokens (flatten body)) ranges) = flatten body.
Proof.
  intros Hn ranges. fold markers tokens n in Hn |- *.
  assert (Hnth : forall i, (i < n)%nat ->
             nth i ranges createRange = mkRange (cut i) (cut (S i))).
  { intros i Hi. unfold ranges. rewrite segmentRanges_cut.
    exact (nth_map_seq (fun k => mkRange (cut k) (cut (S k))) n i createRange Hi). }
  split; [apply pageMarkerDivs_count|].
  split.
  { intros p. unfold markers, pageMarkerDivs. rewrite markerPositions_spec.
    rewrite Nat.sub_0_r. fold tokens. split.
    - intros (_ & H). exact H.
    - intros H. split; [lia | exact H]. }
  split.
  { intros i j Hij Hj. apply markerPositions_increasing; assumption. }
  split.
  { unfold ranges. rewrite segmentRanges_cut, length_map, length_seq. reflexivity. }
  split.
  { intros i Hi r. unfold r. rewrite (Hnth i Hi). simpl.
    pose proof (cut_increasing i Hi) as Hlt.
    split; [|split; [|split]].
    - unfold cut, cutPoint. fold n.
      destruct i; simpl; [reflexivity|].
      replace (S i <? n)%nat with true by (symmetry; apply Nat.ltb_lt; exact Hi).
      reflexivity.
    - unfold cut, cutPoint. fold n. reflexivity.
    - exact Hlt.
    - intros HS. rewrite (Hnth (S i) HS). reflexivity. }
  unfold ranges. rewrite segmentRanges_cut, map_map.
  rewrite (consecutive_ranges_tile tokens cut n)
    by (intros i Hi; apply Nat.lt_le_incl, cut_increasing; exact Hi).
  assert (E0 : cut 0%nat = 0%nat) by reflexivity.
  assert (En : cut n = List.length tokens).
  { unfold cut, cutPoint. fold n.
    replace (n =? 0)%nat with false by (symmetry; apply Nat.eqb_neq; lia).
    rewrite Nat.ltb_irrefl. reflexivity. }
  rewrite E0, En, Nat.sub_0_r. simpl. apply firstn_all.
Qed.

(** Each range of the loop holds the start tag of its marker, so the
    clone of its contents holds an element and the filter of
    [renderNodeSegmentAsCanvas] leaves it a node: in the loop over the
    markers no segment is skipped. *)
Lemma marker_segment_significant (i : nat) :
  (i < n)%nat ->
  filter (fun node => negb (isIgnorableNode node))
    (cloneContents body (nth i (segmentRanges body) createRange)) <> [].
Proof.
  intros Hi.
  rewrite segmentRanges_cut,
    (nth_map_seq (fun k => mkRange (cut k) (cut (S k))) n i createRange Hi).
  apply hasElement_significant. unfold cloneContents. apply rebuild_open.
  set (m := nth i markers 0%nat).
  assert (Hm : In m markers) by (apply nth_In; exact Hi).
  apply markerPositions_spec in Hm. destruct Hm as (_ & t & id & Hn & _).
  rewrite Nat.sub_0_r in Hn. fold tokens in Hn.
  assert (Hlo : (cut i <= m)%nat).
  { unfold cut, cutPoint. fold n. destruct i as [|i]; simpl; [lia|].
    replace (S i <? n)%nat with true by (symmetry; apply Nat.ltb_lt; exact Hi).
    apply Nat.le_refl. }
  assert (Hhi : (m < cut (S i))%nat).
  { unfold cut, cutPoint. fold n. simpl.
    destruct (S i <? n)%nat eqn:E.
    - apply Nat.ltb_lt in E.
      pose proof (markerPositions_increasing (flatten body) 0 i (S i)) as M.
      change (markerPositions (flatten body) 0) with markers in M.
      change (List.length markers) with n in M.
      apply M; [lia | exact E].
    - apply marker_in_body. exact Hi. }
  apply existsb_exists. exists (TOpen t id). split; [|reflexivity].
  apply nth_error_In with (n := (m - cut i)%nat).
  unfold rangeTokens. simpl.
  rewrite nth_error_firstn.
  replace (m - cut i <? cut (S i) - cut i)%nat with true
    by (symmetry; apply Nat.ltb_lt; lia).
  rewrite nth_error_skipn.
  replace (cut i + (m - cut i))%nat with m by lia. exact Hn.
Qed.

End MarkerSegments.

Lemma marker_segments_partition_witness :
  List.length (segmentRanges exampleBody) = 2%nat
  /\ List.concat (map (rangeTokens (flatten exampleBody)) (segmentRanges exampleBody))
     = flatten exampleBody.
Proof.
  assert (H : (1 <= List.length (pageMarkerDivs exampleBody))%nat)
    by (vm_compute; lia).
  destruct (marker_segments_partition exampleBody H)
    as (_ & _ & _ & Hlen & _ & Htile).
  split; [rewrite Hlen; reflexivity | exact Htile].
Defined.

(** C3 as stated fails: an element with the id [page] that is no [div] is
    not a page marker for the loop. A body whose only marked element is a
    [section] has one marker in the words of the description and no
    segment; it goes down the path without markers. *)
Lemma marker_segments_counterexample :
  ~ (forall body : list Node,
        (1 <= describedMarkersOf body)%nat ->
        List.length (segmentRanges body) = describedMarkersOf body).
Proof.
  intros H. specialize (H sectionBody ltac:(vm_compute; lia)).
  vm_compute in H. discriminate H.
Qed.

(** ** Segments without content, in the loop over the markers *)

Lemma isIgnorableNode_whitespace (node : Node) :
  isIgnorableNode node = isWhitespaceOnlyText node.
Proof.
  destruct node as [d | d | t i cs]; try reflexivity.
  unfold isIgnorableNode, isWhitespaceOnlyText, isBlank, orIfEmpty. simpl.
  destruct d; reflexivity.
Qed.

Lemma significant_none (nodes : list Node) :
  forallb isWhitespaceOnlyText nodes = true ->
  filter (fun node => negb (isIgnorableNode node)) nodes = [].
Proof.
  induction nodes as [|n nodes IH]; simpl; [reflexivity|].
  intros H. apply andb_true_iff in H. destruct H as [Hn Hrest].
  rewrite isIgnorableNode_whitespace, Hn. simpl. apply IH. exact Hrest.
Qed.

Lemma significant_some (nodes : list Node) :
  forallb isWhitespaceOnlyText nodes = false ->
  filter (fun node => negb (isIgnorableNode node)) nodes <> [].
Proof.
  induction nodes as [|n nodes IH]; simpl; [discriminate|].
  rewrite isIgnorableNode_whitespace.
  destruct (isWhitespaceOnlyText n); simpl; [exact IH | discriminate].
Qed.

(** C9. Take any range of the document and the nodes of the clone of its
    contents. If every node is a text node of white space only, the
    rasterizer returns no canvas and the turn of the loop over the markers
    that builds this range adds no page: the loop goes on with the document
    as it was. If some node is anything else, the rasterizer calls
    [html2canvas] on a new [div] whose children are exactly those nodes, and
    the turn of the loop adds one page, the single page of the embedded
    capture, unless the capture or the embedding fails. For the ranges the
    loop builds from the page markers of a document the second case is the
    only one: each holds a marker element. *)
Theorem whitespace_only_segment_is_skipped :
  forall (html2canvas : Node -> Result Canvas)
         (embedPng : Canvas -> Result PngImage)
         (body : list Node) (range : Range) (pdfDoc : PdfDocument),
    let nodes := cloneContents body range in
    (forallb isWhitespaceOnlyText nodes = true ->
     renderRangeSegmentAsCanvas html2canvas body range = Ok None
     /\ forall markers index rest,
          segmentRange markers (List.length (flatten body)) index = range ->
          markerLoop html2canvas embedPng body markers (index :: rest) pdfDoc
          = markerLoop html2canvas embedPng body markers rest pdfDoc)
    /\ (forallb isWhitespaceOnlyText nodes = false ->
        renderRangeSegmentAsCanvas html2canvas body range
        = (canvas <- html2canvas (ElementNode "div" None nodes) ;;
           Ok (Some canvas))
        /\ forall markers index rest,
             segmentRange markers (List.length (flatten body)) index = range ->
             markerLoop html2canvas embedPng body markers (index :: rest) pdfDoc
             = (canvas <- html2canvas (ElementNode "div" None nodes) ;;
                png <- embedPng canvas ;;
                markerLoop html2canvas embedPng body markers rest
                  (mkPdfDocument (doc_title pdfDoc)
                     (doc_pages pdfDoc ++ [singlePage png]))))
    /\ (forall i,
          (i < List.length (pageMarkerDivs body))%nat ->
          forallb isWhitespaceOnlyText
            (cloneContents body
               (segmentRange (pageMarkerDivs body)
                  (List.length (flatten body)) i)) = false).
Proof.
  intros html2canvas embedPng body range pdfDoc nodes.
  split; [|split].
  - intros Hall. pose proof (significant_none nodes Hall) as E.
    split.
    + unfold renderRangeSegmentAsCanvas, renderNodeSegmentAsCanvas.
      fold nodes. rewrite E. reflexivity.
    + intros markers index rest Hrange. cbn [markerLoop]. rewrite Hrange.
      fold nodes. unfold addSegment, renderNodeSegmentAsCanvas.
      rewrite E. reflexivity.
  - intros Hsome. pose proof (significant_some nodes Hsome) as N.
    split.
    + unfold renderRangeSegmentAsCanvas, renderNodeSegmentAsCanvas.
      fold nodes.
      destruct (filter (fun node => negb (isIgnorableNode node)) nodes);
        [contradiction | reflexivity].
    + intros markers index rest Hrange. cbn [markerLoop]. rewrite Hrange.
      fold nodes. unfold addSegment, renderNodeSegmentAsCanvas.
      destruct (filter (fun node => negb (isIgnorableNode node)) nodes);
        [contradiction|].
      unfold segmentHost. simpl.
      destruct (html2canvas (ElementNode "div" None nodes)) as [canvas|m];
        simpl; [|reflexivity].
      unfold addCanvasAsSinglePage.
      destruct (embedPng canvas) as [png|m]; reflexivity.
  - intros i Hi.
    pose proof (marker_segment_significant body i Hi) as S.
    unfold segmentRanges in S.
    rewrite (nth_map_seq
               (segmentRange (pageMarkerDivs body) (List.length (flatten body)))
               (List.length (pageMarkerDivs body)) i createRange Hi) in S.
    destruct (forallb isWhitespaceOnlyText _) eqn:E; [|reflexivity].
    exfalso. apply S. apply significant_none. exact E.
Qed.

Lemma whitespace_only_segment_is_skipped_witness :
  cloneContents exampleBody (mkRange 5 6) = [TextNode " "]
  /\ renderRangeSegmentAsCanvas (fun _ => Ok (mkCanvas 800 600)) exampleBody
       (mkRange 5 6) = Ok None.
Proof.
  split; [reflexivity|].
  apply (proj1 (whitespace_only_segment_is_skipped
                  (fun _ => Ok (mkCanvas 800 600))
                  (fun c => Ok (mkPngImage (canvas_width c) (canvas_height c)))
                  exampleBody (mkRange 5 6) (createDocument "Document"))).
  reflexivity.
Defined.

(** ** Commands are executed and acknowledged once per queuing *)

Lemma executions_app (raw : string) (l1 l2 : list PreviewOutput) :
  executions raw (l1 ++ l2) = (executions raw l1 + executions raw l2)%nat.
Proof. unfold executions. rewrite filter_app, length_app. reflexivity. Qed.

Lemma acknowledgments_app (raw : string) (l1 l2 : list PreviewOutput) :
  acknowledgments raw (l1 ++ l2)
  = (acknowledgments raw l1 + acknowledgments raw l2)%nat.
Proof. unfold acknowledgments. rewrite filter_app, length_app. reflexivity. Qed.

Lemma previewRun_app (l1 l2 : list PreviewEvent) : forall st,
  previewRun st (l1 ++ l2)
  = (fst (previewRun (fst (previewRun st l1)) l2),
     snd (previewRun st l1) ++ snd (previewRun (fst (previewRun st l1)) l2)).
Proof.
  induction l1 as [|ev l1 IH]; intros st; simpl.
  - destruct (previewRun st l2); reflexivity.
  - destruct (previewStep st ev) as [st1 out1]. rewrite IH.
    destruct (previewRun st1 l1) as [st2 out2]. simpl.
    rewrite app_assoc. reflexivity.
Qed.

Ltac tally :=
  let raw := fresh "raw" in
  intros raw; unfold executions, acknowledgments; simpl;
  try match goal with
      | |- context [(cmd_raw ?c =? raw)%string] =>
          destruct (cmd_raw c =? raw)%string
      end;
  split; reflexivity.

Ltac quiet := apply KQuiet; simpl; auto; try tally.

Lemma executeEffect_kind (st : PreviewState) (ifr : bool) (now : Z) :
  StepKind st (fst (executeEffect st ifr now)) (snd (executeEffect st ifr now)).
Proof.
  unfold executeEffect.
  destruct (pendingCommand st) as [c|] eqn:Hp; [|quiet].
  destruct (executingCommandRawRef st =? cmd_raw c)%string eqn:Eex;
    [simpl; apply KQuiet; simpl; auto; try tally|].
  apply String.eqb_neq in Eex.
  destruct (completedCommandRawRef st =? cmd_raw c)%string.
  { apply (KDrop _ _ _ c false); simpl; auto; try tally. }
  destruct (isBlank (html st)).
  { apply (KDrop _ _ _ c true); simpl; auto; try tally. }
  destruct (negb (ready st) || downloading st);
    [simpl; apply KQuiet; simpl; auto; try tally|].
  unfold execute. simpl.
  destruct (cmd_action c).
  - unfold handlePrint.
    destruct (negb (ready st)); [|destruct (negb ifr)]; simpl;
      apply (KRunNow _ _ _ c); simpl; auto; try tally.
  - unfold handleDownload_enter.
    destruct (negb (ready st)); simpl;
      [apply (KRunNow _ _ _ c); simpl; auto; try tally|].
    destruct (downloading st || downloadInFlightRef (downloadRefs st)); simpl;
      [apply (KRunNow _ _ _ c); simpl; auto; try tally|].
    destruct (now - lastDownloadStartedAtRef (downloadRefs st) <? 1500)%Z; simpl;
      [apply (KRunNow _ _ _ c); simpl; auto; try tally|].
    destruct (negb ifr); simpl;
      [apply (KRunNow _ _ _ c); simpl; auto; try tally|].
    apply (KStart _ _ _ c); simpl; auto; try tally.
Qed.

Lemma settleDownload_kind (st : PreviewState) (gen : Result (string * string)) :
  StepKind st (fst (settleDownload st gen)) (snd (settleDownload st gen)).
Proof.
  unfold settleDownload.
  destruct (suspended st) as [owner|] eqn:Hs; [|quiet].
  destruct gen as [[b64 name]|msg]; simpl.
  - apply (KSettle _ _ _ owner (Ok tt)); simpl; auto; try tally.
  - apply (KSettle _ _ _ owner (Err msg)); simpl; auto; try tally.
Qed.

Lemma resumeExecute_kind (st : PreviewState) :
  StepKind st (fst (resumeExecute st)) (snd (resumeExecute st)).
Proof.
  unfold resumeExecute.
  destruct (resuming st) as [|[c outcome] rest] eqn:Hr; [quiet|].
  apply (KResume _ _ _ c outcome rest); simpl; auto.
  intros raw. unfold executions, acknowledgments. simpl.
  destruct (cmd_raw c =? raw)%string; split; reflexivity.
Qed.

Lemma clickPrint_kind (st : PreviewState) (win : bool) :
  StepKind st (fst (clickPrint st win)) (snd (clickPrint st win)).
Proof.
  unfold clickPrint, handlePrint.
  destruct (buttonsDisabled st); [quiet|].
  destruct (negb (ready st)); [quiet|].
  destruct (negb win); quiet.
Qed.

Lemma clickDownload_kind (st : PreviewState) (ifr : bool) (now : Z) :
  StepKind st (fst (clickDownload st ifr now)) (snd (clickDownload st ifr now)).
Proof.
  unfold clickDownload, handleDownload_enter.
  destruct (buttonsDisabled st); [quiet|].
  destruct (negb (ready st)); [quiet|].
  destruct (downloading st || downloadInFlightRef (downloadRefs st)); [quiet|].
  destruct (now - lastDownloadStartedAtRef (downloadRefs st) <? 1500)%Z; [quiet|].
  destruct (negb ifr); quiet.
Qed.

(** Every step of the component but the arrival of a command is of one
    of the kinds. *)
Lemma previewStep_kind (st : PreviewState) (ev : PreviewEvent) :
  match ev with
  | CommandRequestChanged _ => True
  | _ => StepKind st (fst (previewStep st ev)) (snd (previewStep st ev))
  end.
Proof.
  destruct ev as [h'| | |cmd|ifr now|gen|win|ifr now| |]; simpl.
  - quiet.
  - quiet.
  - quiet.
  - exact I.
  - apply executeEffect_kind.
  - apply settleDownload_kind.
  - apply clickPrint_kind.
  - apply clickDownload_kind.
  - apply KClear; simpl; auto; tally.
  - apply resumeExecute_kind.
Qed.











(** The run of the witness executes and acknowledges each of its three
    commands once. *)
Example repeated_delivery_runs_once :
  let out := snd (previewRun (initialPreview "<p>Hello</p>")
                    (deliveryBefore ++ repeatedDelivery ++ otherPayloadAfter)) in
  executions "A" out = 1%nat /\ acknowledgments "A" out = 1%nat
  /\ executions "B" out = 1%nat /\ acknowledgments "B" out = 1%nat
  /\ executions "C" out = 1%nat /\ acknowledgments "C" out = 1%nat.
Proof. repeat split; reflexivity. Qed.

(** Without HTML a command is answered with an error and not executed. *)
Example command_without_html :
  snd (previewRun (initialPreview EmptyString)
         [CommandRequestChanged (Some commandC); ExecuteEffectRuns true 1000])
  = [CommandResultOut commandC (commandError commandC errNoHtml)].
Proof. reflexivity. Qed.

(** A scaled height of 3000 points makes four pages. *)
Example slicing_3000_points :
  List.length
    (doc_pages (sliceLoop (mkPngImage 1600 9173) availableWidth (3000 # 1) 0
                  (createDocument "Document"))) = 4%nat.
Proof. vm_compute. reflexivity. Qed.

(** The clones of the two segments of the example body: the wrapper is
    contained partially in both. *)
Example example_body_segments :
  map (cloneContents exampleBody) (segmentRanges exampleBody)
  = [[TextNode "A";
      ElementNode "div" (Some "wrap")
        [ElementNode "div" (Some "page") [TextNode "B"]; TextNode " "]];
     [ElementNode "div" (Some "wrap")
        [ElementNode "div" (Some "page-2") [TextNode "C"]];
      TextNode "D"]].
Proof. reflexivity. Qed.

(** The payload without id of the protocol description. *)
Example missing_id_payload :
  parseActionCommand readJson payloadMissingId
  = mkParseCommandResult None (Some errIdRequired).
Proof. vm_compute. reflexivity. Qed.

(** A whole download of the example body: two markers, two pages, and the
    events of a successful export in order. *)
Example download_example_body :
  download (fun _ => Ok (mkCanvas 1600 1200))
    (fun c => Ok (mkPngImage (canvas_width c) (canvas_height c)))
    (fun d => Ok (if (List.length (doc_pages d) =? 2)%nat
                  then "two pages" else "other"))
    "Report" "report" exampleBody true false (mkDownloadRefs false 0) 5000
  = (mkDownloadRefs false 5000,
     [OnBeforeDownload;
      OnPdfOutput (mkPdfOutputUpdate StGenerating None None None);
      SetDownloading true;
      OnPdfOutput (mkPdfOutputUpdate StReady (Some "two pages")
                     (Some "report.pdf") None);
      SaveFile "report.pdf"; ScheduleRevoke 10000; SetDownloading false],
     Ok tt).
Proof. vm_compute. reflexivity. Qed.

(* ===================================================================== *)
(** * Part III. Further properties of the code                             *)
(* ===================================================================== *)

(** ** Escaping and the normalisers *)

Lemma allChars_app (p : ascii -> bool) (a b : string) :
  allChars p (a ++ b)%string = allChars p a && allChars p b.
Proof.
  induction a as [|c a IH]; simpl; [reflexivity|].
  rewrite IH, andb_assoc. reflexivity.
Qed.

Lemma escapeChar_safe (c : ascii) :
  allChars (fun x => negb (isMarkupChar x)) (escapeChar c) = true.
Proof.
  unfold escapeChar, isMarkupChar.
  destruct (Ascii.eqb c "&") eqn:E1; [reflexivity|].
  destruct (Ascii.eqb c "<") eqn:E2; [reflexivity|].
  destruct (Ascii.eqb c ">") eqn:E3; [reflexivity|].
  destruct (Ascii.eqb c (ascii_of_nat 34)) eqn:E4; [reflexivity|].
  destruct (Ascii.eqb c "'") eqn:E5; [reflexivity|].
  simpl. rewrite E2, E3, E4, E5. reflexivity.
Qed.

(** X1. The text [escapeHtml] returns holds none of the characters [<],
    [>], the double quote and the single quote, whatever the input. *)
Theorem escapeHtml_no_markup :
  forall text : string,
    allChars (fun c => negb (isMarkupChar c)) (escapeHtml text) = true.
Proof.
  induction text as [|c rest IH]; simpl; [reflexivity|].
  rewrite allChars_app, escapeChar_safe, IH. reflexivity.
Qed.

Lemma unescapeHead_escapeChar (c : ascii) (t : string) :
  unescapeHead (escapeChar c ++ t)%string = Some (c, t).
Proof.
  unfold escapeChar.
  destruct (Ascii.eqb c "&") eqn:E1.
  { apply Ascii.eqb_eq in E1. subst c. reflexivity. }
  destruct (Ascii.eqb c "<") eqn:E2.
  { apply Ascii.eqb_eq in E2. subst c. reflexivity. }
  destruct (Ascii.eqb c ">") eqn:E3.
  { apply Ascii.eqb_eq in E3. subst c. reflexivity. }
  destruct (Ascii.eqb c (ascii_of_nat 34)) eqn:E4.
  { apply Ascii.eqb_eq in E4. subst c. reflexivity. }
  destruct (Ascii.eqb c "'") eqn:E5.
  { apply Ascii.eqb_eq in E5. subst c. reflexivity. }
  simpl. rewrite E1. reflexivity.
Qed.

(** X2. [escapeHtml] loses nothing: two texts with the same escaped form
    are the same text. *)
Theorem escapeHtml_injective :
  forall a b : string, escapeHtml a = escapeHtml b -> a = b.
Proof.
  induction a as [|c a IH]; intros [|d b] H; simpl in H.
  - reflexivity.
  - apply (f_equal unescapeHead) in H.
    rewrite unescapeHead_escapeChar in H. discriminate H.
  - apply (f_equal unescapeHead) in H.
    rewrite unescapeHead_escapeChar in H. discriminate H.
  - apply (f_equal unescapeHead) in H.
    rewrite !unescapeHead_escapeChar in H. injection H as Hc Hr.
    subst d. f_equal. apply IH. exact Hr.
Qed.

Lemma escapeHtml_injective_witness :
  ("Tom & Jerry <draft>" ++ EmptyString)%string = "Tom & Jerry <draft>".
Proof.
  apply (escapeHtml_injective
           ("Tom & Jerry <draft>" ++ EmptyString)%string "Tom & Jerry <draft>").
  reflexivity.
Defined.

Ltac literal_cases v :=
  repeat match goal with
         | |- context [(v =? ?l)%string] =>
             let E := fresh "E" in
             destruct (String.eqb_spec v l) as [E | E];
             [rewrite E; simpl; auto 10 |]; simpl
         end.

Lemma asAppearance_member (value : option string) :
  In (asAppearance value) appearances.
Proof.
  unfold asAppearance.
  set (v := toLowerCase (trim (orElse value EmptyString))).
  literal_cases v. auto.
Qed.

Lemma asSize_member (value : option string) : In (asSize value) sizes.
Proof.
  unfold asSize.
  set (v := toLowerCase (trim (orElse value EmptyString))).
  literal_cases v. auto.
Qed.

(** X3. [asAppearance], [asSize] and [asRenderMode] return a member of
    their enumeration for every input, and return a member as it is: applied
    to their own result they give it back. *)
Theorem normalisers_total_and_idempotent :
  forall value : option string,
    In (asAppearance value) appearances
    /\ asAppearance (Some (asAppearance value)) = asAppearance value
    /\ In (asSize value) sizes
    /\ asSize (Some (asSize value)) = asSize value
    /\ asRenderMode (Some (renderModeName (asRenderMode value)))
       = asRenderMode value.
Proof.
  intros value.
  pose proof (asAppearance_member value) as A.
  pose proof (asSize_member value) as B.
  repeat split; auto.
  - revert A. generalize (asAppearance value). intros x Hx.
    simpl in Hx. intuition (subst; reflexivity).
  - revert B. generalize (asSize value). intros x Hx.
    simpl in Hx. intuition (subst; reflexivity).
  - destruct (asRenderMode value); reflexivity.
Qed.

(** ** [parseActionCommand] and the dispatch of [updateView] *)

Lemma typeOf_object (v : JsonValue) :
  isNull v || negb (typeOf v =? "object") || isArray v = false ->
  exists members, v = JObject members.
Proof.
  destruct v; simpl; intros H; try discriminate H.
  eexists; reflexivity.
Qed.

Lemma trimmedString_some (v : option JsonValue) :
  trimmedString v <> EmptyString ->
  exists s, v = Some (JString s) /\ trimmedString v = trim s.
Proof.
  destruct v as [[]|]; simpl; intros H; try (exfalso; apply H; reflexivity).
  eexists; split; reflexivity.
Qed.

Lemma toLowerCase_nonempty (s : string) :
  toLowerCase s <> EmptyString -> s <> EmptyString.
Proof. destruct s; simpl; intros H E; [apply H; reflexivity | discriminate E]. Qed.

(** X4. [parseActionCommand] returns a command exactly for the payloads
    that parse to a JSON object whose [id] is a string that is not blank and
    whose [action] is a string that, trimmed and in lower case, names the
    action; the command carries the trimmed [id] and the payload itself as
    [raw]. *)
Theorem parseActionCommand_accepts :
  forall (JSON_parse : string -> option JsonValue) (raw : string)
         (c : CommandRequest),
    command (parseActionCommand JSON_parse raw) = Some c
    <-> exists members id action,
          JSON_parse raw = Some (JObject members)
          /\ getMember "id" members = Some (JString id)
          /\ trim id <> EmptyString
          /\ getMember "action" members = Some (JString action)
          /\ toLowerCase (trim action) = actionName (cmd_action c)
          /\ c = mkCommandRequest (trim id) (cmd_action c) raw.
Proof.
  intros JSON_parse raw c. unfold parseActionCommand. split.
  - destruct (JSON_parse raw) as [parsed|] eqn:P; [|discriminate].
    destruct (isNull parsed || negb (typeOf parsed =? "object") || isArray parsed)
      eqn:T; [discriminate|].
    destruct (typeOf_object parsed T) as [members ->]. cbv zeta.
    destruct (isEmpty (trimmedString (getMember "id" members))) eqn:I;
      [discriminate|].
    apply isEmpty_false in I.
    destruct (trimmedString_some _ I) as [id [Gid Tid]].
    assert (A : forall a,
               toLowerCase (trimmedString (getMember "action" members))
               = actionName a ->
               exists action,
                 getMember "action" members = Some (JString action)
                 /\ toLowerCase (trim action) = actionName a).
    { intros a E.
      assert (N : trimmedString (getMember "action" members) <> EmptyString).
      { apply toLowerCase_nonempty. rewrite E. destruct a; discriminate. }
      destruct (trimmedString_some _ N) as [action [Ga Ta]].
      exists action. split; [exact Ga|]. rewrite <- Ta. exact E. }
    destruct (String.eqb_spec
                (toLowerCase (trimmedString (getMember "action" members)))
                "print") as [E1|E1].
    { intros H. injection H as <-. destruct (A Print E1) as [action [Ga La]].
      exists members, id, action. simpl. rewrite Tid in *. auto 10. }
    destruct (String.eqb_spec
                (toLowerCase (trimmedString (getMember "action" members)))
                "download") as [E2|E2]; [|discriminate].
    intros H. injection H as <-. destruct (A Download E2) as [action [Ga La]].
    exists members, id, action. simpl. rewrite Tid in *. auto 10.
  - intros [members [id [action [P [Gid [Nid [Ga [La Ec]]]]]]]].
    rewrite P. simpl. rewrite Gid, Ga. simpl.
    assert (I : isEmpty (trim id) = false)
      by (destruct (trim id); [contradiction | reflexivity]).
    rewrite I, La, Ec. simpl.
    destruct (cmd_action c); reflexivity.
Qed.

Lemma parseActionCommand_accepts_witness :
  command (parseActionCommand readJson payloadUpperCase)
  = Some (mkCommandRequest "1" Print payloadUpperCase).
Proof.
  apply (proj2 (parseActionCommand_accepts readJson payloadUpperCase
                  (mkCommandRequest "1" Print payloadUpperCase))).
  exists [("id", JString "1"); ("action", JString "PRINT")], "1", "PRINT".
  repeat split; vm_compute; congruence.
Defined.

(** X5. The result of [parseActionCommand] holds a command or an error
    message, never both and never neither, and the message is one of the
    four of the function. *)
Theorem parseActionCommand_command_or_error :
  forall (JSON_parse : string -> option JsonValue) (raw : string),
    let r := parseActionCommand JSON_parse raw in
    (exists c, command r = Some c /\ error r = None)
    \/ (command r = None
        /\ exists m, error r = Some m
                     /\ In m [errInvalidJson; errNotObject; errIdRequired;
                              errAction]).
Proof.
  intros JSON_parse raw. unfold parseActionCommand.
  destruct (JSON_parse raw) as [parsed|].
  2:{ right. split; [reflexivity|]. eexists. split; [reflexivity|].
      simpl; auto. }
  destruct (isNull parsed || negb (typeOf parsed =? "object") || isArray parsed).
  { right. split; [reflexivity|]. eexists. split; [reflexivity|].
    simpl; auto. }
  cbv zeta.
  destruct (isEmpty _).
  { right. split; [reflexivity|]. eexists. split; [reflexivity|].
    simpl; auto. }
  destruct (_ =? "print")%string.
  { left. eexists. split; reflexivity. }
  destruct (_ =? "download")%string.
  { left. eexists. split; reflexivity. }
  right. split; [reflexivity|]. eexists. split; [reflexivity|].
  simpl; auto.
Qed.

(** X6. [handlePopupCommand] writes exactly one acknowledgment, for the
    [id] and the [action] of the command, whatever the command and the
    document: it reports [completed] only for a print command on a document
    that is not blank whose popup opened, and it tries to open the popup
    only for a print command on a document that is not blank. *)
Theorem handlePopupCommand_one_ack :
  forall (c : Component) (env : HostEnv) (cmd : CommandRequest)
         (html : string),
    let r := handlePopupCommand c env cmd html in
    let printable :=
      negb (isBlank html)
      && match cmd_action cmd with Print => true | Download => false end in
    exists ack,
      acksOf (snd r) = [ack]
      /\ lastCommandAck (fst r) = Some ack
      /\ ack_id ack = cmd_id cmd
      /\ ack_action ack = actionName (cmd_action cmd)
      /\ ack_status ack
         = (if printable && env_popupOpens env then Completed else Error)
      /\ existsb isPopup (snd r) = printable.
Proof.
  intros c env cmd html. unfold handlePopupCommand.
  destruct (isBlank html); simpl.
  { eexists. repeat split. }
  destruct (cmd_action cmd); simpl.
  - destruct (env_popupOpens env); eexists; repeat split.
  - eexists. repeat split.
Qed.

Lemma dispatchActionCommand_fields (JSON_parse : string -> option JsonValue)
  (c : Component) (env : HostEnv) (mode : RenderMode) (html raw : string) :
  let c' := fst (dispatchActionCommand JSON_parse c env mode html raw) in
  htmlText c' = htmlText c /\ htmlTextRaw c' = htmlTextRaw c
  /\ lastActionCommandRaw c' = raw.
Proof.
  unfold dispatchActionCommand.
  destruct (String.eqb_spec raw (lastActionCommandRaw c)) as [E|E]; simpl.
  { auto. }
  destruct (isEmpty raw); simpl; [auto|].
  destruct (command (parseActionCommand JSON_parse raw)) as [cmd|]; simpl;
    [|auto].
  destruct mode; simpl; [auto|].
  unfold handlePopupCommand.
  destruct (isBlank html); simpl; [auto|].
  destruct (cmd_action cmd); simpl; auto.
Qed.

Lemma dispatchActionCommand_same (JSON_parse : string -> option JsonValue)
  (c : Component) (env : HostEnv) (mode : RenderMode) (html : string) :
  dispatchActionCommand JSON_parse c env mode html (lastActionCommandRaw c)
  = (c, []).
Proof.
  unfold dispatchActionCommand. rewrite String.eqb_refl. reflexivity.
Qed.

(** X7. A second [updateView] with the same inputs does nothing: no
    notification, no acknowledgment, no popup, the same fields and the same
    element, whatever the first call did and whatever the time is. *)
Theorem updateView_idempotent :
  forall (JSON_parse : string -> option JsonValue) (c : Component)
         (env env' : HostEnv) (inputs : Inputs),
    let first := updateView JSON_parse c env inputs in
    updateView JSON_parse (fst (fst first)) env' inputs
    = (fst (fst first), [], snd first).
Proof.
  intros JSON_parse c env env' inputs. unfold updateView. cbv zeta.
  set (html := orElse (in_html inputs) EmptyString).
  set (hb := applyLineBreakToken html
               (normalizeLineBreakToken (in_lineBreakToken inputs))).
  set (raw := trim (orElse (in_actionCommand inputs) EmptyString)).
  set (mode := asRenderMode (in_renderMode inputs)).
  set (c1 := mkComponent (lastCommandAck c) hb html (pdfBase64 c)
               (pdfFileName c) (pdfStatus c) (lastActionCommandRaw c)
               (pendingInlineCommand c)).
  pose proof (dispatchActionCommand_fields JSON_parse c1 env mode hb raw) as F.
  destruct (dispatchActionCommand JSON_parse c1 env mode hb raw) as [c2 ev2].
  simpl in F. destruct F as [F1 [F2 F3]]. simpl.
  assert (E : mkComponent (lastCommandAck c2) hb html (pdfBase64 c2)
                (pdfFileName c2) (pdfStatus c2) (lastActionCommandRaw c2)
                (pendingInlineCommand c2) = c2).
  { destruct c2; simpl in *. subst. reflexivity. }
  rewrite E. rewrite F1, F2, !String.eqb_refl. simpl.
  rewrite <- F3 at 1. rewrite dispatchActionCommand_same. reflexivity.
Qed.

(** X8. In inline mode a new payload that parses to a command is
    acknowledged by nothing yet: [updateView] keeps the command in
    [pendingInlineCommand] and hands it to the preview as its
    [commandRequest], with the document it just computed. *)
Theorem updateView_inline_command :
  forall (JSON_parse : string -> option JsonValue) (c : Component)
         (env : HostEnv) (inputs : Inputs) (cmd : CommandRequest),
    let raw := trim (orElse (in_actionCommand inputs) EmptyString) in
    raw <> lastActionCommandRaw c ->
    raw <> EmptyString ->
    command (parseActionCommand JSON_parse raw) = Some cmd ->
    asRenderMode (in_renderMode inputs) = Inline ->
    let r := updateView JSON_parse c env inputs in
    acksOf (snd (fst r)) = []
    /\ existsb isPopup (snd (fst r)) = false
    /\ pendingInlineCommand (fst (fst r)) = Some cmd
    /\ lastCommandAck (fst (fst r)) = lastCommandAck c
    /\ snd r = PrintPreviewElement (htmlText (fst (fst r))) (Some cmd).
Proof.
  intros JSON_parse c env inputs cmd raw Hnew Hne Hparse Hmode.
  unfold updateView. cbv zeta. fold raw. rewrite Hmode.
  unfold dispatchActionCommand. simpl.
  destruct (String.eqb_spec raw (lastActionCommandRaw c)) as [E|_];
    [contradiction|].
  simpl. destruct (isEmpty raw) eqn:I; [apply isEmpty_true in I; contradiction|].
  simpl. rewrite Hparse. simpl.
  destruct (negb _ || negb _); simpl; auto.
Qed.

Lemma updateView_inline_command_witness :
  let r := updateView readJson initialComponent exampleEnv
             (inputsWithCommand payloadUpperCase) in
  acksOf (snd (fst r)) = []
  /\ existsb isPopup (snd (fst r)) = false
  /\ pendingInlineCommand (fst (fst r))
     = Some (mkCommandRequest "1" Print payloadUpperCase)
  /\ lastCommandAck (fst (fst r)) = lastCommandAck initialComponent
  /\ snd r = PrintPreviewElement (htmlText (fst (fst r)))
               (Some (mkCommandRequest "1" Print payloadUpperCase)).
Proof.
  apply (updateView_inline_command readJson initialComponent exampleEnv
           (inputsWithCommand payloadUpperCase)
           (mkCommandRequest "1" Print payloadUpperCase));
    vm_compute; congruence.
Defined.

(** ** Line breaks *)

Lemma normalizeLineBreakToken_nonempty (value : option string) :
  isEmpty (normalizeLineBreakToken value) = false.
Proof.
  unfold normalizeLineBreakToken, orIfEmpty. cbv zeta.
  destruct (isEmpty (trim (orElse value EmptyString))) eqn:E;
    [reflexivity | exact E].
Qed.

Lemma replaceToken_absent (token : string) : forall s : string,
  includes s token = false -> replaceToken 0 token s = s.
Proof.
  induction s as [|ch r IH]; intros H; [reflexivity|].
  change (includes (String ch r) token)
    with (String.prefix token (String ch r) || includes r token) in H.
  apply orb_false_iff in H. destruct H as [P I].
  change (replaceToken 0 token (String ch r))
    with (if String.prefix token (String ch r)
          then ("<br />" ++ replaceToken (String.length token - 1) token r)%string
          else String ch (replaceToken 0 token r)).
  rewrite P, (IH I). reflexivity.
Qed.

(** X9. The document [updateView] publishes: [htmlTextRaw] is the input
    as it came, and [htmlText] is the input with every occurrence of the
    normalised token, taken from left to right, replaced by a line break.
    The early returns of [applyLineBreakToken] change nothing in this: the
    normalised token is never empty, and a text without the token is its own
    replacement. *)
Theorem updateView_publishes_line_breaks :
  forall (JSON_parse : string -> option JsonValue) (c : Component)
         (env : HostEnv) (inputs : Inputs),
    let c' := fst (fst (updateView JSON_parse c env inputs)) in
    let html := orElse (in_html inputs) EmptyString in
    htmlTextRaw c' = html
    /\ htmlText c'
       = replaceToken 0 (normalizeLineBreakToken (in_lineBreakToken inputs))
           html.
Proof.
  intros JSON_parse c env inputs. unfold updateView. cbv zeta.
  set (html := orElse (in_html inputs) EmptyString).
  set (token := normalizeLineBreakToken (in_lineBreakToken inputs)).
  set (c1 := mkComponent _ _ _ _ _ _ _ _).
  pose proof (dispatchActionCommand_fields JSON_parse c1 env
                (asRenderMode (in_renderMode inputs))
                (applyLineBreakToken html token)
                (trim (orElse (in_actionCommand inputs) EmptyString))) as F.
  destruct (dispatchActionCommand _ _ _ _ _ _) as [c2 ev2].
  simpl in F. destruct F as [F1 [F2 _]]. simpl.
  split; [exact F2|]. rewrite F1.
  unfold applyLineBreakToken.
  pose proof (normalizeLineBreakToken_nonempty (in_lineBreakToken inputs)) as N.
  fold token in N. rewrite N, orb_false_r.
  destruct html as [|ch r]; [reflexivity|]. simpl isEmpty. cbv iota.
  destruct (includes (String ch r) token) eqn:I; simpl negb; cbv iota.
  - reflexivity.
  - symmetry. apply replaceToken_absent. exact I.
Qed.

(** ** The export *)

(** X10. What one call of [handleDownload] tells [onPdfOutput]: nothing
    when the call is refused or swallowed by the debounce, and otherwise
    [generating] followed by exactly one final status, [ready] when the
    document was produced and [error] when any step failed. The promise is
    rejected exactly in the refused case and in the failed one. *)
Theorem handleDownload_statuses :
  forall (ready downloading : bool) (refs : DownloadRefs) (now : Z)
         (iframeAvailable : bool) (generated : Result (string * string)),
    let entry :=
      entryOf (handleDownload_enter ready downloading refs now iframeAvailable) in
    let r := handleDownload ready downloading refs now iframeAvailable generated in
    statusesOf (eventsOf r)
    = match entry, generated with
      | EntryProceed, Ok _ => [StGenerating; StReady]
      | EntryProceed, Err _ => [StGenerating; StError]
      | _, _ => []
      end
    /\ snd r
       = match entry, generated with
         | EntryThrow message, _ => Err message
         | EntryProceed, Err message => Err message
         | _, _ => Ok tt
         end.
Proof.
  intros ready downloading refs now iframeAvailable generated.
  unfold handleDownload, handleDownload_enter, entryOf, eventsOf.
  destruct ready; simpl; [|split; reflexivity].
  destruct (downloading || downloadInFlightRef refs); simpl;
    [split; reflexivity|].
  destruct (now - lastDownloadStartedAtRef refs <? 1500)%Z; simpl;
    [split; reflexivity|].
  destruct iframeAvailable; simpl; [|split; reflexivity].
  destruct generated as [[url name]|message]; simpl; split; reflexivity.
Qed.

Lemma segmentRanges_nth (body : list Node) (i : nat) :
  (i < List.length (pageMarkerDivs body))%nat ->
  nth i (segmentRanges body) createRange
  = segmentRange (pageMarkerDivs body) (List.length (flatten body)) i.
Proof.
  intros Hi. unfold segmentRanges.
  exact (nth_map_seq
           (segmentRange (pageMarkerDivs body) (List.length (flatten body)))
           (List.length (pageMarkerDivs body)) i createRange Hi).
Qed.

(** A turn of the loop over the markers always captures its segment. *)
Lemma renderRangeSegment_captures (html2canvas : Node -> Result Canvas)
  (body : list Node) (i : nat) :
  (i < List.length (pageMarkerDivs body))%nat ->
  let range :=
    segmentRange (pageMarkerDivs body) (List.length (flatten body)) i in
  renderNodeSegmentAsCanvas html2canvas (cloneContents body range)
  = (canvas <- html2canvas (segmentHost (cloneContents body range)) ;;
     Ok (Some canvas)).
Proof.
  intros Hi range. unfold renderNodeSegmentAsCanvas.
  pose proof (marker_segment_significant body i Hi) as S.
  rewrite (segmentRanges_nth body i Hi) in S. fold range in S.
  destruct (filter _ (cloneContents body range)); [contradiction|].
  reflexivity.
Qed.

Lemma markerLoop_pages (html2canvas : Node -> Result Canvas)
  (embedPng : Canvas -> Result PngImage) (cv : Node -> Canvas)
  (png : Canvas -> PngImage) (body : list Node) :
  (forall n, html2canvas n = Ok (cv n)) ->
  (forall c, embedPng c = Ok (png c)) ->
  forall (indices : list nat) (pdfDoc : PdfDocument),
    Forall (fun i => (i < List.length (pageMarkerDivs body))%nat) indices ->
    markerLoop html2canvas embedPng body (pageMarkerDivs body) indices pdfDoc
    = Ok (mkPdfDocument (doc_title pdfDoc)
            (doc_pages pdfDoc
             ++ map (fun i =>
                       singlePage
                         (png (cv (segmentHost
                                     (cloneContents body
                                        (segmentRange (pageMarkerDivs body)
                                           (List.length (flatten body)) i))))))
                  indices)).
Proof.
  intros Hcap Hemb.
  induction indices as [|i rest IH]; intros pdfDoc Hall.
  - simpl. rewrite app_nil_r. destruct pdfDoc; reflexivity.
  - inversion Hall as [|? ? Hi Hrest]; subst.
    cbn [markerLoop]. unfold addSegment.
    rewrite (renderRangeSegment_captures html2canvas body i Hi).
    rewrite Hcap. simpl. unfold addCanvasAsSinglePage. rewrite Hemb. simpl.
    rewrite (IH _ Hrest). simpl. rewrite <- app_assoc. reflexivity.
Qed.

(** X11. With page markers, and a capture and an embedding that succeed,
    the export adds exactly one page per marker, in the order of the
    markers: page [i] is the single page of the clone of range [i], scaled
    to fit and never sliced, and the pages the document already had and its
    title are kept. No segment is skipped. *)
Theorem paginate_one_page_per_marker :
  forall (html2canvas : Node -> Result Canvas)
         (embedPng : Canvas -> Result PngImage) (cv : Node -> Canvas)
         (png : Canvas -> PngImage) (body : list Node) (pdfDoc : PdfDocument),
    (forall n, html2canvas n = Ok (cv n)) ->
    (forall c, embedPng c = Ok (png c)) ->
    pageMarkerDivs body <> [] ->
    paginate html2canvas embedPng body pdfDoc
    = Ok (mkPdfDocument (doc_title pdfDoc)
            (doc_pages pdfDoc
             ++ map (fun range =>
                       singlePage
                         (png (cv (segmentHost (cloneContents body range)))))
                  (segmentRanges body))).
Proof.
  intros html2canvas embedPng cv png body pdfDoc Hcap Hemb Hm.
  unfold paginate. cbv zeta.
  destruct (pageMarkerDivs body) as [|m ms] eqn:E; [contradiction|].
  change (0 <? List.length (m :: ms))%nat with true. cbv iota.
  rewrite <- E.
  rewrite (markerLoop_pages html2canvas embedPng cv png body Hcap Hemb).
  - unfold segmentRanges. rewrite map_map. reflexivity.
  - apply Forall_forall. intros i Hi. apply in_seq in Hi. lia.
Qed.

Lemma paginate_one_page_per_marker_witness :
  paginate (fun _ => Ok (mkCanvas 800 600))
    (fun c => Ok (mkPngImage (canvas_width c) (canvas_height c)))
    exampleBody (createDocument "Document")
  = Ok (mkPdfDocument "Document"
          (map (fun range => singlePage (mkPngImage 800 600))
             (segmentRanges exampleBody))).
Proof.
  apply (paginate_one_page_per_marker
           (fun _ => Ok (mkCanvas 800 600))
           (fun c => Ok (mkPngImage (canvas_width c) (canvas_height c)))
           (fun _ => mkCanvas 800 600)
           (fun c => mkPngImage (canvas_width c) (canvas_height c))
           exampleBody (createDocument "Document")).
  - reflexivity.
  - reflexivity.
  - vm_compute. discriminate.
Defined.

Lemma paginate_capture_fails (embedPng : Canvas -> Result PngImage)
  (e : string) (body : list Node) (pdfDoc : PdfDocument) :
  paginate (fun _ => Err e) embedPng body pdfDoc = Err e.
Proof.
  unfold paginate. cbv zeta.
  destruct (pageMarkerDivs body) as [|m ms] eqn:E; [reflexivity|].
  change (0 <? List.length (m :: ms))%nat with true. cbv iota.
  rewrite <- E.
  assert (H0 : (0 < List.length (pageMarkerDivs body))%nat)
    by (rewrite E; simpl; lia).
  rewrite E at 2. cbn [List.length seq markerLoop]. unfold addSegment.
  rewrite (renderRangeSegment_captures (fun _ => Err e) body 0 H0).
  reflexivity.
Qed.

(** X12. A capture that fails fails the export, whatever the document:
    with or without page markers [html2canvas] is called before any page is
    added, so the export that was let in reports [generating], then [error]
    with the message of the capture, saves no file, clears the in-flight
    flag and rejects with that message. *)
Theorem capture_failure_fails_export :
  forall (embedPng : Canvas -> Result PngImage)
         (saveAsDataUrl : PdfDocument -> Result string)
         (e title downloadFileName : string) (body : list Node)
         (downloading : bool) (refs : DownloadRefs) (now : Z),
    let r := download (fun _ => Err e) embedPng saveAsDataUrl title
               downloadFileName body true downloading refs now in
    (downloading || downloadInFlightRef refs = false) ->
    (1500 <= now - lastDownloadStartedAtRef refs)%Z ->
    eventsOf r
    = [OnBeforeDownload;
       OnPdfOutput (mkPdfOutputUpdate StGenerating None None None);
       SetDownloading true;
       OnPdfOutput (mkPdfOutputUpdate StError None None (Some e));
       SetDownloading false]
    /\ snd r = Err e
    /\ refsOf r = mkDownloadRefs false now.
Proof.
  intros embedPng saveAsDataUrl e title downloadFileName body downloading
    refs now r Hfree Hlate.
  unfold r, download, generatePdf. cbv zeta.
  rewrite paginate_capture_fails.
  unfold handleDownload, handleDownload_enter, eventsOf, refsOf.
  simpl negb. cbv iota. rewrite Hfree.
  replace (now - lastDownloadStartedAtRef refs <? 1500)%Z with false
    by (symmetry; apply Z.ltb_ge; exact Hlate).
  simpl. auto.
Qed.

Lemma capture_failure_fails_export_witness :
  let r := download (fun _ => Err "tainted canvas")
             (fun c => Ok (mkPngImage (canvas_width c) (canvas_height c)))
             (fun _ => Ok "data:application/pdf;base64,AA")
             "Report" "report" exampleBody true false
             (mkDownloadRefs false 0) 5000 in
  eventsOf r
  = [OnBeforeDownload;
     OnPdfOutput (mkPdfOutputUpdate StGenerating None None None);
     SetDownloading true;
     OnPdfOutput (mkPdfOutputUpdate StError None None (Some "tainted canvas"));
     SetDownloading false]
  /\ snd r = Err "tainted canvas"
  /\ refsOf r = mkDownloadRefs false 5000.
Proof.
  apply (capture_failure_fails_export
           (fun c => Ok (mkPngImage (canvas_width c) (canvas_height c)))
           (fun _ => Ok "data:application/pdf;base64,AA")
           "tainted canvas" "Report" "report" exampleBody false
           (mkDownloadRefs false 0) 5000).
  - reflexivity.
  - simpl. lia.
Defined.

(** ** The name of the saved file *)

Lemma toLowerCase_app (a b : string) :
  toLowerCase (a ++ b)%string = (toLowerCase a ++ toLowerCase b)%string.
Proof. induction a as [|c a IH]; simpl; [|rewrite IH]; reflexivity. Qed.

Lemma string_length_app (a b : string) :
  String.length (a ++ b)%string = (String.length a + String.length b)%nat.
Proof. induction a as [|c a IH]; simpl; [|rewrite IH]; reflexivity. Qed.

Lemma substring_whole (p : string) : substring 0 (String.length p) p = p.
Proof. induction p as [|c p IH]; simpl; [|rewrite IH]; reflexivity. Qed.

Lemma substring_app (a p : string) :
  substring (String.length a) (String.length p) (a ++ p)%string = p.
Proof. induction a as [|c a IH]; simpl; [apply substring_whole | exact IH]. Qed.

Lemma endsWith_app (a p : string) : endsWith (a ++ p)%string p = true.
Proof.
  unfold endsWith. cbv zeta. rewrite string_length_app.
  replace (String.length a + String.length p - String.length p)%nat
    with (String.length a) by lia.
  rewrite substring_app, String.eqb_refl, andb_true_r.
  apply Nat.leb_le. lia.
Qed.

(** X13. The name given to the saved file always ends in [.pdf], in any
    mix of upper and lower case; a name that already does is kept as it is
    once trimmed, and every other name gets the extension appended. *)
Theorem downloadName_has_extension :
  forall downloadFileName : string,
    let name := trim (orIfEmpty downloadFileName "document.pdf") in
    endsWith (toLowerCase (downloadName downloadFileName)) ".pdf" = true
    /\ (downloadName downloadFileName = name
        \/ downloadName downloadFileName = (name ++ ".pdf")%string
           /\ endsWith (toLowerCase name) ".pdf" = false).
Proof.
  intros downloadFileName name. unfold downloadName. cbv zeta. fold name.
  destruct (endsWith (toLowerCase name) ".pdf") eqn:E.
  - split; [exact E | left; reflexivity].
  - split; [|right; split; reflexivity].
    rewrite toLowerCase_app. apply endsWith_app.
Qed.

(** ** Placement on the pages of a sliced export *)

Lemma turnsLeft_running (scaledHeight offsetY : Q) :
  turnsLeft scaledHeight offsetY <> 0%nat -> offsetY < scaledHeight.
Proof.
  intros H. destruct (Qlt_le_dec offsetY scaledHeight) as [L|G]; [exact L|].
  exfalso. apply H. apply turnsLeft_done. exact G.
Qed.

(** Every offset the loop uses is below the scaled height. *)
Lemma offsets_below (scaledHeight : Q) (k : nat) :
  forall (n : nat) (offsetY : Q),
    turnsLeft scaledHeight offsetY = n ->
    (k < n)%nat ->
    offsetY + inject_Z (Z.of_nat k) * availableHeight < scaledHeight.
Proof.
  induction k as [|k IH]; intros n offsetY Hn Hk.
  - assert (L : offsetY < scaledHeight)
      by (apply turnsLeft_running; rewrite Hn; lia).
    change (inject_Z (Z.of_nat 0)) with 0. lra.
  - assert (L : offsetY < scaledHeight)
      by (apply turnsLeft_running; rewrite Hn; lia).
    rewrite (turnsLeft_step _ _ L) in Hn.
    destruct n as [|n]; [lia|]. injection Hn as Hn.
    pose proof (IH n (offsetY + availableHeight) Hn ltac:(lia)) as B.
    replace (Z.of_nat (S k)) with (Z.of_nat k + 1)%Z by lia.
    rewrite inject_Z_plus. change (inject_Z 1) with 1. lra.
Qed.

(** X14. The pages of a sliced export are not clipped. For an embedded
    image of positive width, every page [addCanvasAsSlicedPages] adds holds
    one image, drawn at its full scaled height [H]; on page [k] (from 0) of
    the pages added its upper edge lies [k] available heights above the
    upper margin line. So on every page after the first the image covers
    the upper margin, and on every page before the last it covers the
    lower one. *)
Theorem sliced_pages_shift_whole_image :
  forall (embedPng : Canvas -> Result PngImage) (canvas : Canvas)
         (png : PngImage) (pdfDoc : PdfDocument),
    embedPng canvas = Ok png ->
    (0 < png_width png)%Z ->
    (0 <= png_height png)%Z ->
    let H := inject_Z (png_height png)
             * (availableWidth / inject_Z (png_width png)) in
    exists added,
      addCanvasAsSlicedPages embedPng canvas pdfDoc
      = Ok (mkPdfDocument (doc_title pdfDoc) (doc_pages pdfDoc ++ added))
      /\ forall (k : nat) (page : PdfPage),
           nth_error added k = Some page ->
           exists img,
             page = mkPdfPage pageWidth pageHeight [img]
             /\ imageTop img - imageBottom img == H
             /\ imageTop img
                == pageHeight - margin
                   + inject_Z (Z.of_nat k) * availableHeight
             /\ ((0 < k)%nat -> pageHeight - margin < imageTop img)
             /\ ((S k < List.length added)%nat -> imageBottom img < margin).
Proof.
  intros embedPng canvas png pdfDoc Hemb Hw Hh H.
  set (n := turnsLeft H 0).
  exists (map (slicePage png availableWidth H) (offsets 0 n)).
  split.
  { unfold addCanvasAsSlicedPages. rewrite Hemb. simpl bind. cbv zeta.
    fold H.
    rewrite (sliceLoop_pages png availableWidth H n 0 pdfDoc eq_refl).
    reflexivity. }
  intros k page Hpage.
  assert (Hk : (k < n)%nat).
  { rewrite <- (offsets_length n 0), <- (length_map (slicePage png availableWidth H)).
    apply nth_error_Some. rewrite Hpage. discriminate. }
  destruct (offsets_nth n 0 k Hk) as (o & Ho & Eo).
  rewrite nth_error_map, Ho in Hpage. simpl in Hpage. injection Hpage as <-.
  unfold slicePage. eexists. split; [reflexivity|].
  unfold imageTop, imageBottom. simpl.
  rewrite length_map, offsets_length.
  assert (Eo' : o == inject_Z (Z.of_nat k) * availableHeight)
    by (rewrite Eo; lra).
  split; [|split; [|split]].
  - ring.
  - rewrite Eo'. ring.
  - intros Hpos.
    assert (P : 0 < inject_Z (Z.of_nat k) * availableHeight).
    { apply Qmult_lt_0_compat; [|reflexivity].
      change 0 with (inject_Z 0). rewrite <- Zlt_Qlt. lia. }
    rewrite Eo'. lra.
  - intros Hnext.
    pose proof (offsets_below H (S k) n 0 eq_refl Hnext) as B.
    replace (Z.of_nat (S k)) with (Z.of_nat k + 1)%Z in B by lia.
    rewrite inject_Z_plus in B. change (inject_Z 1) with 1 in B.
    rewrite Eo'. unfold availableHeight in *. lra.
Qed.

Lemma sliced_pages_shift_whole_image_witness :
  exists added,
    addCanvasAsSlicedPages (fun c => Ok (mkPngImage (canvas_width c) (canvas_height c)))
      (mkCanvas 1000 3000) (createDocument "Document")
    = Ok (mkPdfDocument "Document" added)
    /\ List.length added = 3%nat.
Proof.
  destruct (sliced_pages_shift_whole_image
              (fun c => Ok (mkPngImage (canvas_width c) (canvas_height c)))
              (mkCanvas 1000 3000) (mkPngImage 1000 3000)
              (createDocument "Document") eq_refl)
    as (added & Hadd & _).
  - reflexivity.
  - simpl. lia.
  - exists added. split; [exact Hadd|].
    vm_compute in Hadd. injection Hadd as <-. reflexivity.
Defined.

(** ** The command queue of the preview *)




(** X16. A download command that the executing effect runs less than
    1500 ms after the start of the last export is swallowed by the
    debounce and still acknowledged as completed: the handler is called,
    nothing is exported or reported to [onPdfOutput], and the command is
    done with. *)
Theorem debounced_command_reports_completed :
  forall (st : PreviewState) (c : CommandRequest) (iframeAvailable : bool)
         (now : Z),
    pendingCommand st = Some c ->
    cmd_action c = Download ->
    executingCommandRawRef st <> cmd_raw c ->
    completedCommandRawRef st <> cmd_raw c ->
    isBlank (html st) = false ->
    ready st = true ->
    downloading st = false ->
    downloadInFlightRef (downloadRefs st) = false ->
    (now - lastDownloadStartedAtRef (downloadRefs st) < 1500)%Z ->
    let r := previewStep st (ExecuteEffectRuns iframeAvailable now) in
    snd r = [Executed c; CommandResultOut c (commandCompleted c)]
    /\ pendingCommand (fst r) = None
    /\ completedCommandRawRef (fst r) = cmd_raw c
    /\ suspended (fst r) = suspended st
    /\ downloadRefs (fst r) = downloadRefs st.
Proof.
  intros st c ifr now Hp Ha Hx Hc Hb Hr Hd Hf Hnow. simpl.
  unfold executeEffect. rewrite Hp.
  apply String.eqb_neq in Hx, Hc. rewrite Hx, Hc, Hb, Hr, Hd. simpl.
  unfold execute. simpl. rewrite Ha.
  unfold handleDownload_enter. simpl. rewrite ?Hr, ?Hd, ?Hf. simpl.
  replace (now - lastDownloadStartedAtRef (downloadRefs st) <? 1500)%Z
    with true by (symmetry; apply Z.ltb_lt; exact Hnow).
  simpl. auto.
Qed.

Lemma debounced_command_reports_completed_witness :
  snd (previewStep shortlyAfterExport (ExecuteEffectRuns true 5000))
  = [Executed downloadA; CommandResultOut downloadA (commandCompleted downloadA)].
Proof.
  refine (proj1 (debounced_command_reports_completed shortlyAfterExport
                   downloadA true 5000 _ _ _ _ _ _ _ _ _));
    vm_compute; congruence.
Defined.

Lemma settledQueue_step (raw : string) (st : PreviewState) (ev : PreviewEvent) :
  settledQueue raw st ->
  onlyDelivers raw ev ->
  settledQueue raw (fst (previewStep st ev))
  /\ forall r, executions r (snd (previewStep st ev)) = 0%nat
               /\ acknowledgments r (snd (previewStep st ev)) = 0%nat.
Proof.
  intros (Hp & Hl & Hs & Hr) Hev.
  pose proof (previewStep_kind st ev) as K.
  destruct ev as [h'| | |cmd|ifr now|gen|win|ifr now| |];
    try (destruct K as [Kp Kl Kx Ks Kr Kt | Kp Kl Kx Ks Kr Kt
                       | c ack Hp' Hx Kp Kl Kx Ks Kr Kt
                       | c Hp' Hx Kp Kl Kx Ks Kr Kt | c Hp' Hx Kp Kl Kx Ks Kr Kt
                       | owner outcome Hs' Ks Kp Kl Kx Kr Kt
                       | c outcome rest Hr' Kr Ks Kp Kl Kx Kt];
         try congruence;
         (split; [|exact Kt]);
         unfold settledQueue; rewrite ?Kp, ?Kl, ?Kr;
         [ repeat split; auto; try congruence;
           destruct Ks as [Ks|Ks]; rewrite Ks; auto
         | repeat split; auto; try congruence; rewrite Ks; exact Hs
         | repeat split; auto; try congruence;
           rewrite Hr; destruct owner as [oc|]; [|reflexivity];
           destruct Hs as [Hs|Hs]; congruence ]).
  clear K. simpl in *. split; [|intros r; split; reflexivity].
  destruct cmd as [c|]; simpl; [|unfold settledQueue; auto].
  destruct (isBlank (cmd_raw c)); [unfold settledQueue; auto|].
  rewrite Hl, Hev, String.eqb_refl. unfold settledQueue; auto.
Qed.

Lemma settledQueue_run (raw : string) (evs : list PreviewEvent) :
  forall st : PreviewState,
    settledQueue raw st ->
    Forall (onlyDelivers raw) evs ->
    settledQueue raw (fst (previewRun st evs))
    /\ forall r, executions r (snd (previewRun st evs)) = 0%nat
                 /\ acknowledgments r (snd (previewRun st evs)) = 0%nat.
Proof.
  induction evs as [|ev evs IH]; intros st Hq Hall; simpl.
  - split; [exact Hq | intros r; split; reflexivity].
  - inversion Hall as [|? ? Hev Hrest]; subst.
    destruct (settledQueue_step raw st ev Hq Hev) as [Hq1 Hout1].
    destruct (previewStep st ev) as [st1 out1]. simpl in Hq1, Hout1.
    destruct (IH st1 Hq1 Hrest) as [Hq2 Hout2].
    destruct (previewRun st1 evs) as [st2 out2]. simpl in *.
    split; [exact Hq2|]. intros r.
    rewrite executions_app, acknowledgments_app.
    destruct (Hout1 r) as [-> ->]. destruct (Hout2 r) as [-> ->].
    split; reflexivity.
Qed.

(** X17. A command that arrives while the export of a download command
    is in flight is lost when the rest of [execute] runs right after the
    settlement of [handleDownload], before the executing effect runs
    again: the [finally] block of the running command clears whatever is
    pending, so the newcomer is dropped without an execution and without a
    result, and handing the same request over again, any number of times,
    changes nothing. *)
Theorem command_during_export_is_lost :
  forall (st : PreviewState) (a b : CommandRequest)
         (generated : Result (string * string)) (evs : list PreviewEvent),
    suspended st = Some (Some a) ->
    resuming st = [] ->
    pendingCommand st = Some b ->
    lastQueuedCommandRawRef st = cmd_raw b ->
    cmd_raw b <> cmd_raw a ->
    Forall (onlyDelivers (cmd_raw b)) evs ->
    let r := previewRun st
               (DownloadSettles generated :: ExecuteResumes :: evs) in
    executions (cmd_raw b) (snd r) = 0%nat
    /\ acknowledgments (cmd_raw b) (snd r) = 0%nat
    /\ pendingCommand (fst r) = None.
Proof.
  intros st a b generated evs Hs Hr Hp Hl Hab Hall.
  cbv zeta.
  change (DownloadSettles generated :: ExecuteResumes :: evs)
    with ([DownloadSettles generated; ExecuteResumes] ++ evs).
  rewrite previewRun_app. cbn [fst snd].
  assert (S2 : settledQueue (cmd_raw b)
                 (fst (previewRun st [DownloadSettles generated; ExecuteResumes]))
               /\ executions (cmd_raw b)
                    (snd (previewRun st [DownloadSettles generated; ExecuteResumes]))
                  = 0%nat
               /\ acknowledgments (cmd_raw b)
                    (snd (previewRun st [DownloadSettles generated; ExecuteResumes]))
                  = 0%nat).
  { assert (N : (cmd_raw a =? cmd_raw b)%string = false)
      by (apply String.eqb_neq; congruence).
    cbn [previewRun previewStep]. unfold settleDownload. rewrite Hs.
    destruct generated as [[url name]|m]; simpl;
      unfold resumeExecute; simpl; rewrite Hr; simpl;
      unfold settledQueue, executions, acknowledgments; simpl;
      rewrite N; simpl; repeat split; auto. }
  destruct S2 as (Hq & He & Ha).
  destruct (previewRun st [DownloadSettles generated; ExecuteResumes])
    as [st2 out2]. cbn [fst snd] in *.
  destruct (settledQueue_run (cmd_raw b) evs st2 Hq Hall) as [Hq3 Hout].
  destruct (previewRun st2 evs) as [st3 out3]. cbn [fst snd] in *.
  rewrite executions_app, acknowledgments_app, He, Ha.
  destruct (Hout (cmd_raw b)) as [E1 E2]. rewrite E1, E2.
  destruct Hq3 as (Hp3 & _). auto.
Qed.

Lemma command_during_export_is_lost_witness :
  let r := previewRun duringDownload
             [DownloadSettles (Ok ("data:,", "document.pdf"));
              ExecuteResumes;
              ExecuteEffectRuns true 9000;
              CommandRequestChanged (Some commandB);
              ExecuteEffectRuns true 9100] in
  executions "B" (snd r) = 0%nat
  /\ acknowledgments "B" (snd r) = 0%nat
  /\ pendingCommand (fst r) = None.
Proof.
  apply (command_during_export_is_lost duringDownload downloadA commandB
           (Ok ("data:,", "document.pdf"))
           [ExecuteEffectRuns true 9000;
            CommandRequestChanged (Some commandB);
            ExecuteEffectRuns true 9100]).
  - reflexivity.
  - reflexivity.
  - reflexivity.
  - reflexivity.
  - discriminate.
  - repeat constructor.
Defined.

(** In the other order the newcomer is run: when the executing effect
    runs between the settlement of [handleDownload] and the rest of
    [execute], it finds the newcomer pending and no export running. *)
Example command_during_export_runs_when_effect_comes_first :
  let r := previewRun duringDownload
             [DownloadSettles (Ok ("data:,", "document.pdf"));
              ExecuteEffectRuns true 9000;
              ExecuteResumes] in
  executions "B" (snd r) = 1%nat /\ acknowledgments "B" (snd r) = 1%nat
  /\ acknowledgments "A" (snd r) = 1%nat.
Proof. repeat split; reflexivity. Qed.

(** ** The in-flight ref and the status channel *)

Lemma statusesOf_app (l1 l2 : list UiEvent) :
  statusesOf (l1 ++ l2) = statusesOf l1 ++ statusesOf l2.
Proof. unfold statusesOf. apply flat_map_app. Qed.

(** One call keeps the ref in step with the suspended [try] blocks, and
    its statuses carry the channel from the state of the ref before the
    call to its state after. *)
Lemma exportStep_exclusive (s : ExportState) (call : ExportCall) :
  (exp_running s
   = if downloadInFlightRef (exp_refs s) then 1%nat else 0%nat) ->
  let s' := fst (exportStep s call) in
  (exp_running s'
   = if downloadInFlightRef (exp_refs s') then 1%nat else 0%nat)
  /\ forall rest,
       alternates (downloadInFlightRef (exp_refs s')) rest = true ->
       alternates (downloadInFlightRef (exp_refs s))
         (statusesOf (snd (exportStep s call)) ++ rest) = true.
Proof.
  intros Hinv. destruct s as [refs running]. simpl in Hinv.
  destruct call as [ready downloading now ifr | generated]; simpl.
  - unfold handleDownload_enter.
    destruct ready; simpl; [|split; [exact Hinv | auto]].
    destruct (downloadInFlightRef refs) eqn:Hf.
    + rewrite orb_true_r. simpl. rewrite Hf. split; [exact Hinv | auto].
    + rewrite orb_false_r.
      destruct downloading; simpl; [rewrite Hf; split; [exact Hinv | auto]|].
      destruct (now - lastDownloadStartedAtRef refs <? 1500)%Z; simpl;
        [rewrite Hf; split; [exact Hinv | auto]|].
      destruct ifr; simpl.
      * rewrite Hinv. split; [reflexivity | auto].
      * split; [exact Hinv | auto].
  - destruct running as [|n]; simpl.
    + split; [exact Hinv | auto].
    + destruct (downloadInFlightRef refs) eqn:Hf; [|discriminate Hinv].
      injection Hinv as ->.
      destruct generated as [[url name]|m]; simpl; auto.
Qed.

Lemma exportRun_exclusive (calls : list ExportCall) :
  forall s : ExportState,
    (exp_running s
     = if downloadInFlightRef (exp_refs s) then 1%nat else 0%nat) ->
    let r := exportRun s calls in
    (exp_running (fst r)
     = if downloadInFlightRef (exp_refs (fst r)) then 1%nat else 0%nat)
    /\ alternates (downloadInFlightRef (exp_refs s)) (statusesOf (snd r))
       = true.
Proof.
  induction calls as [|call calls IH]; intros s Hinv; simpl.
  - split; [exact Hinv|]. destruct (downloadInFlightRef (exp_refs s)); reflexivity.
  - destruct (exportStep_exclusive s call Hinv) as [Hinv1 Halt].
    destruct (exportStep s call) as [s1 events1]. cbn [fst snd] in *.
    destruct (IH s1 Hinv1) as [Hinv2 Halt2].
    destruct (exportRun s1 calls) as [s2 events2]. cbn [fst snd] in *.
    split; [exact Hinv2|]. rewrite statusesOf_app. apply Halt. exact Halt2.
Qed.

(** X18. The in-flight ref alone keeps exports apart. Take any sequence
    of invocations of [handleDownload] and settlements of its [try] block,
    each invocation with whatever [ready] and [downloading] the closure of
    its caller holds, stale or not: at most one [try] block is suspended at
    any time, the ref is set exactly while one is, and the statuses handed
    to [onPdfOutput] alternate, [generating] only while no export runs and
    then exactly one [ready] or [error], never [idle]. *)
Theorem exports_never_overlap :
  forall (startedAt : Z) (calls : list ExportCall),
    let r := exportRun (mkExportState (mkDownloadRefs false startedAt) 0)
               calls in
    (exp_running (fst r) <= 1)%nat
    /\ (downloadInFlightRef (exp_refs (fst r)) = true
        <-> exp_running (fst r) = 1%nat)
    /\ alternates false (statusesOf (snd r)) = true.
Proof.
  intros startedAt calls.
  destruct (exportRun_exclusive calls
              (mkExportState (mkDownloadRefs false startedAt) 0) eq_refl)
    as [Hinv Halt].
  cbv zeta. cbv zeta in Hinv, Halt. simpl in Halt.
  destruct (exportRun _ calls) as [s events]. cbn [fst snd] in *.
  rewrite Hinv.
  destruct (downloadInFlightRef (exp_refs s)); repeat split; auto;
    try lia; discriminate.
Qed.

(** ** Where the results come from *)

Lemma reportsOn_outcome (c : CommandRequest) (r : Result unit) :
  reportsOn (CommandResultOut c (commandOutcome c r)) = true.
Proof.
  destruct r; simpl; rewrite String.eqb_refl; destruct (cmd_action c);
    reflexivity.
Qed.

Lemma reportsOn_error (c : CommandRequest) (m : string) :
  reportsOn (CommandResultOut c (commandError c m)) = true.
Proof. exact (reportsOn_outcome c (Err m)). Qed.

Lemma reportsOn_completed (c : CommandRequest) :
  reportsOn (CommandResultOut c (commandCompleted c)) = true.
Proof. exact (reportsOn_outcome c (Ok tt)). Qed.

Lemma fromQueue_ui (st : PreviewState) (events : list UiEvent) :
  Forall (fromQueue st) (map Ui events).
Proof.
  apply Forall_forall. intros o H. apply in_map_iff in H.
  destruct H as [e [<- _]]. split; [reflexivity | discriminate].
Qed.

Lemma fromQueue_pending (st : PreviewState) (c : CommandRequest)
  (o : PreviewOutput) :
  pendingCommand st = Some c ->
  reportsOn o = true ->
  (commandOf o = None \/ commandOf o = Some c) ->
  fromQueue st o.
Proof.
  intros Hp Hr Hc. split; [exact Hr|]. intros c' E.
  destruct Hc as [Hc|Hc]; rewrite Hc in E; [discriminate|].
  injection E as <-. left. exact Hp.
Qed.

Lemma execute_fromQueue (st st0 : PreviewState) (c : CommandRequest)
  (ifr : bool) (now : Z) :
  pendingCommand st = Some c ->
  Forall (fromQueue st) (snd (execute st0 c ifr now)).
Proof.
  intros Hp. unfold execute.
  destruct (cmd_action c).
  - destruct (handlePrint (ready st0) ifr) as [events outcome]. simpl.
    constructor; [apply (fromQueue_pending st c); auto|].
    apply Forall_app. split; [apply fromQueue_ui|].
    constructor; [|constructor].
    apply (fromQueue_pending st c); auto using reportsOn_outcome.
  - destruct (handleDownload_enter (ready st0) (downloading st0)
                (downloadRefs st0) now ifr) as [[refs events] [m| |]]; simpl;
      (constructor; [apply (fromQueue_pending st c); auto|]);
      try apply fromQueue_ui;
      (apply Forall_app; split; [apply fromQueue_ui|]);
      (constructor; [|constructor]);
      apply (fromQueue_pending st c);
      auto using reportsOn_error, reportsOn_completed.
Qed.

Lemma previewStep_fromQueue (st : PreviewState) (ev : PreviewEvent) :
  Forall (fromQueue st) (snd (previewStep st ev)).
Proof.
  destruct ev as [h'| | |cmd|ifr now|gen|win|ifr now| |]; simpl;
    try (constructor; fail).
  - unfold executeEffect.
    destruct (pendingCommand st) as [c|] eqn:Hp; [|constructor].
    destruct (executingCommandRawRef st =? cmd_raw c)%string; [constructor|].
    destruct (completedCommandRawRef st =? cmd_raw c)%string; [constructor|].
    destruct (isBlank (html st)).
    { simpl. constructor; [|constructor].
      apply (fromQueue_pending st c); auto using reportsOn_error. }
    destruct (negb (ready st) || downloading st); [constructor|].
    apply execute_fromQueue. exact Hp.
  - unfold settleDownload.
    destruct (suspended st) as [owner|]; [|constructor].
    destruct (handleDownload_leave (downloadRefs st) gen)
      as [[refs events] outcome]; simpl.
    apply fromQueue_ui.
  - unfold clickPrint. destruct (buttonsDisabled st); simpl;
      [constructor | apply fromQueue_ui].
  - unfold clickDownload. destruct (buttonsDisabled st); simpl; [constructor|].
    destruct (handleDownload_enter (ready st) (downloading st)
                (downloadRefs st) now ifr) as [[refs events] [m| |]];
      simpl; apply fromQueue_ui.
  - unfold resumeExecute.
    destruct (resuming st) as [|[c outcome] rest] eqn:Hr; [constructor|].
    simpl. constructor; [|constructor].
    split; [apply reportsOn_outcome|].
    intros c' E. injection E as <-. right. right. rewrite Hr. simpl. auto.
Qed.

Lemma kind_queue_source (st st' : PreviewState) (out : list PreviewOutput)
  (c : CommandRequest) :
  StepKind st st' out ->
  inProgress st' c -> inProgress st c.
Proof.
  intros K H. unfold inProgress in *.
  destruct K as [Kp Kl Kx Ks Kr Kt | Kp Kl Kx Ks Kr Kt
                | c0 ack Hp' Hx Kp Kl Kx Ks Kr Kt
                | c0 Hp' Hx Kp Kl Kx Ks Kr Kt | c0 Hp' Hx Kp Kl Kx Ks Kr Kt
                | owner outcome Hs' Ks Kp Kl Kx Kr Kt
                | c0 outcome rest Hr' Kr Ks Kp Kl Kx Kt];
    rewrite ?Kp, ?Kr in H.
  - destruct Ks as [Ks|Ks]; rewrite Ks in H; [exact H|].
    destruct H as [H|[H|H]]; auto; discriminate H.
  - rewrite Ks in H. destruct H as [H|H]; [discriminate H | auto].
  - rewrite Ks in H. destruct H as [H|H]; [discriminate H | auto].
  - rewrite Ks in H. destruct H as [H|H]; [discriminate H | auto].
  - rewrite Ks in H.
    destruct H as [H|[H|H]]; [left; congruence | left; congruence | auto].
  - rewrite Ks in H. destruct H as [H|[H|H]]; auto; [discriminate H|].
    rewrite map_app in H. apply in_app_or in H. destruct H as [H|H]; auto.
    destruct owner as [oc|]; simpl in H; [|contradiction].
    destruct H as [<-|[]]. right. left. exact Hs'.
  - rewrite Ks in H. destruct H as [H|[H|H]]; auto; [discriminate H|].
    right. right. rewrite Hr'. simpl. auto.
Qed.

(** Where the commands in progress after a step come from. *)
Lemma previewStep_queue_source (st : PreviewState) (ev : PreviewEvent)
  (c : CommandRequest) :
  inProgress (fst (previewStep st ev)) c ->
  inProgress st c \/ ev = CommandRequestChanged (Some c).
Proof.
  pose proof (previewStep_kind st ev) as K.
  destruct ev as [h'| | |cmd|ifr now|gen|win|ifr now| |];
    try (intros H; left; exact (kind_queue_source st _ _ c K H)).
  clear K. simpl. unfold queueCommand.
  destruct cmd as [q|]; [|auto].
  destruct (isBlank (cmd_raw q)); [auto|].
  destruct (cmd_raw q =? lastQueuedCommandRawRef st)%string; [auto|].
  unfold inProgress. simpl. intros [H|H]; [|left; auto].
  injection H as <-. right. reflexivity.
Qed.

Lemma previewRun_provenance (evs : list PreviewEvent) :
  forall (st : PreviewState) (known : list CommandRequest),
    (forall c, inProgress st c -> In c known) ->
    forall o, In o (snd (previewRun st evs)) ->
      reportsOn o = true
      /\ forall c, commandOf o = Some c -> In c (known ++ deliveredBy evs).
Proof.
  induction evs as [|ev evs IH]; intros st known Hk o Ho; simpl in Ho.
  - contradiction.
  - assert (D : deliveredBy (ev :: evs) = deliveredBy [ev] ++ deliveredBy evs).
    { unfold deliveredBy. simpl. rewrite app_nil_r. reflexivity. }
    rewrite D, app_assoc. clear D.
    pose proof (previewStep_fromQueue st ev) as F.
    pose proof (previewStep_queue_source st ev) as Q.
    destruct (previewStep st ev) as [st1 out1]. simpl in F, Q.
    specialize (IH st1 (known ++ deliveredBy [ev])).
    destruct (previewRun st1 evs) as [st2 out2]. simpl in Ho, IH.
    apply in_app_or in Ho. destruct Ho as [Ho|Ho].
    + rewrite Forall_forall in F. destruct (F o Ho) as [Hr Hc].
      split; [exact Hr|]. intros c E. apply in_or_app. left.
      apply in_or_app. left. apply Hk. exact (Hc c E).
    + apply IH; [|exact Ho].
      intros c H. apply in_or_app.
      destruct (Q c H) as [H'|H']; [left; auto|].
      right. subst ev. simpl. auto.
Qed.

(** X19. Whatever the preview reports or runs for a command, it does for
    a command that was handed to it: every call of a handler and every
    result in a run from the initial state concerns one of the requests
    delivered in that run, and every result carries the [id] and the
    [action] of the command it is about. *)
Theorem results_concern_delivered_commands :
  forall (html : string) (evs : list PreviewEvent) (o : PreviewOutput),
    In o (snd (previewRun (initialPreview html) evs)) ->
    reportsOn o = true
    /\ forall c, commandOf o = Some c -> In c (deliveredBy evs).
Proof.
  intros html evs o Ho.
  apply (previewRun_provenance evs (initialPreview html) []); [|exact Ho].
  unfold inProgress. simpl. intros c [H|[H|H]];
    [discriminate H | discriminate H | contradiction].
Qed.

Lemma results_concern_delivered_commands_witness :
  reportsOn (CommandResultOut commandA (commandCompleted commandA)) = true
  /\ forall c,
       commandOf (CommandResultOut commandA (commandCompleted commandA)) = Some c ->
       In c (deliveredBy interleavedDelivery).
Proof.
  apply (results_concern_delivered_commands "<p>Hi</p>" interleavedDelivery
           (CommandResultOut commandA (commandCompleted commandA))).
  vm_compute. auto 10.
Defined.

(** ** The popup window *)

Lemma popupOffset_div (screen extent : Z) :
  popupOffset screen extent = Z.max 0 ((screen - extent) / 2).
Proof.
  unfold popupOffset. f_equal.
  unfold Qfloor, Qdiv, Qmult, Qinv, Qminus, Qplus, Qopp, inject_Z. simpl.
  f_equal. lia.
Qed.

(** X20. The popup of [openPrintPopup] is at least 200 pixels wide and
    high and is never placed at a negative offset; on a screen that is at
    least as large it lies inside the screen and is centred to the pixel,
    the odd pixel going to the far side, and on a smaller screen it starts
    at offset 0. *)
Theorem popup_is_centred_on_screen :
  forall (requested fallback : Q) (screen : Z),
    let extent := popupExtent requested fallback in
    let offset := popupOffset screen extent in
    (200 <= extent)%Z
    /\ (0 <= offset)%Z
    /\ ((extent <= screen)%Z ->
        (offset + extent <= screen)%Z
        /\ (0 <= (screen - extent) - 2 * offset <= 1)%Z)
    /\ ((screen <= extent)%Z -> offset = 0%Z).
Proof.
  intros requested fallback screen extent offset.
  unfold offset. rewrite popupOffset_div.
  assert (E : (200 <= extent)%Z) by (unfold extent, popupExtent; lia).
  pose proof (Z.div_mod (screen - extent) 2 ltac:(lia)) as D.
  pose proof (Z.mod_pos_bound (screen - extent) 2 ltac:(lia)) as M.
  repeat split; try lia.
Qed.

(** ** When [updateView] opens the popup, and the inline round trip *)

Lemma dispatchActionCommand_popup (JSON_parse : string -> option JsonValue)
  (c : Component) (env : HostEnv) (mode : RenderMode) (html raw : string) :
  existsb isPopup (snd (dispatchActionCommand JSON_parse c env mode html raw))
  = true
  <-> mode = Popup
      /\ raw <> lastActionCommandRaw c
      /\ raw <> EmptyString
      /\ isBlank html = false
      /\ exists cmd, command (parseActionCommand JSON_parse raw) = Some cmd
                     /\ cmd_action cmd = Print.
Proof.
  unfold dispatchActionCommand.
  destruct (String.eqb_spec raw (lastActionCommandRaw c)) as [E|E]; simpl.
  { split; [discriminate | intros (_ & H & _); contradiction]. }
  destruct (isEmpty raw) eqn:I; simpl.
  { apply isEmpty_true in I.
    split; [discriminate | intros (_ & _ & H & _); contradiction]. }
  apply isEmpty_false in I.
  destruct (command (parseActionCommand JSON_parse raw)) as [cmd|]; simpl.
  2:{ split; [discriminate | intros (_ & _ & _ & _ & cmd & H & _); discriminate]. }
  destruct mode; simpl.
  { split; [discriminate | intros (H & _); discriminate]. }
  unfold handlePopupCommand.
  destruct (isBlank html); simpl.
  { split; [discriminate | intros (_ & _ & _ & H & _); discriminate]. }
  destruct (cmd_action cmd) eqn:A; simpl.
  - split; [|reflexivity]. intros _.
    repeat split; auto. exists cmd. auto.
  - split; [discriminate|].
    intros (_ & _ & _ & _ & cmd' & H & A'). injection H as <-. congruence.
Qed.

(** X21. [updateView] opens the print popup in exactly one situation: in
    popup mode, for a payload that differs from the last one seen, is not
    empty and parses to a print command, on a document that is not blank
    once the line breaks are applied. Nothing else opens it: no other
    input, no download command, no repeated payload. *)
Theorem updateView_opens_popup_iff :
  forall (JSON_parse : string -> option JsonValue) (c : Component)
         (env : HostEnv) (inputs : Inputs),
    let raw := trim (orElse (in_actionCommand inputs) EmptyString) in
    let document :=
      applyLineBreakToken (orElse (in_html inputs) EmptyString)
        (normalizeLineBreakToken (in_lineBreakToken inputs)) in
    existsb isPopup (snd (fst (updateView JSON_parse c env inputs))) = true
    <-> asRenderMode (in_renderMode inputs) = Popup
        /\ raw <> lastActionCommandRaw c
        /\ raw <> EmptyString
        /\ isBlank document = false
        /\ exists cmd, command (parseActionCommand JSON_parse raw) = Some cmd
                       /\ cmd_action cmd = Print.
Proof.
  intros JSON_parse c env inputs raw document.
  unfold updateView. cbv zeta. fold raw. fold document.
  set (c1 := mkComponent _ _ _ _ _ _ _ _).
  pose proof (dispatchActionCommand_popup JSON_parse c1 env
                (asRenderMode (in_renderMode inputs)) document raw) as P.
  destruct (dispatchActionCommand JSON_parse c1 env
              (asRenderMode (in_renderMode inputs)) document raw)
    as [c2 ev2].
  simpl in P. simpl. rewrite existsb_app.
  assert (N : existsb isPopup
                (if negb (htmlText c =? document)%string
                    || negb (htmlTextRaw c =? orElse (in_html inputs) EmptyString)%string
                 then [NotifyOutputChanged] else []) = false)
    by (destruct (_ || _); reflexivity).
  rewrite N. simpl. exact P.
Qed.

Lemma updateView_fields (JSON_parse : string -> option JsonValue)
  (c : Component) (env : HostEnv) (inputs : Inputs) :
  let c' := fst (fst (updateView JSON_parse c env inputs)) in
  htmlText c'
  = applyLineBreakToken (orElse (in_html inputs) EmptyString)
      (normalizeLineBreakToken (in_lineBreakToken inputs))
  /\ htmlTextRaw c' = orElse (in_html inputs) EmptyString
  /\ lastActionCommandRaw c'
     = trim (orElse (in_actionCommand inputs) EmptyString).
Proof.
  unfold updateView. cbv zeta.
  set (c1 := mkComponent _ _ _ _ _ _ _ _).
  pose proof (dispatchActionCommand_fields JSON_parse c1 env
                (asRenderMode (in_renderMode inputs))
                (applyLineBreakToken (orElse (in_html inputs) EmptyString)
                   (normalizeLineBreakToken (in_lineBreakToken inputs)))
                (trim (orElse (in_actionCommand inputs) EmptyString))) as F.
  destruct (dispatchActionCommand _ _ _ _ _ _) as [c2 ev2].
  simpl in F. simpl. exact F.
Qed.

(** X22. The inline round trip. Once the preview has reported a result,
    [handleInlineCommandResult] writes it as one acknowledgment, under the
    [id], action, status and message of the result, and withdraws the
    request: the next [updateView] with the same inputs hands the preview
    no command, writes nothing and notifies nobody, so the payload is not
    run again. *)
Theorem inline_command_round_trip :
  forall (JSON_parse : string -> option JsonValue) (c : Component)
         (env env2 env3 : HostEnv) (inputs : Inputs) (result : CommandResult),
    asRenderMode (in_renderMode inputs) = Inline ->
    let c1 := fst (fst (updateView JSON_parse c env inputs)) in
    let settled := handleInlineCommandResult c1 env2 result in
    let again := updateView JSON_parse (fst settled) env3 inputs in
    let ack :=
      mkCommandAck (res_id result) (actionName (res_action result))
        (res_status result) (res_message result) (env_timestamp env2) in
    acksOf (snd settled) = [ack]
    /\ snd again = PrintPreviewElement (htmlText c1) None
    /\ snd (fst again) = []
    /\ lastCommandAck (fst (fst again)) = Some ack.
Proof.
  intros JSON_parse c env env2 env3 inputs result Hmode c1 settled again ack.
  split; [reflexivity|].
  destruct (updateView_fields JSON_parse c env inputs) as (F1 & F2 & F3).
  fold c1 in F1, F2, F3.
  unfold again, settled, handleInlineCommandResult, updateCommandAck.
  cbn [fst snd]. unfold updateView. cbv zeta. rewrite Hmode.
  unfold dispatchActionCommand.
  cbn [lastActionCommandRaw htmlText htmlTextRaw lastCommandAck pdfBase64
       pdfFileName pdfStatus pendingInlineCommand].
  rewrite F1, F2, F3, !String.eqb_refl. simpl. auto.
Qed.

Lemma inline_command_round_trip_witness :
  let c1 := fst (fst (updateView readJson initialComponent exampleEnv
                        (inputsWithCommand payloadUpperCase))) in
  let settled :=
    handleInlineCommandResult c1 exampleEnv
      (mkCommandResult "1" Print Completed None) in
  let again :=
    updateView readJson (fst settled) exampleEnv
      (inputsWithCommand payloadUpperCase) in
  let ack :=
    mkCommandAck "1" "print" Completed None (env_timestamp exampleEnv) in
  acksOf (snd settled) = [ack]
  /\ snd again = PrintPreviewElement (htmlText c1) None
  /\ snd (fst again) = []
  /\ lastCommandAck (fst (fst again)) = Some ack.
Proof.
  apply (inline_command_round_trip readJson initialComponent exampleEnv
           exampleEnv exampleEnv (inputsWithCommand payloadUpperCase)
           (mkCommandResult "1" Print Completed None)).
  reflexivity.
Defined.

(** ** A single page marker *)

(** X23. A document with exactly one page marker is exported as one
    page that holds the whole body, the part before the marker included:
    the only segment runs from the start of the body to its end, and it is
    scaled to fit the page, however tall it is, instead of being sliced. *)
Theorem single_marker_exports_whole_body :
  forall (html2canvas : Node -> Result Canvas)
         (embedPng : Canvas -> Result PngImage) (cv : Node -> Canvas)
         (png : Canvas -> PngImage) (body : list Node) (pdfDoc : PdfDocument),
    (forall n, html2canvas n = Ok (cv n)) ->
    (forall c, embedPng c = Ok (png c)) ->
    List.length (pageMarkerDivs body) = 1%nat ->
    segmentRanges body = [mkRange 0 (List.length (flatten body))]
    /\ paginate html2canvas embedPng body pdfDoc
       = Ok (mkPdfDocument (doc_title pdfDoc)
               (doc_pages pdfDoc
                ++ [singlePage (png (cv (segmentHost body)))])).
Proof.
  intros html2canvas embedPng cv png body pdfDoc Hcap Hemb Hone.
  assert (R : segmentRange (pageMarkerDivs body) (List.length (flatten body)) 0
              = mkRange 0 (List.length (flatten body))).
  { rewrite (segmentRange_cut body 0) by lia.
    unfold cutPoint. rewrite Hone. reflexivity. }
  split.
  - unfold segmentRanges. rewrite Hone. simpl. rewrite R. reflexivity.
  - unfold paginate. cbv zeta. rewrite Hone. simpl seq. cbv iota.
    change (0 <? 1)%nat with true. cbv iota.
    rewrite (markerLoop_pages html2canvas embedPng cv png body Hcap Hemb)
      by (constructor; [lia | constructor]).
    simpl. rewrite R, cloneContents_whole. reflexivity.
Qed.

Lemma single_marker_exports_whole_body_witness :
  segmentRanges [TextNode "Intro"; ElementNode "div" (Some "page") [TextNode "A"]]
  = [mkRange 0 4].
Proof.
  refine (proj1 (single_marker_exports_whole_body
                   (fun _ => Ok (mkCanvas 800 6000))
                   (fun c => Ok (mkPngImage (canvas_width c) (canvas_height c)))
                   (fun _ => mkCanvas 800 6000)
                   (fun c => mkPngImage (canvas_width c) (canvas_height c))
                   [TextNode "Intro";
                    ElementNode "div" (Some "page") [TextNode "A"]]
                   (createDocument "Document") _ _ _)); reflexivity.
Defined.

(** ** From the export to the outputs of the component *)

Lemma downloadName_ends (downloadFileName : string) :
  endsWith (toLowerCase (downloadName downloadFileName)) ".pdf" = true.
Proof.
  unfold downloadName. cbv zeta.
  destruct (endsWith (toLowerCase (trim (orIfEmpty downloadFileName "document.pdf")))
              ".pdf") eqn:E; [exact E|].
  rewrite toLowerCase_app. apply endsWith_app.
Qed.

(** X24. What an export that was let in leaves in the outputs of the
    component, through [onPdfOutput]. If it succeeds, the status is
    [ready], [pdfBase64] is the data URL of the saved document and
    [pdfFileName] is the name of the file that was saved, which ends in
    [.pdf]. If any step fails, the status is [error], both fields are empty
    and no file is saved. There is no third outcome. *)
Theorem export_outcome_in_outputs :
  forall (html2canvas : Node -> Result Canvas)
         (embedPng : Canvas -> Result PngImage)
         (saveAsDataUrl : PdfDocument -> Result string)
         (title downloadFileName : string) (body : list Node)
         (c : Component) (downloading : bool) (refs : DownloadRefs) (now : Z),
    let r := download html2canvas embedPng saveAsDataUrl title
               downloadFileName body true downloading refs now in
    let c' := publish c (eventsOf r) in
    proceeds (entryOf (handleDownload_enter true downloading refs now true))
    = true ->
    (exists doc url,
        saveAsDataUrl doc = Ok url
        /\ snd r = Ok tt
        /\ pdfStatus c' = "ready"
        /\ pdfBase64 c' = url
        /\ pdfFileName c' = downloadName downloadFileName
        /\ filter isSaveFile (eventsOf r)
           = [SaveFile (downloadName downloadFileName)]
        /\ endsWith (toLowerCase (pdfFileName c')) ".pdf" = true)
    \/ (exists message,
          snd r = Err message
          /\ pdfStatus c' = "error"
          /\ pdfBase64 c' = EmptyString
          /\ pdfFileName c' = EmptyString
          /\ filter isSaveFile (eventsOf r) = []).
Proof.
  intros html2canvas embedPng saveAsDataUrl title downloadFileName body c
    downloading refs now r c' Hin.
  unfold c', r, download, handleDownload.
  destruct (handleDownload_enter true downloading refs now true)
    as [[refs1 events1] entry] eqn:Enter.
  unfold entryOf in Hin. simpl in Hin.
  destruct entry; try discriminate Hin.
  assert (Ev : events1
               = [OnBeforeDownload;
                  OnPdfOutput (mkPdfOutputUpdate StGenerating None None None);
                  SetDownloading true]).
  { revert Enter. unfold handleDownload_enter. simpl.
    destruct (downloading || downloadInFlightRef refs); [discriminate|].
    destruct (now - lastDownloadStartedAtRef refs <? 1500)%Z; [discriminate|].
    intros H. injection H as _ H. symmetry. exact H. }
  subst events1. unfold generatePdf. cbv zeta.
  destruct (paginate html2canvas embedPng body
              (createDocument (orIfEmpty title "Document"))) as [doc|m].
  - simpl bind. destruct (saveAsDataUrl doc) as [url|m] eqn:Save.
    + left. exists doc, url. unfold eventsOf. simpl.
      repeat split; auto. apply downloadName_ends.
    + right. exists m. unfold eventsOf. simpl. auto.
  - right. exists m. unfold eventsOf. simpl. auto.
Qed.

Lemma export_outcome_in_outputs_witness :
  let r := download (fun _ => Ok (mkCanvas 800 600))
             (fun c => Ok (mkPngImage (canvas_width c) (canvas_height c)))
             (fun _ => Ok "data:application/pdf;base64,AA")
             "Report" "Report.PDF" exampleBody true false
             (mkDownloadRefs false 0) 5000 in
  pdfFileName (publish initialComponent (eventsOf r)) = "Report.PDF".
Proof.
  destruct (export_outcome_in_outputs
              (fun _ => Ok (mkCanvas 800 600))
              (fun c => Ok (mkPngImage (canvas_width c) (canvas_height c)))
              (fun _ => Ok "data:application/pdf;base64,AA")
              "Report" "Report.PDF" exampleBody initialComponent false
              (mkDownloadRefs false 0) 5000 eq_refl)
    as [(doc & url & _ & _ & _ & _ & Hn & _) | (m & Hm & _)].
  - exact Hn.
  - vm_compute in Hm. discriminate Hm.
Defined.

(** ** Before the iframe has loaded *)

Lemma previewStep_not_ready (st : PreviewState) (ev : PreviewEvent) :
  ready st = false ->
  existsb startsHandler (snd (previewStep st ev)) = false
  /\ (isIframeLoaded ev = false -> ready (fst (previewStep st ev)) = false).
Proof.
  intros Hr.
  destruct ev as [h'| | |cmd|ifr now|gen|win|ifr now| |]; simpl.
  - auto.
  - auto.
  - split; [reflexivity | discriminate].
  - split; [reflexivity|]. intros _. unfold queueCommand.
    destruct cmd as [c|]; [|exact Hr].
    destruct (isBlank (cmd_raw c)); [exact Hr|].
    destruct (cmd_raw c =? lastQueuedCommandRawRef st)%string; exact Hr.
  - unfold executeEffect.
    destruct (pendingCommand st) as [c|]; [|auto].
    destruct (executingCommandRawRef st =? cmd_raw c)%string; [auto|].
    destruct (completedCommandRawRef st =? cmd_raw c)%string; [auto|].
    destruct (isBlank (html st)); [auto|].
    rewrite Hr. simpl. auto.
  - unfold settleDownload.
    destruct (suspended st) as [owner|]; [|auto].
    destruct gen as [[url name]|m]; simpl; auto.
  - unfold clickPrint, buttonsDisabled. rewrite Hr.
    rewrite orb_true_r. simpl. auto.
  - unfold clickDownload, buttonsDisabled. rewrite Hr.
    rewrite orb_true_r. simpl. auto.
  - auto.
  - unfold resumeExecute.
    destruct (resuming st) as [|[c outcome] rest]; simpl; auto.
Qed.

Lemma previewRun_not_ready (evs : list PreviewEvent) :
  forall st : PreviewState,
    ready st = false ->
    forallb (fun ev => negb (isIframeLoaded ev)) evs = true ->
    existsb startsHandler (snd (previewRun st evs)) = false
    /\ ready (fst (previewRun st evs)) = false.
Proof.
  induction evs as [|ev evs IH]; intros st Hr Hall; simpl.
  - auto.
  - simpl in Hall. apply andb_true_iff in Hall. destruct Hall as [Hev Hrest].
    apply negb_true_iff in Hev.
    destruct (previewStep_not_ready st ev Hr) as [Hout Hnext].
    specialize (Hnext Hev).
    destruct (previewStep st ev) as [st1 out1]. simpl in Hout, Hnext.
    destruct (IH st1 Hnext Hrest) as [Hout2 Hr2].
    destruct (previewRun st1 evs) as [st2 out2]. simpl in *.
    rewrite existsb_app, Hout, Hout2. auto.
Qed.

(** X25. Nothing is printed or exported on a preview that is not ready:
    from a state whose [ready] is false, and so from the moment the
    [setReady(false)] of the effect on [srcDoc] has landed, until the
    iframe reports its load, no command reaches a handler and no click or
    command gets [handlePrint] or [handleDownload] past its guards,
    whatever else happens: new documents, deliveries, effect runs, clicks,
    settlements. *)
Theorem nothing_starts_before_load :
  forall (st : PreviewState) (evs : list PreviewEvent),
    forallb (fun ev => negb (isIframeLoaded ev)) evs = true ->
    (ready st = false ->
     existsb startsHandler (snd (previewRun st evs)) = false
     /\ ready (fst (previewRun st evs)) = false)
    /\ existsb startsHandler (snd (previewRun st (SrcDocChanged :: evs)))
       = false
    /\ ready (fst (previewRun st (SrcDocChanged :: evs))) = false.
Proof.
  intros st evs Hall. split.
  - intros Hr. exact (previewRun_not_ready evs st Hr Hall).
  - cbn [previewRun previewStep].
    destruct (previewRun_not_ready evs (setReady st false) eq_refl Hall)
      as [H1 H2].
    destruct (previewRun (setReady st false) evs) as [st2 out2].
    simpl in *. auto.
Qed.

Lemma nothing_starts_before_load_witness :
  existsb startsHandler
    (snd (previewRun shortlyAfterExport
            [SrcDocChanged;
             CommandRequestChanged (Some commandA); ExecuteEffectRuns true 1000;
             PrintClicked true; DownloadClicked true 9000]))
  = false.
Proof.
  refine (proj1 (proj2 (nothing_starts_before_load shortlyAfterExport
                          [CommandRequestChanged (Some commandA);
                           ExecuteEffectRuns true 1000;
                           PrintClicked true; DownloadClicked true 9000] _))).
  reflexivity.
Defined.

(** The render in which the document changed still holds the old
    [ready]: until the [setReady(false)] of the effect lands, a command is
    run on a loaded preview whose document has just been replaced. *)
Example command_runs_before_ready_is_reset :
  snd (previewRun (initialPreview "<p>Old</p>")
         [IframeLoaded; HtmlChanged "<p>New</p>";
          CommandRequestChanged (Some commandA); ExecuteEffectRuns true 1000;
          SrcDocChanged])
  = [Executed commandA; Ui OnBeforePrint; Ui WindowPrint;
     CommandResultOut commandA (commandCompleted commandA)].
Proof. reflexivity. Qed.

(** ** A missing iframe and the debounce *)

(** X26. An invocation of [handleDownload] that fails because the iframe
    is not available has already recorded its start: it clears the
    in-flight flag and reports nothing, but the next invocation less than
    1500 ms later is swallowed by the debounce, returning without an error
    and without an export, even when the iframe is there by then. *)
Theorem missing_iframe_arms_debounce :
  forall (refs : DownloadRefs) (t1 t2 : Z) (iframe2 : bool)
         (generated : Result (string * string)),
    downloadInFlightRef refs = false ->
    (1500 <= t1 - lastDownloadStartedAtRef refs)%Z ->
    (t2 - t1 < 1500)%Z ->
    let first := handleDownload true false refs t1 false generated in
    first = (mkDownloadRefs false t1, [], Err errNoIframe)
    /\ handleDownload true false (refsOf first) t2 iframe2 generated
       = (mkDownloadRefs false t1, [], Ok tt).
Proof.
  intros refs t1 t2 iframe2 generated Hf H1 H2.
  unfold handleDownload, handleDownload_enter, refsOf. simpl.
  rewrite Hf.
  replace (t1 - lastDownloadStartedAtRef refs <? 1500)%Z with false
    by (symmetry; apply Z.ltb_ge; exact H1).
  simpl.
  replace (t2 - t1 <? 1500)%Z with true
    by (symmetry; apply Z.ltb_lt; exact H2).
  split; reflexivity.
Qed.

Lemma missing_iframe_arms_debounce_witness :
  handleDownload true false
    (refsOf (handleDownload true false (mkDownloadRefs false 0) 5000 false
               (Ok ("data:,", "document.pdf"))))
    5400 true (Ok ("data:,", "document.pdf"))
  = (mkDownloadRefs false 5000, [], Ok tt).
Proof.
  refine (proj2 (missing_iframe_arms_debounce (mkDownloadRefs false 0) 5000
                   5400 true (Ok ("data:,", "document.pdf")) _ _ _));
    simpl; try reflexivity; lia.
Defined.
